(** * A shallow embedding of the SQL compiler and its in-memory database

    The development follows the two Python modules of the repository:
    [sql_compiler.py] (token and node kinds, [Lexer], [Parser],
    [SQLGenerator]) and [database.py] ([ColumnDef], [Table], [Database]).
    Every class becomes a module, every method a function of the same name.

    Python objects that are mutated in place are passed explicitly: a lexer
    is the record of its four attributes, a parser is its lexer together
    with the look-ahead token, the database is the dictionary of its tables.
    A Python exception is the [Raise] outcome of the [Res] type; text written
    to the standard output is a list of [Message]s. *)

From Stdlib Require Import String Ascii ZArith List Lia Bool DecimalString.
From Stdlib Require Import Floats.SpecFloat.
From stdpp Require Import gmap strings list.

Local Open Scope string_scope.
Local Open Scope Z_scope.

(** ** The host language *)

(** Characters are the code points below 256; the classification
    predicates are those of Python's [str] methods on that range. *)
Module Char.

Definition ord (c : ascii) : nat := nat_of_ascii c.

Definition between (lo hi : nat) (c : ascii) : bool :=
  (lo <=? ord c)%nat && (ord c <=? hi)%nat.

Definition NUL : ascii := "000"%char.
Definition LF : ascii := "010"%char.
Definition DQUOTE : ascii := "034"%char.

Definition isspace (c : ascii) : bool :=
  between 9 13 c || between 28 32 c || between 133 133 c || between 160 160 c.

Definition isalpha (c : ascii) : bool :=
  between 65 90 c || between 97 122 c
  || between 170 170 c || between 181 181 c || between 186 186 c
  || between 192 214 c || between 216 246 c || between 248 255 c.

Definition isdigit (c : ascii) : bool :=
  between 48 57 c || between 178 179 c || between 185 185 c.

Definition isalnum (c : ascii) : bool :=
  isalpha c || isdigit c || between 188 190 c.

(** The ASCII decimal digits, the only ones [int] and [float] accept among
    the characters [isdigit] accepts here. *)
Definition isdecimal (c : ascii) : bool := between 48 57 c.

Definition lower (c : ascii) : ascii :=
  if between 65 90 c || (between 192 222 c && negb (between 215 215 c))
  then ascii_of_nat (ord c + 32)
  else c.

End Char.

Module Str.

Fixpoint lower (s : string) : string :=
  match s with
  | EmptyString => EmptyString
  | String c s' => String (Char.lower c) (lower s')
  end.

Definition of_char (c : ascii) : string := String c EmptyString.

(** [sep.join(parts)] *)
Fixpoint join (sep : string) (parts : list string) : string :=
  match parts with
  | [] => ""
  | [p] => p
  | p :: rest => p ++ sep ++ join sep rest
  end.

(** Lexicographic order on code points, the order of [str]. *)
Fixpoint compare (a b : string) : comparison :=
  match a, b with
  | EmptyString, EmptyString => Eq
  | EmptyString, String _ _ => Lt
  | String _ _, EmptyString => Gt
  | String x a', String y b' =>
      match Nat.compare (Char.ord x) (Char.ord y) with
      | Eq => compare a' b'
      | o => o
      end
  end.

Fixpoint repeat (s : string) (n : nat) : string :=
  match n with
  | O => ""
  | S k => s ++ repeat s k
  end.

End Str.

(** ** Token kinds *)

Module TokenType.

Inductive t : Type :=
| SELECT | FROM | WHERE | INSERT | INTO | VALUES | UPDATE | SET | DELETE
| CREATE | TABLE | DROP | JOIN | ON | AND | OR | NOT | NULL
| INT | TEXT | FLOAT | DATE
| EQUALS | GREATER | LESS | GREATER_EQUALS | LESS_EQUALS | NOT_EQUALS
| PLUS | MINUS | ASTERISK | DIVIDE
| COMMA | SEMICOLON | LEFT_PAREN | RIGHT_PAREN | DOT
| IDENTIFIER | INTEGER | FLOAT_LITERAL | STRING | EOF | ERROR.

(** The number [auto()] gives each member, in declaration order. *)
Definition value (k : t) : nat :=
  match k with
  | SELECT => 1 | FROM => 2 | WHERE => 3 | INSERT => 4 | INTO => 5
  | VALUES => 6 | UPDATE => 7 | SET => 8 | DELETE => 9 | CREATE => 10
  | TABLE => 11 | DROP => 12 | JOIN => 13 | ON => 14 | AND => 15 | OR => 16
  | NOT => 17 | NULL => 18 | INT => 19 | TEXT => 20 | FLOAT => 21
  | DATE => 22 | EQUALS => 23 | GREATER => 24 | LESS => 25
  | GREATER_EQUALS => 26 | LESS_EQUALS => 27 | NOT_EQUALS => 28
  | PLUS => 29 | MINUS => 30 | ASTERISK => 31 | DIVIDE => 32
  | COMMA => 33 | SEMICOLON => 34 | LEFT_PAREN => 35 | RIGHT_PAREN => 36
  | DOT => 37 | IDENTIFIER => 38 | INTEGER => 39 | FLOAT_LITERAL => 40
  | STRING => 41 | EOF => 42 | ERROR => 43
  end%nat.

Definition eqb (a b : t) : bool := Nat.eqb (value a) (value b).

(** [k in kinds] *)
Definition mem (k : t) (kinds : list t) : bool := existsb (eqb k) kinds.

End TokenType.

(** Exceptions of the host language that the modelled code can meet.
    [OutOfFuel] is not a Python exception: it reports that the budget given
    to a recursive descent ran out (CPython raises [RecursionError] when its
    own, larger, budget does). *)
Inductive SyntaxMsg : Type :=
| Expected (expected got : TokenType.t) (line column : Z)
| UnexpectedToken (got : TokenType.t) (line column : Z)
| ExpectedTableNameAt (got : TokenType.t) (line column : Z)
| ExpectedTableName (got : TokenType.t)
| ExpectedColumnAfterDot (got : TokenType.t)
| UnexpectedInExpression (got : TokenType.t)
| ExpectedLiteral (got : TokenType.t)
| ExpectedColumnName (got : TokenType.t)
| ExpectedDataType (got : TokenType.t).

Inductive Exn : Type :=
| SyntaxError (msg : SyntaxMsg)
| ValueError
| KeyError (key : string)
| AttributeError
| TypeError
| IndexError
| ZeroDivisionError
| OverflowError
| OutOfFuel.

Inductive Res (A : Type) : Type :=
| Ok (a : A)
| Raise (e : Exn).
Arguments Ok {A} a.
Arguments Raise {A} e.

Definition res_bind {A B : Type} (r : Res A) (k : A -> Res B) : Res B :=
  match r with
  | Ok a => k a
  | Raise e => Raise e
  end.

Declare Scope res_scope.
Delimit Scope res_scope with res.
Notation "'let*' x ':=' m 'in' k" := (res_bind m (fun x => k))
  (at level 10, x name, m at level 100, k at level 200,
   format "'[v' 'let*'  x  ':='  m  'in' '/' k ']'") : res_scope.
Local Open Scope res_scope.

(** [[f(x) for x in l]], stopping at the first exception. *)
Fixpoint res_map {A B : Type} (f : A -> Res B) (l : list A) : Res (list B) :=
  match l with
  | [] => Ok []
  | x :: l' =>
      let* y := f x in
      let* ys := res_map f l' in
      Ok (y :: ys)
  end.

Record Token : Type := mkToken {
  type : TokenType.t;
  lexeme : string;
  line : Z;
  column : Z
}.

(** ** The lexer *)

Module Lexer.

Import TokenType.

Record t : Type := mk {
  input : string;
  position : nat;
  line : Z;
  column : Z
}.

Definition new (input_text : string) : t := mk input_text 0 1 1.

Definition keywords (word : string) : option TokenType.t :=
  if String.eqb word "select" then Some SELECT
  else if String.eqb word "from" then Some FROM
  else if String.eqb word "where" then Some WHERE
  else if String.eqb word "insert" then Some INSERT
  else if String.eqb word "into" then Some INTO
  else if String.eqb word "values" then Some VALUES
  else if String.eqb word "update" then Some UPDATE
  else if String.eqb word "set" then Some SET
  else if String.eqb word "delete" then Some DELETE
  else if String.eqb word "create" then Some CREATE
  else if String.eqb word "table" then Some TABLE
  else if String.eqb word "drop" then Some DROP
  else if String.eqb word "join" then Some JOIN
  else if String.eqb word "on" then Some ON
  else if String.eqb word "and" then Some AND
  else if String.eqb word "or" then Some OR
  else if String.eqb word "not" then Some NOT
  else if String.eqb word "null" then Some NULL
  else if String.eqb word "int" then Some INT
  else if String.eqb word "text" then Some TEXT
  else if String.eqb word "float" then Some FLOAT
  else if String.eqb word "date" then Some DATE
  else None.

Definition peek (lx : t) : ascii :=
  if (String.length (input lx) <=? position lx)%nat then Char.NUL
  else match String.get (position lx) (input lx) with
       | Some c => c
       | None => Char.NUL
       end.

Definition advance (lx : t) : ascii * t :=
  let char := peek lx in
  (char,
   if Ascii.eqb char Char.LF
   then mk (input lx) (S (position lx)) (line lx + 1) 1
   else mk (input lx) (S (position lx)) (line lx) (column lx + 1)).

(** The characters that are still to be read. Every loop of the lexer
    advances by one character per round and stops at the end of the input
    at the latest, so this many rounds are always enough: a loop below that
    starts with this budget ends on its test, and a larger budget gives the
    same result (the lemmas [skip_whitespace_loop_budget] to
    [string_loop_budget]). *)
Definition remaining (lx : t) : nat :=
  (String.length (input lx) - position lx)%nat.

Fixpoint skip_whitespace_loop (fuel : nat) (lx : t) : t :=
  if Char.isspace (peek lx) then
    match fuel with
    | O => lx
    | S fuel' => skip_whitespace_loop fuel' (snd (advance lx))
    end
  else lx.

Definition skip_whitespace (lx : t) : t :=
  skip_whitespace_loop (remaining lx) lx.

Fixpoint skip_comment_loop (fuel : nat) (lx : t) : t :=
  if negb (Ascii.eqb (peek lx) Char.LF) && negb (Ascii.eqb (peek lx) Char.NUL)
  then
    match fuel with
    | O => lx
    | S fuel' => skip_comment_loop fuel' (snd (advance lx))
    end
  else lx.

Definition skip_comment (lx : t) : t :=
  if Ascii.eqb (peek lx) "#"%char
  then skip_comment_loop (remaining lx) lx
  else lx.

Fixpoint identifier_loop (fuel : nat) (lx : t) (lexeme : string)
  : string * t :=
  if Char.isalnum (peek lx) || Ascii.eqb (peek lx) "_"%char then
    match fuel with
    | O => (lexeme, lx)
    | S fuel' =>
        let (c, lx') := advance lx in
        identifier_loop fuel' lx' (lexeme ++ Str.of_char c)
    end
  else (lexeme, lx).

Definition identifier (lx : t) : Token * t :=
  let start_column := column lx in
  let (lexeme, lx') := identifier_loop (remaining lx) lx "" in
  let token_type :=
    match keywords (Str.lower lexeme) with
    | Some k => k
    | None => IDENTIFIER
    end in
  (mkToken token_type lexeme (line lx') start_column, lx').

Fixpoint number_loop (fuel : nat) (lx : t) (lexeme : string)
  (is_float : bool) : string * bool * t :=
  if Char.isdigit (peek lx) || Ascii.eqb (peek lx) "."%char then
    if Ascii.eqb (peek lx) "."%char && is_float then (lexeme, is_float, lx)
    else
      let is_float' := Ascii.eqb (peek lx) "."%char || is_float in
      match fuel with
      | O => (lexeme, is_float', lx)
      | S fuel' =>
          let (c, lx') := advance lx in
          number_loop fuel' lx' (lexeme ++ Str.of_char c) is_float'
      end
  else (lexeme, is_float, lx).

Definition number (lx : t) : Token * t :=
  let start_column := column lx in
  let '(lexeme, is_float, lx') := number_loop (remaining lx) lx "" false in
  if is_float
  then (mkToken FLOAT_LITERAL lexeme (line lx') start_column, lx')
  else (mkToken INTEGER lexeme (line lx') start_column, lx').

Fixpoint string_loop (fuel : nat) (lx : t) (quote : ascii) (lexeme : string)
  : string * t :=
  if negb (Ascii.eqb (peek lx) quote) && negb (Ascii.eqb (peek lx) Char.NUL)
  then
    match fuel with
    | O => (lexeme, lx)
    | S fuel' =>
        let (c, lx') := advance lx in
        string_loop fuel' lx' quote (lexeme ++ Str.of_char c)
    end
  else (lexeme, lx).

Definition string (lx : t) : Token * t :=
  let start_column := column lx in
  let (quote, lx1) := advance lx in
  let (lexeme, lx2) := string_loop (remaining lx1) lx1 quote "" in
  if Ascii.eqb (peek lx2) Char.NUL
  then (mkToken ERROR lexeme (line lx2) start_column, lx2)
  else
    let lx3 := snd (advance lx2) in
    (mkToken STRING lexeme (line lx3) start_column, lx3).

(** A token of one character: advance, then report the column before. *)
Definition single (k : TokenType.t) (text : String.string) (lx : t)
  : Token * t :=
  let lx' := snd (advance lx) in
  (mkToken k text (line lx') (column lx' - 1), lx').

(** [>], [<] and [!], each followed or not by [=]. *)
Definition one_or_two (k1 k2 : TokenType.t) (text1 text2 : String.string)
  (lx : t) : Token * t :=
  let lx1 := snd (advance lx) in
  if Ascii.eqb (peek lx1) "="%char
  then
    let lx2 := snd (advance lx1) in
    (mkToken k2 text2 (line lx2) (column lx2 - 2), lx2)
  else (mkToken k1 text1 (line lx1) (column lx1 - 1), lx1).

Definition get_next_token (lx0 : t) : Token * t :=
  let lx := skip_comment (skip_whitespace lx0) in
  if (String.length (input lx) <=? position lx)%nat
  then (mkToken EOF "" (line lx) (column lx), lx)
  else
    let char := peek lx in
    if Char.isalpha char || Ascii.eqb char "_"%char then identifier lx
    else if Char.isdigit char then number lx
    else if Ascii.eqb char "'"%char || Ascii.eqb char Char.DQUOTE then string lx
    else if Ascii.eqb char "="%char then single EQUALS "=" lx
    else if Ascii.eqb char ">"%char
      then one_or_two GREATER GREATER_EQUALS ">" ">=" lx
    else if Ascii.eqb char "<"%char
      then one_or_two LESS LESS_EQUALS "<" "<=" lx
    else if Ascii.eqb char "!"%char
      then one_or_two ERROR NOT_EQUALS "!" "!=" lx
    else if Ascii.eqb char "+"%char then single PLUS "+" lx
    else if Ascii.eqb char "-"%char then single MINUS "-" lx
    else if Ascii.eqb char "*"%char then single ASTERISK "*" lx
    else if Ascii.eqb char "/"%char then single DIVIDE "/" lx
    else if Ascii.eqb char ","%char then single COMMA "," lx
    else if Ascii.eqb char ";"%char then single SEMICOLON ";" lx
    else if Ascii.eqb char "("%char then single LEFT_PAREN "(" lx
    else if Ascii.eqb char ")"%char then single RIGHT_PAREN ")" lx
    else if Ascii.eqb char "."%char then single DOT "." lx
    else single ERROR (Str.of_char char) lx.

(** The tokens of a text up to the first [EOF], which is included: what
    calling [get_next_token] until [EOF] collects. A token other than [EOF]
    takes at least one character, so [fuel] beyond the length of the input
    changes nothing (lemma [tokens_loop_budget]). *)
Fixpoint tokens_loop (fuel : nat) (lx : t) : list Token :=
  let (tok, lx') := get_next_token lx in
  if TokenType.eqb (type tok) EOF then [tok]
  else match fuel with
       | O => [tok]
       | S fuel' => tok :: tokens_loop fuel' lx'
       end.

Definition tokens (input_text : String.string) : list Token :=
  tokens_loop (String.length input_text) (new input_text).

End Lexer.

(** ** Values of the host language

    The values a row can hold and an expression can evaluate to: [None],
    an [int] (unbounded), a [float] (IEEE 754 binary64, through the
    standard library's specification of it), a [str]. *)

Module Py.

Definition prec : Z := 53.
Definition emax : Z := 1024.

Inductive Value : Type :=
| VNone
| VInt (i : Z)
| VFloat (f : spec_float)
| VStr (s : string).

(** [type(value)], as the type-mismatch message shows it. *)
Inductive PyType : Type := NoneType | int | float | str.

Definition type_of (v : Value) : PyType :=
  match v with
  | VNone => NoneType
  | VInt _ => int
  | VFloat _ => float
  | VStr _ => str
  end.

(** *** Conversions *)

Definition digit_value (c : ascii) : Z := Z.of_nat (Char.ord c) - 48.

Fixpoint digits_value (s : string) (acc : Z) : option Z :=
  match s with
  | EmptyString => Some acc
  | String c s' =>
      if Char.isdecimal c then digits_value s' (10 * acc + digit_value c)
      else None
  end.

(** [int(lexeme)] for a lexeme made of characters that [isdigit] accepts,
    the only strings the parser passes: the characters must all be decimal
    digits. (CPython also refuses, with the same [ValueError], more digits
    than its conversion limit, 4300 by default; the limit is not modelled.) *)
Definition int_of_lexeme (s : string) : Res Z :=
  match s with
  | EmptyString => Raise ValueError
  | _ => match digits_value s 0 with
         | Some n => Ok n
         | None => Raise ValueError
         end
  end.

(** The quotient [n / d] of two positive integers, rounded to the nearest
    binary64 value, ties to even; an infinity when it is too large. *)
Definition float_of_quotient (negative : bool) (n d : positive) : spec_float :=
  SFdiv prec emax (S754_finite negative n 0) (S754_finite false d 0).

Fixpoint pow10 (k : nat) : positive :=
  match k with
  | O => 1
  | S k' => 10 * pow10 k'
  end%positive.

(** The digits of [s] up to its end, all decimal: their count and the value
    of [acc] extended with them. *)
Fixpoint fraction_digits (s : string) (acc : Z) (count : nat)
  : option (Z * nat) :=
  match s with
  | EmptyString => Some (acc, count)
  | String c s' =>
      if Char.isdecimal c
      then fraction_digits s' (10 * acc + digit_value c) (S count)
      else None
  end.

Fixpoint mantissa_digits (s : string) (acc : Z) : option (Z * nat) :=
  match s with
  | EmptyString => Some (acc, O)
  | String c s' =>
      if Ascii.eqb c "."%char then fraction_digits s' acc O
      else if Char.isdecimal c
      then mantissa_digits s' (10 * acc + digit_value c)
      else None
  end.

(** [float(lexeme)] for a lexeme made of characters that [isdigit] accepts
    and dots, the only strings the parser passes: the decimal number it
    writes, correctly rounded, when it has one digit at least, one dot at
    most and only decimal digits. *)
Definition float_of_lexeme (s : string) : Res spec_float :=
  if String.eqb s "" || String.eqb s "." then Raise ValueError
  else
    match mantissa_digits s 0 with
    | Some (Zpos n, k) => Ok (float_of_quotient false n (pow10 k))
    | Some (_, _) => Ok (S754_zero false)
    | None => Raise ValueError
    end.

(** *** Texts of numbers *)

(** [str(i)] *)
Definition int_repr (i : Z) : string := NilZero.string_of_int (Z.to_int i).

Definition pow10Z (k : Z) : Z := Zpos (pow10 (Z.to_nat k)).

(** The least [k] with [num / den < 10 ^ k], searched upwards from [k]. *)
Fixpoint decpt_up (fuel : nat) (num den k : Z) : Z :=
  match fuel with
  | O => k
  | S fuel' =>
      if num <? den * pow10Z k then k else decpt_up fuel' num den (k + 1)
  end.

(** The same for a quotient below one: [- j] for the greatest [j] with
    [num * 10 ^ j < den], searched from [j]. *)
Fixpoint decpt_down (fuel : nat) (num den j : Z) : Z :=
  match fuel with
  | O => - j
  | S fuel' =>
      if num * pow10Z (j + 1) <? den then decpt_down fuel' num den (j + 1)
      else - j
  end.

(** A decimal number [0.d1...dn * 10 ^ decpt], the digits as one integer. *)
Record Decimal : Type := mkDecimal { digits : Z; ndigits : Z; decpt : Z }.

(** The decimal of [n] digits nearest to [vn / d] among those that lie
    between [ln / d] and [hn / d], when there is one; [k] is the decimal
    point of [vn / d]. *)
Definition nearest_decimal (closed : bool) (ln vn hn d k n : Z)
  : option Decimal :=
  let p := n - k in
  let a := if 0 <=? p then pow10Z p else 1 in
  let t := if 0 <=? p then d else d * pow10Z (- p) in
  let c1 := (vn * a) / t in
  let c2 := c1 + 1 in
  let inside c :=
    if closed then (ln * a <=? c * t) && (c * t <=? hn * a)
    else (ln * a <? c * t) && (c * t <? hn * a) in
  let pick c :=
    if c =? pow10Z n then mkDecimal 1 1 (k + 1) else mkDecimal c n k in
  let d1 := vn * a - c1 * t in
  let d2 := c2 * t - vn * a in
  match inside c1, inside c2 with
  | false, false => None
  | true, false => Some (pick c1)
  | false, true => Some (pick c2)
  | true, true =>
      Some (pick (if d1 <? d2 then c1
                  else if d2 <? d1 then c2
                  else if Z.even c1 then c1 else c2))
  end.

Fixpoint shortest_loop (fuel : nat) (closed : bool) (ln vn hn d k n : Z)
  : Decimal :=
  match nearest_decimal closed ln vn hn d k n with
  | Some r => r
  | None =>
      match fuel with
      | O => mkDecimal 0 1 0
      | S fuel' => shortest_loop fuel' closed ln vn hn d k (n + 1)
      end
  end.

(** The shortest decimal that rounds to the binary64 value [m * 2 ^ e],
    the nearest one when there are several: the digits [repr] prints. The
    decimals that round to the value are those between the midpoints to its
    two neighbours, the midpoints included when [m] is even; seventeen
    digits always suffice. *)
Definition shortest_decimal (m : positive) (e : Z) : Decimal :=
  let boundary := Pos.eqb m 4503599627370496 && (-1074 <? e) in
  let e2 := e - 2 in
  let scale := if 0 <=? e2 then 2 ^ e2 else 1 in
  let d := if 0 <=? e2 then 1 else 2 ^ (- e2) in
  let vn := 4 * Zpos m * scale in
  let ln := (if boundary then 4 * Zpos m - 1 else 4 * Zpos m - 2) * scale in
  let hn := (4 * Zpos m + 2) * scale in
  let k := if d <=? vn then decpt_up 400 vn d 1 else decpt_down 400 vn d 0 in
  shortest_loop 17 (Z.even (Zpos m)) ln vn hn d k 1.

Definition zeros (n : Z) : string :=
  string_of_list_ascii (List.repeat "0"%char (Z.to_nat n)).

(** The text of a decimal as [repr] lays it out: with an exponent when the
    decimal point is more than sixteen places to the right of the first
    digit or more than three to its left. *)
Definition format_decimal (r : Decimal) : string :=
  let ds := int_repr (digits r) in
  let n := ndigits r in
  let k := decpt r in
  if (k <=? -4) || (16 <? k) then
    let mantissa :=
      match ds with
      | String c EmptyString => ds
      | String c rest => String c ("." ++ rest)
      | EmptyString => ds
      end in
    let x := k - 1 in
    mantissa ++ "e" ++ (if x <? 0 then "-" else "+")
      ++ (if Z.abs x <? 10 then "0" else "") ++ int_repr (Z.abs x)
  else if k <=? 0 then "0." ++ zeros (- k) ++ ds
  else if n <=? k then ds ++ zeros (k - n) ++ ".0"
  else substring 0 (Z.to_nat k) ds ++ "."
         ++ substring (Z.to_nat k) (Z.to_nat (n - k)) ds.

(** [str(f)] *)
Definition float_repr (f : spec_float) : string :=
  match f with
  | S754_nan => "nan"
  | S754_infinity s => if s then "-inf" else "inf"
  | S754_zero s => if s then "-0.0" else "0.0"
  | S754_finite s m e =>
      (if s then "-" else "") ++ format_decimal (shortest_decimal m e)
  end.

(** [str(v)] *)
Definition to_str (v : Value) : string :=
  match v with
  | VNone => "None"
  | VInt i => int_repr i
  | VFloat f => float_repr f
  | VStr s => s
  end.

(** [float(i)]: the nearest binary64 value, ties to even. *)
Definition float_of_int (i : Z) : Res spec_float :=
  match binary_normalize prec emax i 0 false with
  | S754_infinity _ => Raise OverflowError
  | f => Ok f
  end.

(** *** Comparisons *)

(** An [int] against a [float], compared as the numbers they are. *)
Definition Zcompare_float (i : Z) (f : spec_float) : option comparison :=
  match f with
  | S754_nan => None
  | S754_infinity s => Some (if s then Gt else Lt)
  | S754_zero _ => Some (Z.compare i 0)
  | S754_finite s m e =>
      let sm := cond_Zopp s (Zpos m) in
      Some (if 0 <=? e then Z.compare i (sm * 2 ^ e)
            else Z.compare (i * 2 ^ (- e)) sm)
  end.

(** The order of two values: [Raise TypeError] between values that have
    none, [Ok None] when a NaN takes part. *)
Definition compare (a b : Value) : Res (option comparison) :=
  match a, b with
  | VInt x, VInt y => Ok (Some (Z.compare x y))
  | VInt x, VFloat g => Ok (Zcompare_float x g)
  | VFloat f, VInt y => Ok (option_map CompOpp (Zcompare_float y f))
  | VFloat f, VFloat g => Ok (SFcompare f g)
  | VStr s, VStr u => Ok (Some (Str.compare s u))
  | _, _ => Raise TypeError
  end.

(** [a == b] *)
Definition eq (a b : Value) : bool :=
  match a, b with
  | VNone, VNone => true
  | VInt x, VInt y => Z.eqb x y
  | VInt x, VFloat g =>
      match Zcompare_float x g with Some Eq => true | _ => false end
  | VFloat f, VInt y =>
      match Zcompare_float y f with Some Eq => true | _ => false end
  | VFloat f, VFloat g => SFeqb f g
  | VStr s, VStr u => String.eqb s u
  | _, _ => false
  end.

(** [a != b] *)
Definition ne (a b : Value) : bool := negb (eq a b).

(** [a < b], [a > b], [a <= b], [a >= b] *)
Definition lt (a b : Value) : Res bool :=
  res_bind (compare a b) (fun o =>
    Ok match o with Some Lt => true | _ => false end).

Definition gt (a b : Value) : Res bool :=
  res_bind (compare a b) (fun o =>
    Ok match o with Some Gt => true | _ => false end).

Definition le (a b : Value) : Res bool :=
  res_bind (compare a b) (fun o =>
    Ok match o with Some (Lt | Eq) => true | _ => false end).

Definition ge (a b : Value) : Res bool :=
  res_bind (compare a b) (fun o =>
    Ok match o with Some (Gt | Eq) => true | _ => false end).

(** [bool(v)] *)
Definition truth (v : Value) : bool :=
  match v with
  | VNone => false
  | VInt i => negb (Z.eqb i 0)
  | VFloat f => negb (SFeqb f (S754_zero false))
  | VStr s => negb (String.eqb s "")
  end.

(** *** Arithmetic *)

Definition float_op (op : spec_float -> spec_float -> spec_float)
  (a b : Value) : Res Value :=
  match a, b with
  | VInt x, VFloat g =>
      res_bind (float_of_int x) (fun f => Ok (VFloat (op f g)))
  | VFloat f, VInt y =>
      res_bind (float_of_int y) (fun g => Ok (VFloat (op f g)))
  | VFloat f, VFloat g => Ok (VFloat (op f g))
  | _, _ => Raise TypeError
  end.

(** [a + b] *)
Definition add (a b : Value) : Res Value :=
  match a, b with
  | VInt x, VInt y => Ok (VInt (x + y))
  | VStr s, VStr u => Ok (VStr (s ++ u))
  | _, _ => float_op (SFadd prec emax) a b
  end.

(** [a - b] *)
Definition sub (a b : Value) : Res Value :=
  match a, b with
  | VInt x, VInt y => Ok (VInt (x - y))
  | _, _ => float_op (SFsub prec emax) a b
  end.

(** [a * b] *)
Definition mul (a b : Value) : Res Value :=
  match a, b with
  | VInt x, VInt y => Ok (VInt (x * y))
  | VStr s, VInt n => Ok (VStr (Str.repeat s (Z.to_nat n)))
  | VInt n, VStr s => Ok (VStr (Str.repeat s (Z.to_nat n)))
  | _, _ => float_op (SFmul prec emax) a b
  end.

(** [x / y] on two [int]s, [y] not zero: the quotient correctly rounded. *)
Definition int_truediv (x y : Z) : Res Value :=
  let negative := xorb (x <? 0) (y <? 0) in
  match Z.abs x, Z.abs y with
  | Zpos n, Zpos d =>
      match float_of_quotient negative n d with
      | S754_infinity _ => Raise OverflowError
      | f => Ok (VFloat f)
      end
  | _, _ => Ok (VFloat (S754_zero negative))
  end.

Definition float_truediv (f g : spec_float) : Res spec_float :=
  if SFeqb g (S754_zero false) then Raise ZeroDivisionError
  else Ok (SFdiv prec emax f g).

(** [a / b] *)
Definition truediv (a b : Value) : Res Value :=
  match a, b with
  | VInt x, VInt y =>
      if Z.eqb y 0 then Raise ZeroDivisionError else int_truediv x y
  | VInt x, VFloat g =>
      res_bind (float_of_int x) (fun f =>
      res_bind (float_truediv f g) (fun q => Ok (VFloat q)))
  | VFloat f, VInt y =>
      res_bind (float_of_int y) (fun g =>
      res_bind (float_truediv f g) (fun q => Ok (VFloat q)))
  | VFloat f, VFloat g =>
      res_bind (float_truediv f g) (fun q => Ok (VFloat q))
  | _, _ => Raise TypeError
  end.

(** *** Lists *)

(** The position an index designates in a list of [n] items: a negative
    index counts from the end. *)
Definition index (n : nat) (i : Z) : Res nat :=
  if (0 <=? i) && (i <? Z.of_nat n) then Ok (Z.to_nat i)
  else if (- Z.of_nat n <=? i) && (i <? 0) then Ok (Z.to_nat (Z.of_nat n + i))
  else Raise IndexError.

(** [l[i]] *)
Definition getitem {A : Type} (l : list A) (i : Z) : Res A :=
  res_bind (index (length l) i) (fun k =>
    match l !! k with
    | Some x => Ok x
    | None => Raise IndexError
    end).

(** [l[i] = x] *)
Definition setitem {A : Type} (l : list A) (i : Z) (x : A) : Res (list A) :=
  res_bind (index (length l) i) (fun k => Ok (<[k := x]> l)).

End Py.

(** ** Syntax trees

    An [ASTNode] of the source is a node kind and a dictionary; the
    constructors below are the kinds with the keys the parser gives each.
    Reading a key that a kind does not have is a [KeyError]. *)

Module NodeType.

Inductive t : Type :=
| SELECT_STMT | INSERT_STMT | UPDATE_STMT | DELETE_STMT | CREATE_STMT
| DROP_STMT | COLUMN_LIST | TABLE_REF | JOIN | WHERE_CLAUSE | CONDITION
| EXPRESSION | COLUMN_DEF | LITERAL | IDENTIFIER.

End NodeType.

#[warnings="-register-all"]
Inductive ASTNode : Type :=
| Identifier (name : string)
| Literal (value_type : TokenType.t) (value : Py.Value)
| Expression (left : ASTNode) (operator : TokenType.t) (right : ASTNode)
| Condition (left : ASTNode) (operator : TokenType.t) (right : ASTNode)
| TableRef (name : string)
| Join (table : ASTNode) (condition : ASTNode)
| ColumnDefinition (name : ASTNode) (data_type : TokenType.t)
| SelectStmt (columns tables joins : list ASTNode)
    (where_clause : option ASTNode)
| InsertStmt (table : ASTNode) (columns values : list ASTNode)
| UpdateStmt (table : ASTNode) (set_clauses : list ASTNode)
    (where_clause : option ASTNode)
| DeleteStmt (table : ASTNode) (where_clause : option ASTNode)
| CreateStmt (table : ASTNode) (columns : list ASTNode)
| DropStmt (table : ASTNode).

Module AST.

Definition type (node : ASTNode) : NodeType.t :=
  match node with
  | Identifier _ => NodeType.IDENTIFIER
  | Literal _ _ => NodeType.LITERAL
  | Expression _ _ _ => NodeType.EXPRESSION
  | Condition _ _ _ => NodeType.CONDITION
  | TableRef _ => NodeType.TABLE_REF
  | Join _ _ => NodeType.JOIN
  | ColumnDefinition _ _ => NodeType.COLUMN_DEF
  | SelectStmt _ _ _ _ => NodeType.SELECT_STMT
  | InsertStmt _ _ _ => NodeType.INSERT_STMT
  | UpdateStmt _ _ _ => NodeType.UPDATE_STMT
  | DeleteStmt _ _ => NodeType.DELETE_STMT
  | CreateStmt _ _ => NodeType.CREATE_STMT
  | DropStmt _ => NodeType.DROP_STMT
  end.

(** What a ['name'] key holds: text in an identifier and a table
    reference, the identifier node in a column definition. *)
Inductive Name : Type :=
| Text (s : string)
| Node (n : ASTNode).

(** [node.data['name']] *)
Definition name (node : ASTNode) : Res Name :=
  match node with
  | Identifier s | TableRef s => Ok (Text s)
  | ColumnDefinition n _ => Ok (Node n)
  | _ => Raise (KeyError "name")
  end.

(** [node.data['data_type']] *)
Definition data_type (node : ASTNode) : Res TokenType.t :=
  match node with
  | ColumnDefinition _ k => Ok k
  | _ => Raise (KeyError "data_type")
  end.

(** [node.data['left']] and [node.data['right']] *)
Definition left (node : ASTNode) : Res ASTNode :=
  match node with
  | Expression l _ _ | Condition l _ _ => Ok l
  | _ => Raise (KeyError "left")
  end.

Definition right (node : ASTNode) : Res ASTNode :=
  match node with
  | Expression _ _ r | Condition _ _ r => Ok r
  | _ => Raise (KeyError "right")
  end.

(** The other keys, each a [KeyError] on a kind that does not have it. *)
Definition operator (node : ASTNode) : Res TokenType.t :=
  match node with
  | Expression _ op _ | Condition _ op _ => Ok op
  | _ => Raise (KeyError "operator")
  end.

Definition value_type (node : ASTNode) : Res TokenType.t :=
  match node with
  | Literal k _ => Ok k
  | _ => Raise (KeyError "value_type")
  end.

Definition value (node : ASTNode) : Res Py.Value :=
  match node with
  | Literal _ v => Ok v
  | _ => Raise (KeyError "value")
  end.

Definition table (node : ASTNode) : Res ASTNode :=
  match node with
  | Join t _ | InsertStmt t _ _ | UpdateStmt t _ _ | DeleteStmt t _
  | CreateStmt t _ | DropStmt t => Ok t
  | _ => Raise (KeyError "table")
  end.

Definition condition (node : ASTNode) : Res ASTNode :=
  match node with
  | Join _ c => Ok c
  | _ => Raise (KeyError "condition")
  end.

Definition columns (node : ASTNode) : Res (list ASTNode) :=
  match node with
  | SelectStmt cs _ _ _ | InsertStmt _ cs _ | CreateStmt _ cs => Ok cs
  | _ => Raise (KeyError "columns")
  end.

Definition tables (node : ASTNode) : Res (list ASTNode) :=
  match node with
  | SelectStmt _ ts _ _ => Ok ts
  | _ => Raise (KeyError "tables")
  end.

Definition joins (node : ASTNode) : Res (list ASTNode) :=
  match node with
  | SelectStmt _ _ js _ => Ok js
  | _ => Raise (KeyError "joins")
  end.

Definition values (node : ASTNode) : Res (list ASTNode) :=
  match node with
  | InsertStmt _ _ vs => Ok vs
  | _ => Raise (KeyError "values")
  end.

Definition set_clauses (node : ASTNode) : Res (list ASTNode) :=
  match node with
  | UpdateStmt _ cs _ => Ok cs
  | _ => Raise (KeyError "set_clauses")
  end.

(** [node.data['where_clause']], [None] when the statement has none. *)
Definition where_clause (node : ASTNode) : Res (option ASTNode) :=
  match node with
  | SelectStmt _ _ _ w | UpdateStmt _ _ w | DeleteStmt _ w => Ok w
  | _ => Raise (KeyError "where_clause")
  end.

(** [node.data.get('where_clause')] *)
Definition get_where_clause (node : ASTNode) : option ASTNode :=
  match node with
  | SelectStmt _ _ _ w | UpdateStmt _ _ w | DeleteStmt _ w => w
  | _ => None
  end.

(** [node.data.get('tables', [])] *)
Definition get_tables (node : ASTNode) : list ASTNode :=
  match node with
  | SelectStmt _ ts _ _ => ts
  | _ => []
  end.

(** A name where the code needs text: joining or appending anything else
    to a [str] is a [TypeError]. *)
Definition text (n : Name) : Res string :=
  match n with
  | Text s => Ok s
  | Node _ => Raise TypeError
  end.

(** [name.lower()], an [AttributeError] on a node. *)
Definition lower (n : Name) : Res string :=
  match n with
  | Text s => Ok (Str.lower s)
  | Node _ => Raise AttributeError
  end.

End AST.

(** ** The parser

    A parser is its lexer and its look-ahead token. A parsing method is a
    function from the parser before to the result and the parser after;
    an exception ends the parse. [fuel] bounds the nesting of recursive
    calls and the rounds of each loop; what needs no recursion and no loop
    round needs no fuel. *)

Module Parser.

Import TokenType.

Record t : Type := mk {
  lexer : Lexer.t;
  current_token : Token
}.

Definition new (lexer : Lexer.t) : t :=
  let (token, lexer') := Lexer.get_next_token lexer in
  mk lexer' token.

Definition M (A : Type) : Type := t -> Res (A * t).

Definition ret {A : Type} (a : A) : M A := fun p => Ok (a, p).

Definition raise {A : Type} (e : Exn) : M A := fun _ => Raise e.

Definition bind {A B : Type} (m : M A) (k : A -> M B) : M B :=
  fun p =>
    match m p with
    | Ok (a, p') => k a p'
    | Raise e => Raise e
    end.

Definition lift {A : Type} (r : Res A) : M A :=
  fun p =>
    match r with
    | Ok a => Ok (a, p)
    | Raise e => Raise e
    end.

Declare Scope parser_scope.
Notation "'let*' x ':=' m 'in' k" := (bind m (fun x => k))
  (at level 10, x name, m at level 100, k at level 200,
   format "'[v' 'let*'  x  ':='  m  'in' '/' k ']'") : parser_scope.
Local Open Scope parser_scope.

(** [self.current_token] *)
Definition current : M Token := fun p => Ok (current_token p, p).

Definition consume (expected_type : TokenType.t) : M Token :=
  fun p =>
    let token := current_token p in
    if TokenType.eqb (type token) expected_type then
      let (next, lexer') := Lexer.get_next_token (lexer p) in
      Ok (token, mk lexer' next)
    else
      Raise (SyntaxError
               (Expected expected_type (type token) (line token)
                  (column token))).

Definition literal : M ASTNode :=
  let* token := current in
  if TokenType.eqb (type token) INTEGER then
    let* i := lift (Py.int_of_lexeme (lexeme token)) in
    let* _ := consume INTEGER in
    ret (Literal INTEGER (Py.VInt i))
  else if TokenType.eqb (type token) FLOAT_LITERAL then
    let* f := lift (Py.float_of_lexeme (lexeme token)) in
    let* _ := consume FLOAT_LITERAL in
    ret (Literal FLOAT_LITERAL (Py.VFloat f))
  else if TokenType.eqb (type token) STRING then
    let* _ := consume STRING in
    ret (Literal STRING (Py.VStr (lexeme token)))
  else if TokenType.eqb (type token) NULL then
    let* _ := consume NULL in
    ret (Literal NULL Py.VNone)
  else raise (SyntaxError (ExpectedLiteral (type token))).

Fixpoint expression (fuel : nat) : M ASTNode :=
  let* token := current in
  if TokenType.eqb (type token) IDENTIFIER then
    let node := Identifier (lexeme token) in
    let* _ := consume IDENTIFIER in
    let* token := current in
    if TokenType.eqb (type token) DOT then
      let* _ := consume DOT in
      let* token := current in
      if TokenType.eqb (type token) IDENTIFIER then
        let column_node := Identifier (lexeme token) in
        let* _ := consume IDENTIFIER in
        ret (Expression node DOT column_node)
      else raise (SyntaxError (ExpectedColumnAfterDot (type token)))
    else ret node
  else if TokenType.mem (type token) [INTEGER; FLOAT_LITERAL; STRING; NULL]
  then literal
  else if TokenType.eqb (type token) LEFT_PAREN then
    let* _ := consume LEFT_PAREN in
    let* node := match fuel with
                 | O => raise OutOfFuel
                 | S fuel' => expression fuel'
                 end in
    let* _ := consume RIGHT_PAREN in
    ret node
  else raise (SyntaxError (UnexpectedInExpression (type token))).

(** [while self.current_token.type == TokenType.COMMA:] consume the comma
    and append one more item. *)
Fixpoint comma_loop {A : Type} (fuel : nat) (item : M A) (items : list A)
  : M (list A) :=
  let* token := current in
  if TokenType.eqb (type token) COMMA then
    match fuel with
    | O => raise OutOfFuel
    | S fuel' =>
        let* _ := consume COMMA in
        let* x := item in
        comma_loop fuel' item (items ++ [x])
    end
  else ret items.

Definition column_list (fuel : nat) : M (list ASTNode) :=
  let* token := current in
  if TokenType.eqb (type token) ASTERISK then
    let asterisk_node := Identifier "*" in
    let* _ := consume ASTERISK in
    ret [asterisk_node]
  else
    let* first := expression fuel in
    comma_loop fuel (expression fuel) [first].

Definition table_reference : M ASTNode :=
  let* token := current in
  if TokenType.eqb (type token) IDENTIFIER then
    let* _ := consume IDENTIFIER in
    ret (TableRef (lexeme token))
  else
    raise (SyntaxError
             (ExpectedTableNameAt (type token) (line token) (column token))).

Definition table_list (fuel : nat) : M (list ASTNode) :=
  let* first := table_reference in
  comma_loop fuel table_reference [first].

(** The [while] loop of [condition]: while the look-ahead is [AND] or [OR],
    consume it, parse a whole condition, and make the node built so far the
    left operand of the new one. *)
Fixpoint connective_loop (fuel : nat) (condition : M ASTNode)
  (node : ASTNode) : M ASTNode :=
  let* token := current in
  if TokenType.mem (type token) [AND; OR] then
    match fuel with
    | O => raise OutOfFuel
    | S fuel' =>
        let operator_type := type token in
        let* _ := consume operator_type in
        let* right := condition in
        connective_loop fuel' condition (Condition node operator_type right)
    end
  else ret node.

Definition comparison_operators : list TokenType.t :=
  [EQUALS; NOT_EQUALS; GREATER; LESS; GREATER_EQUALS; LESS_EQUALS].

Fixpoint condition (fuel : nat) : M ASTNode :=
  let* node := expression fuel in
  let* token := current in
  let* node := (if TokenType.mem (type token) comparison_operators then
                  let operator_type := type token in
                  let* _ := consume operator_type in
                  let* right := expression fuel in
                  ret (Condition node operator_type right)
                else ret node) in
  connective_loop fuel
    match fuel with
    | O => raise OutOfFuel
    | S fuel' => condition fuel'
    end
    node.

Definition join_clause (fuel : nat) : M ASTNode :=
  let* _ := consume JOIN in
  let* table := table_reference in
  let* _ := consume ON in
  let* cond := condition fuel in
  ret (Join table cond).

(** [while self.current_token.type == TokenType.JOIN:] *)
Fixpoint join_loop (fuel fuel_loop : nat) (joins : list ASTNode)
  : M (list ASTNode) :=
  let* token := current in
  if TokenType.eqb (type token) JOIN then
    match fuel_loop with
    | O => raise OutOfFuel
    | S fuel_loop' =>
        let* join := join_clause fuel in
        join_loop fuel fuel_loop' (joins ++ [join])
    end
  else ret joins.

(** The optional [WHERE] clause that ends three of the statements. *)
Definition where_clause (fuel : nat) : M (option ASTNode) :=
  let* token := current in
  if TokenType.eqb (type token) WHERE then
    let* _ := consume WHERE in
    let* cond := condition fuel in
    ret (Some cond)
  else ret None.

Definition select_statement (fuel : nat) : M ASTNode :=
  let* _ := consume SELECT in
  let* columns := column_list fuel in
  let* _ := consume FROM in
  let* tables := table_list fuel in
  let* joins := join_loop fuel fuel [] in
  let* where_ := where_clause fuel in
  ret (SelectStmt columns tables joins where_).

(** The table name of [INSERT], [UPDATE], [DELETE], [CREATE] and [DROP]:
    an identifier node. *)
Definition table_name : M ASTNode :=
  let* token := current in
  if TokenType.eqb (type token) IDENTIFIER then
    let* _ := consume IDENTIFIER in
    ret (Identifier (lexeme token))
  else raise (SyntaxError (ExpectedTableName (type token))).

Definition insert_statement (fuel : nat) : M ASTNode :=
  let* _ := consume INSERT in
  let* _ := consume INTO in
  let* table := table_name in
  let* token := current in
  let* columns := (if TokenType.eqb (type token) LEFT_PAREN then
                     let* _ := consume LEFT_PAREN in
                     let* columns := column_list fuel in
                     let* _ := consume RIGHT_PAREN in
                     ret columns
                   else ret []) in
  let* _ := consume VALUES in
  let* _ := consume LEFT_PAREN in
  let* first := expression fuel in
  let* values := comma_loop fuel (expression fuel) [first] in
  let* _ := consume RIGHT_PAREN in
  ret (InsertStmt table columns values).

(** One [column = expression] of [UPDATE ... SET]. *)
Definition set_clause (fuel : nat) : M ASTNode :=
  let* token := current in
  if TokenType.eqb (type token) IDENTIFIER then
    let column_node := Identifier (lexeme token) in
    let* _ := consume IDENTIFIER in
    let* _ := consume EQUALS in
    let* right := expression fuel in
    ret (Expression column_node EQUALS right)
  else raise (SyntaxError (ExpectedColumnName (type token))).

Definition update_statement (fuel : nat) : M ASTNode :=
  let* _ := consume UPDATE in
  let* table := table_name in
  let* _ := consume SET in
  let* first := set_clause fuel in
  let* set_clauses := comma_loop fuel (set_clause fuel) [first] in
  let* where_ := where_clause fuel in
  ret (UpdateStmt table set_clauses where_).

Definition delete_statement (fuel : nat) : M ASTNode :=
  let* _ := consume DELETE in
  let* _ := consume FROM in
  let* table := table_name in
  let* where_ := where_clause fuel in
  ret (DeleteStmt table where_).

Definition column_definition : M ASTNode :=
  let* token := current in
  if TokenType.eqb (type token) IDENTIFIER then
    let name_node := Identifier (lexeme token) in
    let* _ := consume IDENTIFIER in
    let* token := current in
    if TokenType.mem (type token) [INT; TEXT; FLOAT; DATE] then
      let* _ := consume (type token) in
      ret (ColumnDefinition name_node (type token))
    else raise (SyntaxError (ExpectedDataType (type token)))
  else raise (SyntaxError (ExpectedColumnName (type token))).

Definition create_statement (fuel : nat) : M ASTNode :=
  let* _ := consume CREATE in
  let* _ := consume TABLE in
  let* table := table_name in
  let* _ := consume LEFT_PAREN in
  let* first := column_definition in
  let* columns := comma_loop fuel column_definition [first] in
  let* _ := consume RIGHT_PAREN in
  ret (CreateStmt table columns).

Definition drop_statement : M ASTNode :=
  let* _ := consume DROP in
  let* _ := consume TABLE in
  let* table := table_name in
  ret (DropStmt table).

Definition sql_statement (fuel : nat) : M ASTNode :=
  let* token := current in
  if TokenType.eqb (type token) SELECT then select_statement fuel
  else if TokenType.eqb (type token) INSERT then insert_statement fuel
  else if TokenType.eqb (type token) UPDATE then update_statement fuel
  else if TokenType.eqb (type token) DELETE then delete_statement fuel
  else if TokenType.eqb (type token) CREATE then create_statement fuel
  else if TokenType.eqb (type token) DROP then drop_statement
  else
    raise (SyntaxError
             (UnexpectedToken (type token) (line token) (column token))).

Definition parse (fuel : nat) : M ASTNode := sql_statement fuel.

End Parser.

(** [Parser(Lexer(query)).parse()]: the tree of the first statement of a
    text. A round of a loop or a level of recursion takes at least one
    token, so the length of the text is fuel enough: the result is never
    [OutOfFuel] (lemma [parse_query_fuel]). *)
Definition parse_query (query : string) : Res ASTNode :=
  match Parser.parse (String.length query) (Parser.new (Lexer.new query)) with
  | Ok (ast, _) => Ok ast
  | Raise e => Raise e
  end.

(** ** The regenerator *)

Module SQLGenerator.

Import TokenType.

Definition token_type_to_string (token_type : TokenType.t) : string :=
  match token_type with
  | SELECT => "SELECT" | FROM => "FROM" | WHERE => "WHERE"
  | INSERT => "INSERT" | INTO => "INTO" | VALUES => "VALUES"
  | UPDATE => "UPDATE" | SET => "SET" | DELETE => "DELETE"
  | CREATE => "CREATE" | TABLE => "TABLE" | DROP => "DROP"
  | JOIN => "JOIN" | ON => "ON" | AND => "AND" | OR => "OR" | NOT => "NOT"
  | NULL => "NULL" | INT => "INT" | TEXT => "TEXT" | FLOAT => "FLOAT"
  | DATE => "DATE" | EQUALS => "=" | GREATER => ">" | LESS => "<"
  | GREATER_EQUALS => ">=" | LESS_EQUALS => "<=" | NOT_EQUALS => "!="
  | PLUS => "+" | MINUS => "-" | ASTERISK => "*" | DIVIDE => "/"
  | COMMA => "," | SEMICOLON => ";" | LEFT_PAREN => "("
  | RIGHT_PAREN => ")" | DOT => "."
  | IDENTIFIER => "TokenType.IDENTIFIER" | INTEGER => "TokenType.INTEGER"
  | FLOAT_LITERAL => "TokenType.FLOAT_LITERAL" | STRING => "TokenType.STRING"
  | EOF => "TokenType.EOF" | ERROR => "TokenType.ERROR"
  end.

Definition generate_literal (literal : ASTNode) : Res string :=
  let* value_type := AST.value_type literal in
  if TokenType.eqb value_type INTEGER then
    let* v := AST.value literal in Ok (Py.to_str v)
  else if TokenType.eqb value_type FLOAT_LITERAL then
    let* v := AST.value literal in Ok (Py.to_str v)
  else if TokenType.eqb value_type STRING then
    let* v := AST.value literal in Ok ("'" ++ Py.to_str v ++ "'")
  else if TokenType.eqb value_type NULL then Ok "NULL"
  else Raise ValueError.

Fixpoint generate_expression (expr : ASTNode) : Res string :=
  match expr with
  | Identifier name => Ok name
  | Literal _ _ => generate_literal expr
  | Expression l op r =>
      let* left := generate_expression l in
      let operator := token_type_to_string op in
      let* right := generate_expression r in
      Ok (left ++ " " ++ operator ++ " " ++ right)
  | _ => Raise ValueError
  end.

Definition generate_condition (condition : ASTNode) : Res string :=
  match condition with
  | Condition l op r =>
      let* left := generate_expression l in
      let operator := token_type_to_string op in
      let* right := generate_expression r in
      Ok (left ++ " " ++ operator ++ " " ++ right)
  | _ => generate_expression condition
  end.

Definition generate_column_list (columns : list ASTNode) : Res string :=
  match columns with
  | [] => Ok "*"
  | _ =>
      let* column_strs := res_map generate_expression columns in
      Ok (Str.join ", " column_strs)
  end.

Definition generate_table_reference (table : ASTNode) : Res AST.Name :=
  AST.name table.

Definition generate_table_list (tables : list ASTNode) : Res string :=
  let* table_strs := res_map generate_table_reference tables in
  let* table_strs := res_map AST.text table_strs in
  Ok (Str.join ", " table_strs).

Definition generate_join (join : ASTNode) : Res string :=
  let* table := AST.table join in
  let* table := generate_table_reference table in
  let* table := AST.text table in
  let* condition := AST.condition join in
  let* condition := generate_condition condition in
  Ok ("JOIN " ++ table ++ " ON " ++ condition).

(** [for join in joins: sql += " " + self.generate_join(join)] *)
Fixpoint generate_joins (sql : string) (joins : list ASTNode) : Res string :=
  match joins with
  | [] => Ok sql
  | join :: joins' =>
      let* j := generate_join join in
      generate_joins (sql ++ " " ++ j) joins'
  end.

(** The ending shared by three statements:
    [if ast.data['where_clause']: sql += " WHERE " + ...] *)
Definition generate_where (sql : string) (ast : ASTNode) : Res string :=
  let* where_clause := AST.where_clause ast in
  match where_clause with
  | Some condition =>
      let* c := generate_condition condition in
      Ok (sql ++ " WHERE " ++ c)
  | None => Ok sql
  end.

Definition generate_select (ast : ASTNode) : Res string :=
  let* columns := AST.columns ast in
  let* columns := generate_column_list columns in
  let* tables := AST.tables ast in
  let* tables := generate_table_list tables in
  let* joins := AST.joins ast in
  let* sql := generate_joins ("SELECT " ++ columns ++ " FROM " ++ tables)
                joins in
  generate_where sql ast.

Definition generate_insert (ast : ASTNode) : Res string :=
  let* table := AST.table ast in
  let* table := generate_table_reference table in
  let* table := AST.text table in
  let* columns := AST.columns ast in
  let* sql :=
    match columns with
    | [] => Ok ("INSERT INTO " ++ table)
    | _ =>
        let* columns := generate_column_list columns in
        Ok ("INSERT INTO " ++ table ++ " (" ++ columns ++ ")")
    end in
  let* values := AST.values ast in
  let* value_strs := res_map generate_expression values in
  Ok (sql ++ " VALUES (" ++ Str.join ", " value_strs ++ ")").

Definition generate_set_clause (set_clause : ASTNode) : Res string :=
  let* left := AST.left set_clause in
  let* left := generate_expression left in
  let* right := AST.right set_clause in
  let* right := generate_expression right in
  Ok (left ++ " = " ++ right).

Definition generate_update (ast : ASTNode) : Res string :=
  let* table := AST.table ast in
  let* table := generate_table_reference table in
  let* table := AST.text table in
  let* set_clauses := AST.set_clauses ast in
  let* set_strs := res_map generate_set_clause set_clauses in
  generate_where ("UPDATE " ++ table ++ " SET " ++ Str.join ", " set_strs)
    ast.

Definition generate_delete (ast : ASTNode) : Res string :=
  let* table := AST.table ast in
  let* table := generate_table_reference table in
  let* table := AST.text table in
  generate_where ("DELETE FROM " ++ table) ast.

Definition generate_column_definition (column : ASTNode) : Res string :=
  let* name := AST.name column in
  let* sql := match name with
              | AST.Node n => generate_expression n
              | AST.Text _ => Raise AttributeError
              end in
  let* data_type := AST.data_type column in
  Ok (sql ++ " " ++ token_type_to_string data_type).

Definition generate_create (ast : ASTNode) : Res string :=
  let* table := AST.table ast in
  let* table := generate_table_reference table in
  let* table := AST.text table in
  let* columns := AST.columns ast in
  let* column_strs := res_map generate_column_definition columns in
  Ok ("CREATE TABLE " ++ table ++ " (" ++ Str.join ", " column_strs ++ ")").

Definition generate_drop (ast : ASTNode) : Res string :=
  let* table := AST.table ast in
  let* table := generate_table_reference table in
  let* table := AST.text table in
  Ok ("DROP TABLE " ++ table).

Definition generate_sql (ast : ASTNode) : Res string :=
  match AST.type ast with
  | NodeType.SELECT_STMT => generate_select ast
  | NodeType.INSERT_STMT => generate_insert ast
  | NodeType.UPDATE_STMT => generate_update ast
  | NodeType.DELETE_STMT => generate_delete ast
  | NodeType.CREATE_STMT => generate_create ast
  | NodeType.DROP_STMT => generate_drop ast
  | _ => Raise ValueError
  end.

End SQLGenerator.

(** ** The database *)

(** What the code prints, one constructor for each [print] of
    [database.py], with the values it interpolates. *)
Inductive Message : Type :=
| ColumnCountMismatch (expected got : nat)
| TypeMismatch (column : AST.Name) (expected : TokenType.t)
    (got : Py.PyType)
| TableAlreadyExists (name : string)
| TableDoesNotExist (name : string)
| UnsupportedQueryType (kind : NodeType.t)
| NoTableSpecified
| TableNotFound (name : AST.Name)
| ColumnNotFound (column table : AST.Name)
| TableTitle (title : string)
| TableHeader (names : list string)
| TableRule (dashes : Z)
| TableRow (cells : list string)
| RowsSelected (count : nat)
| RowInserted
| RowsUpdated (count : nat)
| RowsDeleted (count : nat)
| TableCreated (name : AST.Name)
| TableDropped (name : AST.Name)
| UnsupportedOperator (op : TokenType.t)
| UnsupportedExpressionType (kind : NodeType.t).

(** A computation that prints and may raise: its outcome and what it
    printed before. *)
Definition IO (A : Type) : Type := (Res A * list Message)%type.

Module IO.

Definition ret {A : Type} (a : A) : IO A := (Ok a, []).

Definition raise {A : Type} (e : Exn) : IO A := (Raise e, []).

Definition print (m : Message) : IO unit := (Ok tt, [m]).

Definition lift {A : Type} (r : Res A) : IO A := (r, []).

Definition bind {A B : Type} (m : IO A) (k : A -> IO B) : IO B :=
  match m with
  | (Ok a, out) => let (r, out') := k a in (r, (out ++ out')%list)
  | (Raise e, out) => (Raise e, out)
  end.

End IO.

Declare Scope io_scope.
Notation "'let*' x ':=' m 'in' k" := (IO.bind m (fun x => k))
  (at level 10, x name, m at level 100, k at level 200,
   format "'[v' 'let*'  x  ':='  m  'in' '/' k ']'") : io_scope.

Module ColumnDef.

Record t : Type := mk {
  name : AST.Name;
  type : TokenType.t
}.

End ColumnDef.

Module Table.

Import TokenType.
Local Open Scope io_scope.

Record t : Type := mk {
  name : string;
  title : string;
  columns : list ColumnDef.t;
  rows : list (list Py.Value)
}.

(** [Table(name, columns, title)] *)
Definition new (name : string) (columns : list ColumnDef.t)
  (title : option string) : t :=
  mk name
     match title with
     | Some s => if String.eqb s "" then name else s
     | None => name
     end
     columns [].

Definition _validate_type (value : Py.Value) (expected_type : TokenType.t)
  : bool :=
  match value with
  | Py.VNone => true
  | _ =>
      if TokenType.eqb expected_type INT then
        match value with Py.VInt _ => true | _ => false end
      else if TokenType.eqb expected_type FLOAT then
        match value with Py.VInt _ | Py.VFloat _ => true | _ => false end
      else if TokenType.eqb expected_type TEXT then
        match value with Py.VStr _ => true | _ => false end
      else if TokenType.eqb expected_type DATE then
        match value with Py.VStr _ => true | _ => false end
      else false
  end.

(** The loop of [add_row] over the values and their columns: the message of
    the first value of the wrong type. The two lists have the same length
    when [add_row] runs it. *)
Fixpoint first_mismatch (values : list Py.Value) (columns : list ColumnDef.t)
  : option Message :=
  match values, columns with
  | value :: values', column :: columns' =>
      if _validate_type value (ColumnDef.type column)
      then first_mismatch values' columns'
      else Some (TypeMismatch (ColumnDef.name column)
                   (ColumnDef.type column) (Py.type_of value))
  | _, _ => None
  end.

(** The outcome, the table after, and what was printed. *)
Definition add_row (self : t) (values : list Py.Value)
  : bool * t * list Message :=
  if negb (length values =? length (columns self))%nat then
    (false, self,
     [ColumnCountMismatch (length (columns self)) (length values)])
  else
    match first_mismatch values (columns self) with
    | Some message => (false, self, [message])
    | None =>
        (true,
         mk (name self) (title self) (columns self) (rows self ++ [values]),
         [])
    end.

Fixpoint get_column_index_from (i : Z) (columns : list ColumnDef.t)
  (column_name : AST.Name) : Res Z :=
  match columns with
  | [] => Ok (-1)
  | col :: columns' =>
      let* a := AST.lower (ColumnDef.name col) in
      let* b := AST.lower column_name in
      if String.eqb a b then Ok i
      else get_column_index_from (i + 1) columns' column_name
  end%res.

Definition get_column_index (self : t) (column_name : AST.Name) : Res Z :=
  get_column_index_from 0 (columns self) column_name.

(** [list(range(n))] *)
Definition range (n : nat) : list Z := map Z.of_nat (seq 0 n).

(** ["NULL" if row[i] is None else str(row[i])] *)
Definition cell (row : list Py.Value) (i : Z) : Res string :=
  (let* v := Py.getitem row i in
   Ok match v with
      | Py.VNone => "NULL"
      | _ => Py.to_str v
      end)%res.

Fixpoint print_rows (rows : list (list Py.Value)) (columns : list Z)
  : IO unit :=
  match rows with
  | [] => IO.ret tt
  | row :: rows' =>
      let* row_data := IO.lift (res_map (cell row) columns) in
      let* _ := IO.print (TableRow row_data) in
      print_rows rows' columns
  end.

Definition sum_len (header : list string) : Z :=
  fold_right (fun h n => Z.of_nat (String.length h) + n) 0 header.

Definition print_table (self : t) (columns : list Z) : IO unit :=
  let* _ := IO.print (TableTitle (title self)) in
  let columns :=
    match columns with
    | [] => range (length (Table.columns self))
    | _ => columns
    end in
  let* header :=
    IO.lift (res_map (fun i => res_bind (Py.getitem (Table.columns self) i)
                                 (fun c => Ok (ColumnDef.name c)))
               columns) in
  let* header := IO.lift (res_map AST.text header) in
  let* _ := IO.print (TableHeader header) in
  let* _ := IO.print (TableRule (sum_len header
                                 + 3 * (Z.of_nat (length header) - 1))) in
  print_rows (rows self) columns.

End Table.

Module Database.

Import TokenType.

(** The object is its dictionary, from lower-case names to tables. A
    table is reached through its key only: the code that changes a table
    object it has looked up is modelled by storing the changed table under
    the key again ([store_table]). *)
Record t : Type := mk {
  tables : gmap string Table.t
}.

Definition new : t := mk ∅.

(** *** Evaluation *)

Section Evaluation.

Local Open Scope io_scope.

Fixpoint _evaluate_expression (expr : ASTNode) (table : option Table.t)
  (row : option (list Py.Value)) : IO Py.Value :=
  match expr with
  | Identifier name =>
      match table, row with
      | Some table, Some ((_ :: _) as row) =>
          let* col_idx :=
            IO.lift (Table.get_column_index table (AST.Text name)) in
          if negb (col_idx =? -1) then IO.lift (Py.getitem row col_idx)
          else IO.ret (Py.VStr name)
      | _, _ => IO.ret (Py.VStr name)
      end
  | Literal _ value => IO.ret value
  | Expression l op r =>
      let* left_value := _evaluate_expression l table row in
      if TokenType.eqb op DOT then
        let* dotted := IO.lift (Py.add left_value (Py.VStr ".")) in
        let* right_value := _evaluate_expression r table row in
        IO.lift (Py.add dotted right_value)
      else
        let* right_value := _evaluate_expression r table row in
        if TokenType.eqb op PLUS then IO.lift (Py.add left_value right_value)
        else if TokenType.eqb op MINUS
        then IO.lift (Py.sub left_value right_value)
        else if TokenType.eqb op ASTERISK
        then IO.lift (Py.mul left_value right_value)
        else if TokenType.eqb op DIVIDE
        then IO.lift (Py.truediv left_value right_value)
        else
          let* _ := IO.print (UnsupportedOperator op) in
          IO.ret Py.VNone
  | _ =>
      let* _ := IO.print (UnsupportedExpressionType (AST.type expr)) in
      IO.ret Py.VNone
  end.

Fixpoint _evaluate_condition (condition : ASTNode) (table : Table.t)
  (row : list Py.Value) : IO bool :=
  match condition with
  | Condition l op r =>
      if TokenType.eqb op AND then
        let* a := _evaluate_condition l table row in
        if a then _evaluate_condition r table row else IO.ret false
      else if TokenType.eqb op OR then
        let* a := _evaluate_condition l table row in
        if a then IO.ret true else _evaluate_condition r table row
      else if TokenType.eqb op NOT then
        let* b := _evaluate_condition r table row in
        IO.ret (negb b)
      else
        let* left_value := _evaluate_expression l (Some table) (Some row) in
        let* right_value := _evaluate_expression r (Some table) (Some row) in
        if TokenType.eqb op EQUALS
        then IO.ret (Py.eq left_value right_value)
        else if TokenType.eqb op NOT_EQUALS
        then IO.ret (Py.ne left_value right_value)
        else if TokenType.eqb op GREATER
        then IO.lift (Py.gt left_value right_value)
        else if TokenType.eqb op LESS
        then IO.lift (Py.lt left_value right_value)
        else if TokenType.eqb op GREATER_EQUALS
        then IO.lift (Py.ge left_value right_value)
        else if TokenType.eqb op LESS_EQUALS
        then IO.lift (Py.le left_value right_value)
        else
          let* _ := IO.print (UnsupportedOperator op) in
          IO.ret false
  | _ =>
      let* value := _evaluate_expression condition (Some table) (Some row) in
      IO.ret (Py.truth value)
  end.

(** [not where_clause or self._evaluate_condition(where_clause, table, row)] *)
Definition matches (where_clause : option ASTNode) (table : Table.t)
  (row : list Py.Value) : IO bool :=
  match where_clause with
  | None => IO.ret true
  | Some condition => _evaluate_condition condition table row
  end.

(** The loop that turns column nodes into column indices, in [SELECT] and
    in [INSERT]: [None] when a column was not found, which the caller
    answers by returning [False]. *)
Fixpoint resolve_columns (table : Table.t) (table_name : AST.Name)
  (col_nodes : list ASTNode) (indices : list Z) : IO (option (list Z)) :=
  match col_nodes with
  | [] => IO.ret (Some indices)
  | col_node :: col_nodes' =>
      let* col_name := IO.lift (AST.name col_node) in
      let* col_idx := IO.lift (Table.get_column_index table col_name) in
      if col_idx =? -1 then
        let* _ := IO.print (ColumnNotFound col_name table_name) in
        IO.ret None
      else
        resolve_columns table table_name col_nodes' (indices ++ [col_idx])%list
  end.

(** The rows of [SELECT], in storage order. *)
Fixpoint filter_rows (where_clause : option ASTNode) (table : Table.t)
  (rows filtered_rows : list (list Py.Value)) : IO (list (list Py.Value)) :=
  match rows with
  | [] => IO.ret filtered_rows
  | row :: rows' =>
      let* selected := matches where_clause table row in
      filter_rows where_clause table rows'
        (if selected then filtered_rows ++ [row] else filtered_rows)%list
  end.

(** The named insert: the value at each position of the column list goes
    to the column named there, as long as there are values. *)
Fixpoint fill_values (ast : ASTNode) (i : nat) (column_indices : list Z)
  (values : list Py.Value) : IO (list Py.Value) :=
  match column_indices with
  | [] => IO.ret values
  | col_idx :: column_indices' =>
      let* exprs := IO.lift (AST.values ast) in
      if (i <? length exprs)%nat then
        let* expr := IO.lift (Py.getitem exprs (Z.of_nat i)) in
        let* value := _evaluate_expression expr None None in
        let* values := IO.lift (Py.setitem values col_idx value) in
        fill_values ast (S i) column_indices' values
      else fill_values ast (S i) column_indices' values
  end.

(** [[self._evaluate_expression(expr) for expr in exprs]] *)
Fixpoint evaluate_all (exprs : list ASTNode) : IO (list Py.Value) :=
  match exprs with
  | [] => IO.ret []
  | expr :: exprs' =>
      let* value := _evaluate_expression expr None None in
      let* values := evaluate_all exprs' in
      IO.ret (value :: values)
  end.

(** The first loop of [UPDATE]: the index of each assigned column and the
    value of each right-hand side, evaluated once; [None] when a column
    was not found. *)
Fixpoint resolve_set_clauses (table : Table.t) (table_name : AST.Name)
  (set_nodes : list ASTNode) (set_clauses : list (Z * Py.Value))
  : IO (option (list (Z * Py.Value))) :=
  match set_nodes with
  | [] => IO.ret (Some set_clauses)
  | set_node :: set_nodes' =>
      let* lhs := IO.lift (AST.left set_node) in
      let* col_name := IO.lift (AST.name lhs) in
      let* col_idx := IO.lift (Table.get_column_index table col_name) in
      if col_idx =? -1 then
        let* _ := IO.print (ColumnNotFound col_name table_name) in
        IO.ret None
      else
        let* rhs := IO.lift (AST.right set_node) in
        let* value := _evaluate_expression rhs None None in
        resolve_set_clauses table table_name set_nodes'
          (set_clauses ++ [(col_idx, value)])%list
  end.

(** [for col_idx, value in set_clauses: row[col_idx] = value], with the
    row as the assignments made so far leave it. *)
Fixpoint assign (set_clauses : list (Z * Py.Value)) (row : list Py.Value)
  : Res unit * list Py.Value :=
  match set_clauses with
  | [] => (Ok tt, row)
  | (col_idx, value) :: set_clauses' =>
      match Py.setitem row col_idx value with
      | Ok row' => assign set_clauses' row'
      | Raise e => (Raise e, row)
      end
  end.

(** The second loop of [UPDATE]. The rows are changed in place as the loop
    reaches them: the result carries the rows as the loop leaves them,
    also when it ends by an exception. *)
Fixpoint update_rows (where_clause : option ASTNode) (table : Table.t)
  (set_clauses : list (Z * Py.Value)) (rows : list (list Py.Value))
  (rows_updated : nat) : Res nat * list (list Py.Value) * list Message :=
  match rows with
  | [] => (Ok rows_updated, [], [])
  | row :: rows' =>
      match matches where_clause table row with
      | (Raise e, out) => (Raise e, row :: rows', out)
      | (Ok false, out) =>
          let '(r, rows'', out') :=
            update_rows where_clause table set_clauses rows' rows_updated in
          (r, row :: rows'', (out ++ out')%list)
      | (Ok true, out) =>
          match assign set_clauses row with
          | (Raise e, row') => (Raise e, row' :: rows', out)
          | (Ok _, row') =>
              let '(r, rows'', out') :=
                update_rows where_clause table set_clauses rows'
                  (S rows_updated) in
              (r, row' :: rows'', (out ++ out')%list)
          end
      end
  end.

(** The loop of [DELETE]:
    [if where_clause and not self._evaluate_condition(...)] the row is
    kept, else it is counted as deleted. *)
Fixpoint partition_rows (where_clause : option ASTNode) (table : Table.t)
  (rows rows_to_keep : list (list Py.Value)) (rows_deleted : nat)
  : IO (list (list Py.Value) * nat) :=
  match rows with
  | [] => IO.ret (rows_to_keep, rows_deleted)
  | row :: rows' =>
      let* keep :=
        match where_clause with
        | None => IO.ret false
        | Some condition =>
            let* b := _evaluate_condition condition table row in
            IO.ret (negb b)
        end in
      if keep
      then partition_rows where_clause table rows'
             (rows_to_keep ++ [row])%list rows_deleted
      else partition_rows where_clause table rows' rows_to_keep
             (S rows_deleted)
  end.

End Evaluation.

(** *** Statements

    A method of the database is a function from the database before to
    its outcome, the database after, and what it printed. *)

Definition Exec (A : Type) : Type := t -> Res A * t * list Message.

Definition ret {A : Type} (a : A) : Exec A := fun db => (Ok a, db, []).

Definition lift {A : Type} (r : Res A) : Exec A := fun db => (r, db, []).

Definition io {A : Type} (m : IO A) : Exec A :=
  fun db => (fst m, db, snd m).

Definition print (m : Message) : Exec unit := io (IO.print m).

Definition bind {A B : Type} (m : Exec A) (k : A -> Exec B) : Exec B :=
  fun db =>
    match m db with
    | (Ok a, db', out) =>
        let '(r, db'', out') := k a db' in (r, db'', (out ++ out')%list)
    | (Raise e, db', out) => (Raise e, db', out)
    end.

Declare Scope exec_scope.
Notation "'let*' x ':=' m 'in' k" := (bind m (fun x => k))
  (at level 10, x name, m at level 100, k at level 200,
   format "'[v' 'let*'  x  ':='  m  'in' '/' k ']'") : exec_scope.
Local Open Scope exec_scope.

Definition create_table (name : AST.Name) (columns : list ColumnDef.t)
  (title : option string) : Exec bool :=
  match name with
  | AST.Node _ => lift (Raise AttributeError)
  | AST.Text name =>
      fun db =>
        match tables db !! Str.lower name with
        | Some _ => (Ok false, db, [TableAlreadyExists name])
        | None =>
            (Ok true,
             mk (<[Str.lower name := Table.new name columns title]>
                   (tables db)),
             [])
        end
  end.

Definition drop_table (name : AST.Name) : Exec bool :=
  match name with
  | AST.Node _ => lift (Raise AttributeError)
  | AST.Text name =>
      fun db =>
        match tables db !! Str.lower name with
        | None => (Ok false, db, [TableDoesNotExist name])
        | Some _ => (Ok true, mk (delete (Str.lower name) (tables db)), [])
        end
  end.

Definition get_table (name : AST.Name) : Exec (option Table.t) :=
  let* key := lift (AST.lower name) in
  fun db => (Ok (tables db !! key), db, []).

(** The table object looked up under [name] is now [table]. *)
Definition store_table (name : AST.Name) (table : Table.t) : Exec unit :=
  let* key := lift (AST.lower name) in
  fun db => (Ok tt, mk (<[key := table]> (tables db)), []).

(** [table.rows = rows] *)
Definition with_rows (table : Table.t) (rows : list (list Py.Value))
  : Table.t :=
  Table.mk (Table.name table) (Table.title table) (Table.columns table) rows.

(** [name == '*'] *)
Definition is_asterisk (name : AST.Name) : bool :=
  match name with
  | AST.Text s => String.eqb s "*"
  | AST.Node _ => false
  end.

Definition _execute_select (ast : ASTNode) : Exec bool :=
  match AST.get_tables ast with
  | [] =>
      let* _ := print NoTableSpecified in
      ret false
  | table_node :: _ =>
      let* table_name := lift (AST.name table_node) in
      let* table := get_table table_name in
      match table with
      | None =>
          let* _ := print (TableNotFound table_name) in
          ret false
      | Some table =>
          let* columns := lift (AST.columns ast) in
          let* first := lift (Py.getitem columns 0) in
          let* first_name := lift (AST.name first) in
          let* selected_columns :=
            if is_asterisk first_name
            then ret (Some (Table.range (length (Table.columns table))))
            else io (resolve_columns table table_name columns []) in
          match selected_columns with
          | None => ret false
          | Some selected_columns =>
              let* filtered_rows :=
                io (filter_rows (AST.get_where_clause ast) table
                      (Table.rows table) []) in
              let temp_table :=
                with_rows
                  (Table.new (Table.name table) (Table.columns table)
                     (Some (Table.title table)))
                  filtered_rows in
              let* _ := io (Table.print_table temp_table selected_columns) in
              let* _ := print (RowsSelected (length filtered_rows)) in
              ret true
          end
      end
  end.

(** [table.add_row(values)] on the table looked up under [table_name]. *)
Definition add_row (table_name : AST.Name) (table : Table.t)
  (values : list Py.Value) : Exec bool :=
  let '(added, table', out) := Table.add_row table values in
  let* _ := store_table table_name table' in
  let* _ := io (Ok tt, out) in
  ret added.

Definition _execute_insert (ast : ASTNode) : Exec bool :=
  let* table_node := lift (AST.table ast) in
  let* table_name := lift (AST.name table_node) in
  let* table := get_table table_name in
  match table with
  | None =>
      let* _ := print (TableNotFound table_name) in
      ret false
  | Some table =>
      let* columns := lift (AST.columns ast) in
      let* values :=
        match columns with
        | _ :: _ =>
            let* column_indices :=
              io (resolve_columns table table_name columns []) in
            match column_indices with
            | None => ret None
            | Some column_indices =>
                let values :=
                  List.repeat Py.VNone (length (Table.columns table)) in
                let* values := io (fill_values ast 0 column_indices values) in
                ret (Some values)
            end
        | [] =>
            let* exprs := lift (AST.values ast) in
            let* values := io (evaluate_all exprs) in
            ret (Some values)
        end in
      match values with
      | None => ret false
      | Some values =>
          let* added := add_row table_name table values in
          if added then
            let* _ := print RowInserted in
            ret true
          else ret false
      end
  end.

Definition _execute_update (ast : ASTNode) : Exec bool :=
  let* table_node := lift (AST.table ast) in
  let* table_name := lift (AST.name table_node) in
  let* table := get_table table_name in
  match table with
  | None =>
      let* _ := print (TableNotFound table_name) in
      ret false
  | Some table =>
      let* set_nodes := lift (AST.set_clauses ast) in
      let* set_clauses :=
        io (resolve_set_clauses table table_name set_nodes []) in
      match set_clauses with
      | None => ret false
      | Some set_clauses =>
          let '(r, rows, out) :=
            update_rows (AST.get_where_clause ast) table set_clauses
              (Table.rows table) 0 in
          let* _ := store_table table_name (with_rows table rows) in
          let* rows_updated := io (r, out) in
          let* _ := print (RowsUpdated rows_updated) in
          ret true
      end
  end.

Definition _execute_delete (ast : ASTNode) : Exec bool :=
  let* table_node := lift (AST.table ast) in
  let* table_name := lift (AST.name table_node) in
  let* table := get_table table_name in
  match table with
  | None =>
      let* _ := print (TableNotFound table_name) in
      ret false
  | Some table =>
      let* partition :=
        io (partition_rows (AST.get_where_clause ast) table
              (Table.rows table) [] 0) in
      let '(rows_to_keep, rows_deleted) := partition in
      let* _ := store_table table_name (with_rows table rows_to_keep) in
      let* _ := print (RowsDeleted rows_deleted) in
      ret true
  end.

(** [ColumnDef(col_node.data['name'], col_node.data['data_type'])] *)
Definition column_def (col_node : ASTNode) : Res ColumnDef.t :=
  (let* col_name := AST.name col_node in
   let* col_type := AST.data_type col_node in
   Ok (ColumnDef.mk col_name col_type))%res.

Definition _execute_create (ast : ASTNode) : Exec bool :=
  let* table_node := lift (AST.table ast) in
  let* table_name := lift (AST.name table_node) in
  let* col_nodes := lift (AST.columns ast) in
  let* columns := lift (res_map column_def col_nodes) in
  let* created := create_table table_name columns None in
  if created then
    let* _ := print (TableCreated table_name) in
    ret true
  else ret false.

Definition _execute_drop (ast : ASTNode) : Exec bool :=
  let* table_node := lift (AST.table ast) in
  let* table_name := lift (AST.name table_node) in
  let* dropped := drop_table table_name in
  if dropped then
    let* _ := print (TableDropped table_name) in
    ret true
  else ret false.

Definition execute_query (ast : ASTNode) : Exec bool :=
  match AST.type ast with
  | NodeType.SELECT_STMT => _execute_select ast
  | NodeType.INSERT_STMT => _execute_insert ast
  | NodeType.UPDATE_STMT => _execute_update ast
  | NodeType.DELETE_STMT => _execute_delete ast
  | NodeType.CREATE_STMT => _execute_create ast
  | NodeType.DROP_STMT => _execute_drop ast
  | kind =>
      let* _ := print (UnsupportedQueryType kind) in
      ret false
  end.

End Database.

(** [Parser(Lexer(sql)).parse()] then [db.execute_query(ast)]: one round
    of the loop of [test_sql.py]. *)
Definition run_statement (sql : string) : Database.Exec bool :=
  fun db =>
    match parse_query sql with
    | Ok ast => Database.execute_query ast db
    | Raise e => (Raise e, db, [])
    end.

(** ** Vocabulary of the properties *)

(** *** Lexer *)

Module Spec.

Fixpoint drop (n : nat) (s : string) {struct n} : string :=
  match n, s with
  | O, _ => s
  | S n', String _ s' => drop n' s'
  | S _, EmptyString => EmptyString
  end.

(** The text a lexer has not read yet. *)
Definition unread (lx : Lexer.t) : string :=
  drop (Lexer.position lx) (Lexer.input lx).

(** The lexer [lx] after [n] more characters of the same line. *)
Definition shift (lx : Lexer.t) (n : nat) : Lexer.t :=
  Lexer.mk (Lexer.input lx) (Lexer.position lx + n) (Lexer.line lx)
    (Lexer.column lx + Z.of_nat n).

(** The dots of a text. *)
Fixpoint dots (s : string) : nat :=
  match s with
  | EmptyString => O
  | String c s' => ((if Ascii.eqb c "."%char then 1 else 0) + dots s')%nat
  end.

(** The text is made of digits and dots. *)
Fixpoint number_chars (s : string) : bool :=
  match s with
  | EmptyString => true
  | String c s' => (Char.isdigit c || Ascii.eqb c "."%char) && number_chars s'
  end.

(** What the loop of [Lexer.number] reads of the text before it, and the
    flag it ends with. *)
Fixpoint number_run (s : string) (is_float : bool) : string * bool :=
  match s with
  | String c s' =>
      if Char.isdigit c || Ascii.eqb c "."%char then
        if Ascii.eqb c "."%char && is_float then ("", is_float)
        else
          let (run, flag) :=
            number_run s' (Ascii.eqb c "."%char || is_float) in
          (String c run, flag)
      else ("", is_float)
  | EmptyString => ("", is_float)
  end.

(** *** Parser *)

(** The node is an [AND] or an [OR] of two conditions. *)
Definition is_connective (node : ASTNode) : bool :=
  match node with
  | Condition _ op _ => TokenType.mem op [TokenType.AND; TokenType.OR]
  | _ => false
  end.

(** Connectives nest to the right only: the left operand of an [AND] or
    an [OR] is never an [AND] or an [OR] itself. *)
Fixpoint right_nested (node : ASTNode) : bool :=
  match node with
  | Condition l op r =>
      if TokenType.mem op [TokenType.AND; TokenType.OR]
      then negb (is_connective l) && right_nested r
      else true
  | _ => true
  end.

(** A condition node with the operator [NOT] occurs in the tree. *)
Fixpoint has_not (node : ASTNode) : bool :=
  match node with
  | Identifier _ | Literal _ _ | TableRef _ => false
  | Expression l _ r => has_not l || has_not r
  | Condition l op r =>
      TokenType.eqb op TokenType.NOT || has_not l || has_not r
  | Join t c => has_not t || has_not c
  | ColumnDefinition n _ => has_not n
  | SelectStmt cs ts js w =>
      existsb has_not cs || existsb has_not ts || existsb has_not js
      || match w with Some c => has_not c | None => false end
  | InsertStmt t cs vs =>
      has_not t || existsb has_not cs || existsb has_not vs
  | UpdateStmt t ss w =>
      has_not t || existsb has_not ss
      || match w with Some c => has_not c | None => false end
  | DeleteStmt t w =>
      has_not t || match w with Some c => has_not c | None => false end
  | CreateStmt t cs => has_not t || existsb has_not cs
  | DropStmt t => has_not t
  end.

(** [_evaluate_condition] takes its [NOT] branch while it evaluates the
    condition on the row: the walk of [_evaluate_condition], a right
    operand visited when the left one lets it. *)
Fixpoint not_branch_reached (condition : ASTNode) (table : Table.t)
  (row : list Py.Value) : bool :=
  match condition with
  | Condition l op r =>
      if TokenType.eqb op TokenType.AND then
        not_branch_reached l table row
        || match fst (Database._evaluate_condition l table row) with
           | Ok true => not_branch_reached r table row
           | _ => false
           end
      else if TokenType.eqb op TokenType.OR then
        not_branch_reached l table row
        || match fst (Database._evaluate_condition l table row) with
           | Ok false => not_branch_reached r table row
           | _ => false
           end
      else TokenType.eqb op TokenType.NOT
  | _ => false
  end.

(** *** Database *)

(** The database after a computation, and its outcome. *)
Definition after {A : Type} (db : Database.t) (m : Database.Exec A)
  : Database.t :=
  snd (fst (m db)).

Definition outcome {A : Type} (db : Database.t) (m : Database.Exec A)
  : Res A :=
  fst (fst (m db)).

(** The rows of the table stored under [key], none when there is no such
    table. *)
Definition rows_of (db : Database.t) (key : string)
  : list (list Py.Value) :=
  match Database.tables db !! key with
  | Some table => Table.rows table
  | None => []
  end.

(** The invariant of tables as the specification words it: a row has one
    value for each column, and a value that is not null has the type its
    column declares; [INT] takes integers, [FLOAT] integers and floats,
    [TEXT] and [DATE] text. *)
Definition conforms (value : Py.Value) (declared : TokenType.t) : bool :=
  match value with
  | Py.VNone => true
  | Py.VInt _ =>
      TokenType.eqb declared TokenType.INT
      || TokenType.eqb declared TokenType.FLOAT
  | Py.VFloat _ => TokenType.eqb declared TokenType.FLOAT
  | Py.VStr _ =>
      TokenType.eqb declared TokenType.TEXT
      || TokenType.eqb declared TokenType.DATE
  end.

Definition row_conforms (columns : list ColumnDef.t) (row : list Py.Value)
  : bool :=
  (length row =? length columns)%nat
  && forallb (fun vc => conforms (fst vc) (ColumnDef.type (snd vc)))
       (zip row columns).

Definition table_invariant (table : Table.t) : bool :=
  forallb (row_conforms (Table.columns table)) (Table.rows table).

Definition database_invariant (db : Database.t) : bool :=
  forallb (fun kt => table_invariant (snd kt))
    (map_to_list (Database.tables db)).

(** The columns of the table are named by text, as the annotation of
    [ColumnDef] has it. *)
Definition text_named (table : Table.t) : Prop :=
  Forall (fun col => exists s, ColumnDef.name col = AST.Text s)
    (Table.columns table).

(** [name] names no column of [table]: the lookup ends and finds none. *)
Definition unknown_column (table : Table.t) (name : string) : Prop :=
  Table.get_column_index table (AST.Text name) = Ok (-1).

(** [name] names the column of index [i]. *)
Definition column_at (table : Table.t) (name : string) (i : Z) : Prop :=
  Table.get_column_index table (AST.Text name) = Ok i /\ i <> -1.


(** The condition evaluates to false on the row. *)
Definition evaluates_false (condition : ASTNode) (table : Table.t)
  (row : list Py.Value) : bool :=
  match fst (Database._evaluate_condition condition table row) with
  | Ok false => true
  | _ => false
  end.

(** [DELETE] keeps the row: there is a condition and it is false on it. *)
Definition kept_by (where_clause : option ASTNode) (table : Table.t)
  (row : list Py.Value) : bool :=
  match where_clause with
  | None => false
  | Some condition => evaluates_false condition table row
  end.

(** The condition, when there is one, can be evaluated on every row. *)
Definition evaluable (where_clause : option ASTNode) (table : Table.t)
  (rows : list (list Py.Value)) : Prop :=
  match where_clause with
  | None => True
  | Some condition =>
      Forall (fun row =>
                exists b,
                  fst (Database._evaluate_condition condition table row)
                  = Ok b)
        rows
  end.

(** What the scan of [UPDATE] makes of a row it gets past. *)
Definition updated (where_clause : option ASTNode) (table : Table.t)
  (set_clauses : list (Z * Py.Value)) (row : list Py.Value)
  : list Py.Value :=
  match fst (Database.matches where_clause table row) with
  | Ok true => snd (Database.assign set_clauses row)
  | _ => row
  end.

(** The scan gets past the row: the condition can be evaluated on it and,
    when it holds, every assignment finds its column. *)
Definition updatable (where_clause : option ASTNode) (table : Table.t)
  (set_clauses : list (Z * Py.Value)) (row : list Py.Value) : Prop :=
  exists b,
    fst (Database.matches where_clause table row) = Ok b
    /\ (b = true -> fst (Database.assign set_clauses row) = Ok tt).

(** Examples: the table [t (id INT, name TEXT)] with columns named by
    text, the database that [create_table] makes with it, and the same
    after two inserts. *)
Definition example_columns : list ColumnDef.t :=
  [ColumnDef.mk (AST.Text "id") TokenType.INT;
   ColumnDef.mk (AST.Text "name") TokenType.TEXT].

Definition example_table (rows : list (list Py.Value)) : Table.t :=
  Table.mk "t" "t" example_columns rows.

Definition example_db : Database.t :=
  after Database.new
    (Database.create_table (AST.Text "t") example_columns None).

Definition two_rows : list (list Py.Value) :=
  [[Py.VInt 1; Py.VStr "b"]; [Py.VInt 2; Py.VNone]].

Definition two_rows_db : Database.t :=
  after
    (after example_db (run_statement "INSERT INTO t VALUES (1, 'b')"))
    (run_statement "INSERT INTO t VALUES (2, NULL)").

(** A message that a column was not found, and a run that prints none. *)
Definition reports_column (m : Message) : bool :=
  match m with
  | ColumnNotFound _ _ => true
  | _ => false
  end.

Definition silent_on_columns {A : Type} (m : IO A) : bool :=
  forallb (fun message => negb (reports_column message)) (snd m).

(** *** Fuel *)

(** [lx'] is [lx] further on in the same text, [n] characters at least. *)
Definition ahead (n : nat) (lx lx' : Lexer.t) : Prop :=
  Lexer.input lx' = Lexer.input lx
  /\ (Lexer.position lx + n <= Lexer.position lx')%nat
  /\ (Lexer.position lx' <= String.length (Lexer.input lx))%nat.

(** The cursor is in the text or just after it. *)
Definition inside (lx : Lexer.t) : Prop :=
  (Lexer.position lx <= String.length (Lexer.input lx))%nat.

(** The tests of the loops of [skip_comment], [identifier], [number] and
    [string]. *)
Definition in_comment (c : ascii) : bool :=
  negb (Ascii.eqb c Char.LF) && negb (Ascii.eqb c Char.NUL).

Definition in_identifier (c : ascii) : bool :=
  Char.isalnum c || Ascii.eqb c "_"%char.

Definition in_number (c : ascii) : bool :=
  Char.isdigit c || Ascii.eqb c "."%char.

Definition in_string (quote c : ascii) : bool :=
  negb (Ascii.eqb c quote) && negb (Ascii.eqb c Char.NUL).

(** What a parser state has still to read: the characters after the cursor
    and the look-ahead token, unless that is [EOF]. *)
Definition ahead_of (p : Parser.t) : nat :=
  (Lexer.remaining (Parser.lexer p)
   + if TokenType.eqb (type (Parser.current_token p)) TokenType.EOF
     then 0 else 1)%nat.

Definition well_placed (p : Parser.t) : Prop := inside (Parser.lexer p).

(** [m] run from [p] does not run out of fuel, and when it returns it has
    read [d] tokens at least. *)
Definition fine {A : Type} (d : nat) (m : Parser.M A) (p : Parser.t) : Prop :=
  match m p with
  | Ok (_, p') => well_placed p' /\ (ahead_of p' + d <= ahead_of p)%nat
  | Raise e => e <> OutOfFuel
  end.

(** The lexer after it has read the characters of [s], one [advance] each. *)
Fixpoint read (s : string) (lx : Lexer.t) : Lexer.t :=
  match s with
  | EmptyString => lx
  | String _ s' => read s' (snd (Lexer.advance lx))
  end.

(** The line and the column after the characters of [s], from the line and
    the column before: a line feed starts a line at column 1, any other
    character is one column. *)
Fixpoint cursor (s : string) (at_ : Z * Z) : Z * Z :=
  match s with
  | EmptyString => at_
  | String c s' =>
      cursor s' (if Ascii.eqb c Char.LF then (fst at_ + 1, 1)
                 else (fst at_, snd at_ + 1))
  end.

(** Every character of the text passes the test. *)
Fixpoint all (P : ascii -> bool) (s : string) : bool :=
  match s with
  | EmptyString => true
  | String c s' => P c && all P s'
  end.

(** The text is empty or its first character fails the test. *)
Definition stops (P : ascii -> bool) (s : string) : bool :=
  match s with
  | EmptyString => true
  | String c _ => negb (P c)
  end.

(** The kind of a word: the keyword it spells, whatever the case of its
    letters, or an identifier. *)
Definition word_kind (w : string) : TokenType.t :=
  match Lexer.keywords (Str.lower w) with
  | Some k => k
  | None => TokenType.IDENTIFIER
  end.

(** A word: a letter or an underscore, then letters, digits and
    underscores. *)
Definition is_word (w : string) : bool :=
  match w with
  | EmptyString => false
  | String c _ =>
      (Char.isalpha c || Ascii.eqb c "_"%char) && all in_identifier w
  end.

(** The character opens a string. *)
Definition is_quote (c : ascii) : bool :=
  Ascii.eqb c "'"%char || Ascii.eqb c Char.DQUOTE.

(** The characters that are a token of their own or start a longer one. *)
Definition punctuation : string := "=><!+-*/,;().".

Fixpoint occurs (c : ascii) (s : string) : bool :=
  match s with
  | EmptyString => false
  | String d s' => Ascii.eqb c d || occurs c s'
  end.

(** The character is white space, starts a comment or starts a token that
    the lexer knows. *)
Definition known_start (c : ascii) : bool :=
  Char.isspace c || Ascii.eqb c "#"%char
  || Char.isalpha c || Ascii.eqb c "_"%char || Char.isdigit c
  || is_quote c || occurs c punctuation.

(** *** Statements and the dictionary *)

(** The key of the dictionary a statement works on: the lower-case name of
    its table, for the five statements that have a [table]. *)
Definition statement_key (ast : ASTNode) : option string :=
  match AST.table ast with
  | Ok table =>
      match AST.name table with
      | Ok (AST.Text name) => Some (Str.lower name)
      | _ => None
      end
  | Raise _ => None
  end.

(** The names of the columns, when they are text, in lower case. *)
Definition column_keys (columns : list ColumnDef.t) : list string :=
  omap (fun col => match ColumnDef.name col with
                   | AST.Text s => Some (Str.lower s)
                   | AST.Node _ => None
                   end) columns.

(** *** What [SELECT] prints *)

(** [SELECT] takes the row: there is no condition, or it is true on it. *)
Definition selected_by (where_clause : option ASTNode) (table : Table.t)
  (row : list Py.Value) : bool :=
  match fst (Database.matches where_clause table row) with
  | Ok true => true
  | _ => false
  end.

(** The cells of a row at the indices [idxs], as [print_table] writes
    them. *)
Definition shown (idxs : list Z) (row : list Py.Value) : list string :=
  map (fun i => match row !! Z.to_nat i with
                | Some Py.VNone | None => "NULL"
                | Some v => Py.to_str v
                end) idxs.

(** The names of the columns at the indices [idxs]. *)
Definition header_of (columns : list ColumnDef.t) (idxs : list Z)
  : list string :=
  map (fun i => match columns !! Z.to_nat i with
                | Some (ColumnDef.mk (AST.Text s) _) => s
                | _ => ""
                end) idxs.

(** What [SELECT] prints for the columns of indices [idxs] and the rows
    it takes: the title, the header, the rule, a line for each row and
    the count. *)
Definition select_output (table : Table.t) (idxs : list Z)
  (rows : list (list Py.Value)) : list Message :=
  let header := header_of (Table.columns table) idxs in
  ([TableTitle (if String.eqb (Table.title table) ""
                then Table.name table else Table.title table);
    TableHeader header;
    TableRule (Table.sum_len header + 3 * (Z.of_nat (length header) - 1))]
   ++ map (fun row => TableRow (shown idxs row)) rows
   ++ [RowsSelected (length rows)])%list.

(** How [SELECT] reads its column list: [*] first stands for all the
    columns, whatever follows it; else every item is the name of a
    column. *)
Definition selects (table : Table.t) (cols : list ASTNode) (idxs : list Z)
  : Prop :=
  (exists rest,
      cols = Identifier "*" :: rest
      /\ idxs = Table.range (length (Table.columns table)))
  \/ (exists first names,
         cols = map Identifier (first :: names) /\ first <> "*"
         /\ Forall2 (column_at table) (first :: names) idxs).

(** *** Values without a row *)

(** The expressions the parser builds for values: a name, a literal, or
    two names joined by a dot. *)
Definition plain (expr : ASTNode) : bool :=
  match expr with
  | Identifier _ | Literal _ _ => true
  | Expression (Identifier _) op (Identifier _) =>
      TokenType.eqb op TokenType.DOT
  | _ => false
  end.

(** What such an expression is worth where there is no row: a literal its
    value, a name its own text, a dotted name the text of the two names
    with the dot. *)
Definition plain_value (expr : ASTNode) : Py.Value :=
  match expr with
  | Identifier name => Py.VStr name
  | Literal _ value => value
  | Expression (Identifier a) _ (Identifier b) => Py.VStr (a ++ "." ++ b)
  | _ => Py.VNone
  end.

(** *** The trees of the parser *)

(** The tag of a literal agrees with its value, and an integer is not
    negative. *)
Definition well_tagged (expr : ASTNode) : bool :=
  match expr with
  | Literal tag value =>
      match value with
      | Py.VInt n => TokenType.eqb tag TokenType.INTEGER && (0 <=? n)
      | Py.VFloat _ => TokenType.eqb tag TokenType.FLOAT_LITERAL
      | Py.VStr _ => TokenType.eqb tag TokenType.STRING
      | Py.VNone => TokenType.eqb tag TokenType.NULL
      end
  | _ => true
  end.

(** An expression: a name, a literal with the tag of its value, or a
    dotted name. *)
Definition is_expression (node : ASTNode) : bool :=
  plain node && well_tagged node.

(** A condition: a comparison of two expressions, conditions joined by
    [AND] and [OR], or an expression alone. *)
Fixpoint is_condition (node : ASTNode) : bool :=
  match node with
  | Condition l op r =>
      if TokenType.mem op Parser.comparison_operators
      then is_expression l && is_expression r
      else TokenType.mem op [TokenType.AND; TokenType.OR]
           && is_condition l && is_condition r
  | _ => is_expression node
  end.

Definition is_name (node : ASTNode) : bool :=
  match node with
  | Identifier _ => true
  | _ => false
  end.

Definition is_table_ref (node : ASTNode) : bool :=
  match node with
  | TableRef _ => true
  | _ => false
  end.

Definition is_join (node : ASTNode) : bool :=
  match node with
  | Join table condition => is_table_ref table && is_condition condition
  | _ => false
  end.

Definition is_set_clause (node : ASTNode) : bool :=
  match node with
  | Expression column op value =>
      is_name column && TokenType.eqb op TokenType.EQUALS
      && is_expression value
  | _ => false
  end.

Definition is_column_definition (node : ASTNode) : bool :=
  match node with
  | ColumnDefinition name data_type =>
      is_name name
      && TokenType.mem data_type
           [TokenType.INT; TokenType.TEXT; TokenType.FLOAT; TokenType.DATE]
  | _ => false
  end.

Definition is_where (where_clause : option ASTNode) : bool :=
  match where_clause with
  | Some condition => is_condition condition
  | None => true
  end.

Definition nonempty {A : Type} (l : list A) : bool :=
  match l with
  | [] => false
  | _ :: _ => true
  end.

(** The statements the parser builds. *)
Definition is_statement (ast : ASTNode) : bool :=
  match ast with
  | SelectStmt columns tables joins where_clause =>
      nonempty columns && forallb is_expression columns
      && nonempty tables && forallb is_table_ref tables
      && forallb is_join joins && is_where where_clause
  | InsertStmt table columns values =>
      is_name table && forallb is_expression columns
      && nonempty values && forallb is_expression values
  | UpdateStmt table set_clauses where_clause =>
      is_name table && nonempty set_clauses
      && forallb is_set_clause set_clauses && is_where where_clause
  | DeleteStmt table where_clause => is_name table && is_where where_clause
  | CreateStmt table columns =>
      is_name table && nonempty columns
      && forallb is_column_definition columns
  | DropStmt table => is_name table
  | _ => false
  end.

(** The kind of statement a first token announces. *)
Definition statement_kind (k : TokenType.t) : option NodeType.t :=
  match k with
  | TokenType.SELECT => Some NodeType.SELECT_STMT
  | TokenType.INSERT => Some NodeType.INSERT_STMT
  | TokenType.UPDATE => Some NodeType.UPDATE_STMT
  | TokenType.DELETE => Some NodeType.DELETE_STMT
  | TokenType.CREATE => Some NodeType.CREATE_STMT
  | TokenType.DROP => Some NodeType.DROP_STMT
  | _ => None
  end.

(** *** What can be rendered *)

Definition is_condition_node (node : ASTNode) : bool :=
  match node with
  | Condition _ _ _ => true
  | _ => false
  end.

(** The operands of the condition are no conditions themselves. *)
Definition flat (condition : ASTNode) : bool :=
  match condition with
  | Condition l _ r => negb (is_condition_node l) && negb (is_condition_node r)
  | _ => true
  end.

Definition flat_join (join : ASTNode) : bool :=
  match join with
  | Join _ condition => flat condition
  | _ => true
  end.

(** The conditions of the statement, those of its joins and the one of its
    [WHERE], are flat. *)
Definition flat_conditions (ast : ASTNode) : bool :=
  match ast with
  | SelectStmt _ _ joins where_clause =>
      forallb flat_join joins
      && match where_clause with Some c => flat c | None => true end
  | UpdateStmt _ _ where_clause | DeleteStmt _ where_clause =>
      match where_clause with Some c => flat c | None => true end
  | _ => true
  end.

(** *** Reading back what was rendered *)

(** The first token of the text [text], wherever a lexer meets it: its
    kind, its lexeme and the text after it. *)
Definition first_token (text : string) (k : TokenType.t) (lexeme_ : string)
  (rest : string) : Prop :=
  forall lx,
    unread lx = text ->
    type (fst (Lexer.get_next_token lx)) = k
    /\ lexeme (fst (Lexer.get_next_token lx)) = lexeme_
    /\ unread (snd (Lexer.get_next_token lx)) = rest.

Definition tokenizes (text : string) : Prop :=
  exists k lexeme_ rest, first_token text k lexeme_ rest.

(** The look-ahead of the parser and the text after it. *)
Definition looking_at (p : Parser.t) (k : TokenType.t) (lexeme_ : string)
  (rest : string) : Prop :=
  type (Parser.current_token p) = k
  /\ lexeme (Parser.current_token p) = lexeme_
  /\ unread (Parser.lexer p) = rest.

(** The parser is at the start of [text]: its look-ahead is the first
    token of [text], its lexer is after that token. *)
Definition starts (p : Parser.t) (text : string) : Prop :=
  exists k lexeme_ rest,
    first_token text k lexeme_ rest /\ looking_at p k lexeme_ rest.

(** The text ends a word before it and starts with a token of kind [k]. *)
Definition closes (text : string) (k : TokenType.t) : Prop :=
  stops in_identifier text = true
  /\ exists lexeme_ rest, first_token text k lexeme_ rest.

(** A name that is read back as an identifier: a word that is no
    keyword. *)
Definition plain_name (w : string) : bool :=
  is_word w && TokenType.eqb (word_kind w) TokenType.IDENTIFIER.

(** An identifier node, a table reference and a column definition whose
    name is such a name. *)
Definition named (node : ASTNode) : bool :=
  match node with
  | Identifier w => plain_name w
  | _ => false
  end.

Definition named_table (node : ASTNode) : bool :=
  match node with
  | TableRef w => plain_name w
  | _ => false
  end.

(** One [column = name] of an [UPDATE]. *)
Definition named_set_clause (node : ASTNode) : bool :=
  match node with
  | Expression (Identifier w) k (Identifier v) =>
      plain_name w && TokenType.eqb k TokenType.EQUALS && plain_name v
  | _ => false
  end.

Definition named_column (node : ASTNode) : bool :=
  match node with
  | ColumnDefinition (Identifier w) k =>
      plain_name w
      && TokenType.mem k
           [TokenType.INT; TokenType.TEXT; TokenType.FLOAT; TokenType.DATE]
  | _ => false
  end.

(** The column list [*]. *)
Definition is_star (columns : list ASTNode) : bool :=
  match columns with
  | [Identifier w] => String.eqb w "*"
  | _ => false
  end.

(** The columns of a [SELECT] or of an [INSERT]: [*], or one name or
    more. *)
Definition named_columns (columns : list ASTNode) : bool :=
  is_star columns || nonempty columns && forallb named columns.

(** A statement made of names only, without join and without [WHERE]. *)
Definition names_only (ast : ASTNode) : bool :=
  match ast with
  | SelectStmt columns tables [] None =>
      named_columns columns && nonempty tables && forallb named_table tables
  | InsertStmt table columns values =>
      named table && (negb (nonempty columns) || named_columns columns)
      && nonempty values && forallb named values
  | UpdateStmt table set_clauses None =>
      named table && nonempty set_clauses
      && forallb named_set_clause set_clauses
  | DeleteStmt table None => named table
  | CreateStmt table columns =>
      named table && nonempty columns && forallb named_column columns
  | DropStmt table => named table
  | _ => false
  end.

(** The text of a node of these kinds. *)
Definition show (node : ASTNode) : string :=
  match node with
  | Identifier w | TableRef w => w
  | ColumnDefinition (Identifier w) k =>
      w ++ " " ++ SQLGenerator.token_type_to_string k
  | Expression (Identifier w) _ (Identifier v) => w ++ " = " ++ v
  | _ => ""
  end.

(** The text of the items of a list after the first one. *)
Fixpoint more (items : list ASTNode) : string :=
  match items with
  | [] => ""
  | x :: items' => ", " ++ show x ++ more items'
  end.

End Spec.

Import Spec.

(** * Properties *)

#[local] Arguments String.append !s1 s2 : simpl nomatch.

(** ** The lexer *)

Section LexerFacts.

Lemma drop_length n s : String.length (drop n s) = (String.length s - n)%nat.
Proof. revert s; induction n as [|n IH]; intros [|c s]; simpl; auto. Qed.

Lemma get_drop n s :
  String.get n s
  = match drop n s with String c _ => Some c | EmptyString => None end.
Proof. revert s; induction n as [|n IH]; intros [|c s]; simpl; auto. Qed.

Lemma drop_S n s c s' : drop n s = String c s' -> drop (S n) s = s'.
Proof.
  revert s; induction n as [|n IH]; intros [|a s]; simpl; try congruence.
  intros H. now apply IH in H.
Qed.

Lemma remaining_unread lx : Lexer.remaining lx = String.length (unread lx).
Proof. unfold Lexer.remaining, unread. now rewrite drop_length. Qed.

Lemma peek_unread lx :
  Lexer.peek lx
  = match unread lx with String c _ => c | EmptyString => Char.NUL end.
Proof.
  unfold Lexer.peek, unread. rewrite get_drop.
  destruct (Nat.leb_spec (String.length (Lexer.input lx)) (Lexer.position lx))
    as [H|H].
  - pose proof (drop_length (Lexer.position lx) (Lexer.input lx)) as L.
    destruct (drop _ _); simpl in L; [reflexivity | lia].
  - destruct (drop _ _); reflexivity.
Qed.

Lemma unread_advance lx c s :
  unread lx = String c s ->
  Lexer.advance lx
  = (c, if Ascii.eqb c Char.LF
        then Lexer.mk (Lexer.input lx) (S (Lexer.position lx))
               (Lexer.line lx + 1) 1
        else Lexer.mk (Lexer.input lx) (S (Lexer.position lx))
               (Lexer.line lx) (Lexer.column lx + 1))
  /\ unread (snd (Lexer.advance lx)) = s.
Proof.
  intros H. unfold Lexer.advance. rewrite peek_unread, H.
  split; [reflexivity|]. simpl.
  destruct (Ascii.eqb c Char.LF); unfold unread in *; simpl;
    eapply drop_S; eauto.
Qed.

Lemma append_empty_r s : s ++ "" = s.
Proof. induction s; simpl; congruence. Qed.

Lemma append_char s c t : (s ++ Str.of_char c) ++ t = s ++ String c t.
Proof. induction s; simpl; congruence. Qed.

Lemma shift_0 lx : shift lx 0 = lx.
Proof. destruct lx; unfold shift; simpl. f_equal; lia. Qed.

(** A digit is no space, starts no identifier and no comment; neither a
    digit nor a dot ends a line. *)
Lemma isdigit_class c :
  Char.isdigit c = true ->
  Char.isspace c = false
  /\ Char.isalpha c || Ascii.eqb c "_"%char = false
  /\ Ascii.eqb c "#"%char = false.
Proof.
  destruct c as [[] [] [] [] [] [] [] []]; vm_compute; intros H;
    repeat split; congruence.
Qed.

Lemma number_char_not_LF c :
  Char.isdigit c || Ascii.eqb c "."%char = true -> Ascii.eqb c Char.LF = false.
Proof.
  destruct (Ascii.eqb_spec c Char.LF) as [->|];
    [vm_compute; discriminate | reflexivity].
Qed.

(** The loop of [number] reads [number_run] of the unread text, whatever
    fuel it has beyond the length of that text. *)
Lemma number_loop_run fuel lx lexeme is_float :
  (String.length (unread lx) <= fuel)%nat ->
  Lexer.number_loop fuel lx lexeme is_float
  = (lexeme ++ fst (number_run (unread lx) is_float),
     snd (number_run (unread lx) is_float),
     shift lx (String.length (fst (number_run (unread lx) is_float)))).
Proof.
  remember (unread lx) as s eqn:Hs. revert fuel lx lexeme is_float Hs.
  induction s as [|c s IH]; intros fuel lx lexeme is_float Hs Hfuel.
  - assert (Hp : Lexer.peek lx = Char.NUL) by (now rewrite peek_unread, <- Hs).
    destruct fuel; cbn [Lexer.number_loop number_run fst snd String.length];
      rewrite Hp; cbn; now rewrite append_empty_r, shift_0.
  - symmetry in Hs. destruct (unread_advance lx c s Hs) as [Hadv Hun].
    assert (Hp : Lexer.peek lx = c) by (now rewrite peek_unread, Hs).
    destruct fuel as [|fuel]; [simpl in Hfuel; lia|].
    cbn [Lexer.number_loop number_run]. rewrite Hp.
    destruct (Char.isdigit c || Ascii.eqb c "."%char) eqn:Hc;
      [|cbn; now rewrite append_empty_r, shift_0].
    destruct (Ascii.eqb c "."%char && is_float) eqn:Hd;
      [cbn; now rewrite append_empty_r, shift_0|].
    rewrite Hadv in *. rewrite (number_char_not_LF c Hc) in *.
    cbn [snd] in Hun.
    rewrite (IH fuel _ (lexeme ++ Str.of_char c)
               (Ascii.eqb c "."%char || is_float) (eq_sym Hun))
      by (simpl in Hfuel; lia).
    destruct (number_run s (Ascii.eqb c "."%char || is_float)) as [run flag].
    cbn [fst snd String.length]. rewrite append_char.
    unfold shift; cbn. do 2 f_equal; lia.
Qed.

(** The run is a prefix of the text, made of digits and at most one dot
    (none when a dot was seen before), and what follows it is neither a
    digit nor a first dot. *)
Lemma number_run_spec s is_float :
  let run := fst (number_run s is_float) in
  let flag := snd (number_run s is_float) in
  exists rest,
    s = run ++ rest
    /\ number_chars run = true
    /\ (dots run + (if is_float then 1 else 0) <= 1)%nat
    /\ flag = (is_float || (0 <? dots run)%nat)
    /\ match rest with
       | EmptyString => True
       | String d _ =>
           Char.isdigit d = false
           /\ (d = "."%char ->
               (dots run + (if is_float then 1 else 0))%nat = 1%nat)
       end.
Proof.
  revert is_float. induction s as [|c s IH]; intros is_float; cbn zeta.
  - exists "". cbn.
    repeat split; [destruct is_float; lia | now rewrite orb_false_r].
  - cbn [number_run].
    destruct (Char.isdigit c || Ascii.eqb c "."%char) eqn:Hc.
    + destruct (Ascii.eqb c "."%char && is_float) eqn:Hd.
      * apply andb_true_iff in Hd as [Hdot ->].
        apply Ascii.eqb_eq in Hdot as ->.
        exists (String "."%char s). cbn. repeat split; auto.
      * specialize (IH (Ascii.eqb c "."%char || is_float)). cbn zeta in IH.
        destruct (number_run s (Ascii.eqb c "."%char || is_float))
          as [run flag].
        cbn [fst snd] in *.
        destruct IH as (rest & -> & Hchars & Hdots & -> & Hmax).
        exists rest. cbn [number_chars dots]. rewrite Hc, Hchars.
        destruct (Ascii.eqb c "."%char), is_float; cbn in *;
          try discriminate; repeat split; auto; try lia;
          try (destruct rest; auto; destruct Hmax as [? Hm]; split; auto;
               intros E; specialize (Hm E); lia).
    + exists (String c s). apply orb_false_iff in Hc as [Hdig Hdot]. cbn.
      repeat split; auto; [destruct is_float; lia | now rewrite orb_false_r |].
      intros ->. discriminate.
Qed.

Lemma skip_whitespace_digit lx :
  Char.isdigit (Lexer.peek lx) = true -> Lexer.skip_whitespace lx = lx.
Proof.
  intros H. unfold Lexer.skip_whitespace.
  destruct (isdigit_class _ H) as (Hs & _ & _).
  destruct (Lexer.remaining lx); simpl; now rewrite Hs.
Qed.

Lemma skip_comment_digit lx :
  Char.isdigit (Lexer.peek lx) = true -> Lexer.skip_comment lx = lx.
Proof.
  intros H. unfold Lexer.skip_comment.
  destruct (isdigit_class _ H) as (_ & _ & ->). reflexivity.
Qed.

(** The first token of a text that starts with a digit. *)
Lemma first_token_of_digit c s :
  Char.isdigit c = true ->
  exists lexeme rest,
    String c s = lexeme ++ rest
    /\ Lexer.get_next_token (Lexer.new (String c s))
       = (mkToken (if (dots lexeme =? 1)%nat
                   then TokenType.FLOAT_LITERAL else TokenType.INTEGER)
            lexeme 1 1,
          Lexer.mk (String c s) (String.length lexeme) 1
            (1 + Z.of_nat (String.length lexeme)))
    /\ number_chars lexeme = true
    /\ (dots lexeme <= 1)%nat
    /\ match rest with
       | EmptyString => True
       | String d _ =>
           Char.isdigit d = false /\ (d = "."%char -> dots lexeme = 1%nat)
       end.
Proof.
  intros Hc.
  set (lx := Lexer.new (String c s)).
  assert (Hun : unread lx = String c s) by reflexivity.
  assert (Hp : Lexer.peek lx = c) by (now rewrite peek_unread, Hun).
  destruct (number_run_spec (String c s) false)
    as (rest & Hsplit & Hchars & Hdots & Hflag & Hmax).
  exists (fst (number_run (String c s) false)), rest.
  split; [exact Hsplit|]. split.
  - unfold Lexer.get_next_token.
    rewrite skip_whitespace_digit, skip_comment_digit by (now rewrite Hp).
    fold lx. rewrite Hp, Hc.
    replace (String.length (Lexer.input lx) <=? Lexer.position lx)%nat
      with false by reflexivity.
    destruct (isdigit_class _ Hc) as (_ & -> & _).
    unfold Lexer.number.
    rewrite number_loop_run by (rewrite remaining_unread; lia).
    rewrite Hun, Hflag. cbn [orb].
    destruct (number_run (String c s) false) as [run flag].
    cbn [fst snd] in *.
    assert (Hd : (0 <? dots run)%nat = (dots run =? 1)%nat).
    { destruct (dots run) as [|[|n]]; try reflexivity. lia. }
    rewrite Hd. unfold shift, lx; cbn.
    destruct (dots run =? 1)%nat; reflexivity.
  - repeat split; auto; try lia.
    destruct rest; auto. destruct Hmax as [? Hm]. split; auto.
    intros E. specialize (Hm E). lia.
Qed.

End LexerFacts.

(** ** The lexer moves forward and its loops have budget enough *)

Section LexerProgress.

Lemma ahead_refl lx : inside lx -> ahead 0 lx lx.
Proof. unfold ahead, inside. intros. repeat split; lia. Qed.

Lemma ahead_trans n m lx1 lx2 lx3 :
  ahead n lx1 lx2 -> ahead m lx2 lx3 -> ahead (n + m) lx1 lx3.
Proof.
  unfold ahead. intros (Hi & Hp & Hl) (Hi' & Hp' & Hl').
  rewrite Hi in *. repeat split; [congruence | lia | lia].
Qed.

Lemma ahead_weaken n m lx lx' :
  (m <= n)%nat -> ahead n lx lx' -> ahead m lx lx'.
Proof. unfold ahead. intros ? (? & ? & ?). repeat split; auto; lia. Qed.

Lemma ahead_inside n lx lx' : ahead n lx lx' -> inside lx'.
Proof. unfold inside. intros (Hi & _ & Hl). now rewrite Hi. Qed.

Lemma ahead_remaining n lx lx' :
  ahead n lx lx' -> (Lexer.remaining lx' + n <= Lexer.remaining lx)%nat.
Proof. unfold ahead, Lexer.remaining. intros (Hi & ? & ?). rewrite Hi. lia. Qed.

Lemma peek_end lx :
  (String.length (Lexer.input lx) <= Lexer.position lx)%nat ->
  Lexer.peek lx = Char.NUL.
Proof.
  intros H. unfold Lexer.peek.
  destruct (Nat.leb_spec (String.length (Lexer.input lx)) (Lexer.position lx));
    [reflexivity | lia].
Qed.

(** A test that the end mark fails holds only inside the text. *)
Lemma in_text (P : ascii -> bool) lx :
  P Char.NUL = false -> P (Lexer.peek lx) = true ->
  (Lexer.position lx < String.length (Lexer.input lx))%nat.
Proof.
  intros HP H.
  destruct (Nat.ltb_spec (Lexer.position lx) (String.length (Lexer.input lx)));
    [assumption|].
  rewrite peek_end in H by lia. congruence.
Qed.

(** Reading a character inside the text moves one character on. *)
Lemma advance_ahead lx :
  (Lexer.position lx < String.length (Lexer.input lx))%nat ->
  ahead 1 lx (snd (Lexer.advance lx)).
Proof.
  intros H. unfold Lexer.advance, ahead. cbn.
  destruct (Ascii.eqb _ _); cbn; repeat split; lia.
Qed.

Lemma advance_remaining lx :
  (Lexer.position lx < String.length (Lexer.input lx))%nat ->
  Lexer.remaining lx = S (Lexer.remaining (snd (Lexer.advance lx))).
Proof.
  intros H. unfold Lexer.advance, Lexer.remaining. cbn.
  destruct (Ascii.eqb _ _); cbn; lia.
Qed.

(** One round of a loop whose test is [P]: the state after [advance]. *)
Lemma round (P : ascii -> bool) lx :
  P Char.NUL = false -> P (Lexer.peek lx) = true ->
  ahead 1 lx (snd (Lexer.advance lx))
  /\ Lexer.remaining lx = S (Lexer.remaining (snd (Lexer.advance lx))).
Proof.
  intros HP H. pose proof (in_text P lx HP H).
  split; [now apply advance_ahead | now apply advance_remaining].
Qed.

Lemma in_string_end quote : in_string quote Char.NUL = false.
Proof. unfold in_string. cbn. apply andb_false_r. Qed.

(** The common step of the five proofs below. *)
Ltac loop_round P HP E IH :=
  let Ha := fresh "Ha" in
  let Hr := fresh "Hr" in
  destruct (round P _ HP E) as [Ha Hr];
  set (adv := Lexer.advance _) in *; clearbody adv; destruct adv as [? ?];
  cbn [snd] in Ha, Hr;
  eapply (ahead_weaken 1 0); [lia|];
  eapply (ahead_trans 1 0); [exact Ha|]; apply IH;
  exact (ahead_inside _ _ _ Ha).

Lemma skip_whitespace_loop_ahead fuel lx :
  inside lx -> ahead 0 lx (Lexer.skip_whitespace_loop fuel lx).
Proof.
  revert lx. induction fuel as [|fuel IH]; intros lx Hlx;
    cbn [Lexer.skip_whitespace_loop];
    destruct (Char.isspace (Lexer.peek lx)) eqn:E; try now apply ahead_refl.
  loop_round Char.isspace (eq_refl false) E IH.
Qed.

Lemma skip_comment_loop_ahead fuel lx :
  inside lx -> ahead 0 lx (Lexer.skip_comment_loop fuel lx).
Proof.
  revert lx. induction fuel as [|fuel IH]; intros lx Hlx;
    cbn [Lexer.skip_comment_loop];
    destruct (negb (Ascii.eqb (Lexer.peek lx) Char.LF)
              && negb (Ascii.eqb (Lexer.peek lx) Char.NUL)) eqn:E;
    try now apply ahead_refl.
  loop_round in_comment (eq_refl false) E IH.
Qed.

Lemma identifier_loop_ahead fuel lx lexeme :
  inside lx -> ahead 0 lx (snd (Lexer.identifier_loop fuel lx lexeme)).
Proof.
  revert lx lexeme. induction fuel as [|fuel IH]; intros lx lexeme Hlx;
    cbn [Lexer.identifier_loop];
    destruct (Char.isalnum (Lexer.peek lx) || Ascii.eqb (Lexer.peek lx) "_"%char)
      eqn:E; try now apply ahead_refl.
  loop_round in_identifier (eq_refl false) E IH.
Qed.

Lemma number_loop_ahead fuel lx lexeme is_float :
  inside lx ->
  ahead 0 lx (snd (Lexer.number_loop fuel lx lexeme is_float)).
Proof.
  revert lx lexeme is_float.
  induction fuel as [|fuel IH]; intros lx lexeme is_float Hlx;
    cbn [Lexer.number_loop];
    destruct (Char.isdigit (Lexer.peek lx) || Ascii.eqb (Lexer.peek lx) "."%char)
      eqn:E; try (now apply ahead_refl);
    destruct (Ascii.eqb (Lexer.peek lx) "."%char && is_float);
    try now apply ahead_refl.
  loop_round in_number (eq_refl false) E IH.
Qed.

Lemma string_loop_ahead fuel lx quote lexeme :
  inside lx ->
  ahead 0 lx (snd (Lexer.string_loop fuel lx quote lexeme)).
Proof.
  revert lx lexeme. induction fuel as [|fuel IH]; intros lx lexeme Hlx;
    cbn [Lexer.string_loop];
    destruct (negb (Ascii.eqb (Lexer.peek lx) quote)
              && negb (Ascii.eqb (Lexer.peek lx) Char.NUL)) eqn:E;
    try now apply ahead_refl.
  loop_round (in_string quote) (in_string_end quote) E IH.
Qed.

(** The budget [remaining] is enough for each loop: with it, or with any
    larger one, the loop ends on its test and not on its budget. *)
Ltac budget_round P HP E IH :=
  let Ha := fresh "Ha" in
  let Hr := fresh "Hr" in
  destruct (round P _ HP E) as [Ha Hr];
  set (adv := Lexer.advance _) in *; clearbody adv; destruct adv as [? ?];
  cbn [snd] in Ha, Hr;
  apply IH; cbn [snd]; lia.

Lemma skip_whitespace_loop_budget fuel fuel' lx :
  (Lexer.remaining lx <= fuel)%nat -> (Lexer.remaining lx <= fuel')%nat ->
  Lexer.skip_whitespace_loop fuel lx = Lexer.skip_whitespace_loop fuel' lx.
Proof.
  revert fuel' lx. induction fuel as [|fuel IH]; intros [|fuel'] lx H H';
    cbn [Lexer.skip_whitespace_loop];
    destruct (Char.isspace (Lexer.peek lx)) eqn:E; try reflexivity;
    try (destruct (round Char.isspace _ eq_refl E) as [_ Hr]; lia).
  budget_round Char.isspace (eq_refl false) E IH.
Qed.

Lemma skip_comment_loop_budget fuel fuel' lx :
  (Lexer.remaining lx <= fuel)%nat -> (Lexer.remaining lx <= fuel')%nat ->
  Lexer.skip_comment_loop fuel lx = Lexer.skip_comment_loop fuel' lx.
Proof.
  revert fuel' lx. induction fuel as [|fuel IH]; intros [|fuel'] lx H H';
    cbn [Lexer.skip_comment_loop];
    destruct (negb (Ascii.eqb (Lexer.peek lx) Char.LF)
              && negb (Ascii.eqb (Lexer.peek lx) Char.NUL)) eqn:E;
    try reflexivity;
    try (destruct (round in_comment _ eq_refl E) as [_ Hr]; lia).
  budget_round in_comment (eq_refl false) E IH.
Qed.

Lemma identifier_loop_budget fuel fuel' lx lexeme :
  (Lexer.remaining lx <= fuel)%nat -> (Lexer.remaining lx <= fuel')%nat ->
  Lexer.identifier_loop fuel lx lexeme = Lexer.identifier_loop fuel' lx lexeme.
Proof.
  revert fuel' lx lexeme.
  induction fuel as [|fuel IH]; intros [|fuel'] lx lexeme H H';
    cbn [Lexer.identifier_loop];
    destruct (Char.isalnum (Lexer.peek lx) || Ascii.eqb (Lexer.peek lx) "_"%char)
      eqn:E; try reflexivity;
    try (destruct (round in_identifier _ eq_refl E) as [_ Hr]; lia).
  budget_round in_identifier (eq_refl false) E IH.
Qed.

Lemma number_loop_budget fuel fuel' lx lexeme is_float :
  (Lexer.remaining lx <= fuel)%nat -> (Lexer.remaining lx <= fuel')%nat ->
  Lexer.number_loop fuel lx lexeme is_float
  = Lexer.number_loop fuel' lx lexeme is_float.
Proof.
  revert fuel' lx lexeme is_float.
  induction fuel as [|fuel IH]; intros [|fuel'] lx lexeme is_float H H';
    cbn [Lexer.number_loop];
    destruct (Char.isdigit (Lexer.peek lx) || Ascii.eqb (Lexer.peek lx) "."%char)
      eqn:E; try reflexivity;
    destruct (Ascii.eqb (Lexer.peek lx) "."%char && is_float);
    try reflexivity;
    try (destruct (round in_number _ eq_refl E) as [_ Hr]; lia).
  budget_round in_number (eq_refl false) E IH.
Qed.

Lemma string_loop_budget fuel fuel' lx quote lexeme :
  (Lexer.remaining lx <= fuel)%nat -> (Lexer.remaining lx <= fuel')%nat ->
  Lexer.string_loop fuel lx quote lexeme
  = Lexer.string_loop fuel' lx quote lexeme.
Proof.
  revert fuel' lx lexeme.
  induction fuel as [|fuel IH]; intros [|fuel'] lx lexeme H H';
    cbn [Lexer.string_loop];
    destruct (negb (Ascii.eqb (Lexer.peek lx) quote)
              && negb (Ascii.eqb (Lexer.peek lx) Char.NUL)) eqn:E;
    try reflexivity;
    try (destruct (round (in_string quote) _ (in_string_end quote) E)
           as [_ Hr]; lia).
  budget_round (in_string quote) (in_string_end quote) E IH.
Qed.

Lemma skip_whitespace_ahead lx : inside lx -> ahead 0 lx (Lexer.skip_whitespace lx).
Proof. apply skip_whitespace_loop_ahead. Qed.

Lemma skip_comment_ahead lx : inside lx -> ahead 0 lx (Lexer.skip_comment lx).
Proof.
  intros H. unfold Lexer.skip_comment.
  destruct (Ascii.eqb _ _);
    [now apply skip_comment_loop_ahead | now apply ahead_refl].
Qed.

Lemma isalpha_isalnum c : Char.isalpha c = true -> Char.isalnum c = true.
Proof. unfold Char.isalnum. intros ->. reflexivity. Qed.

Lemma isdigit_isalnum c : Char.isdigit c = true -> Char.isalnum c = true.
Proof.
  destruct c as [[] [] [] [] [] [] [] []]; vm_compute; congruence.
Qed.

Lemma identifier_ahead lx :
  inside lx ->
  Char.isalpha (Lexer.peek lx) || Ascii.eqb (Lexer.peek lx) "_"%char = true ->
  ahead 1 lx (snd (Lexer.identifier lx)).
Proof.
  intros Hlx Hc. unfold Lexer.identifier.
  assert (E : in_identifier (Lexer.peek lx) = true).
  { unfold in_identifier. apply orb_true_iff in Hc as [Hc|Hc];
      [rewrite (isalpha_isalnum _ Hc) | rewrite Hc, orb_true_r]; reflexivity. }
  destruct (round in_identifier lx eq_refl E) as [Ha Hr].
  rewrite Hr. cbn [Lexer.identifier_loop].
  unfold in_identifier in E. rewrite E.
  set (adv := Lexer.advance lx) in *. clearbody adv. destruct adv as [c lx1].
  cbn [snd] in Ha.
  pose proof (identifier_loop_ahead (Lexer.remaining lx1) lx1
                ("" ++ Str.of_char c) (ahead_inside _ _ _ Ha)) as Hl.
  destruct (Lexer.identifier_loop _ _ _) as [lexeme lx2]. cbn [snd] in *.
  exact (ahead_trans 1 0 _ _ _ Ha Hl).
Qed.

Lemma number_ahead lx :
  inside lx -> Char.isdigit (Lexer.peek lx) = true ->
  ahead 1 lx (snd (Lexer.number lx)).
Proof.
  intros Hlx Hc. unfold Lexer.number.
  assert (E : in_number (Lexer.peek lx) = true).
  { unfold in_number. now rewrite Hc. }
  destruct (round in_number lx eq_refl E) as [Ha Hr].
  rewrite Hr. cbn [Lexer.number_loop].
  unfold in_number in E. rewrite E, andb_false_r.
  set (adv := Lexer.advance lx) in *. clearbody adv. destruct adv as [c lx1].
  cbn [snd] in Ha.
  pose proof (number_loop_ahead (Lexer.remaining lx1) lx1
                ("" ++ Str.of_char c)
                (Ascii.eqb (Lexer.peek lx) "."%char || false)
                (ahead_inside _ _ _ Ha)) as Hl.
  destruct (Lexer.number_loop _ _ _ _) as [[lexeme is_float] lx2].
  cbn [snd] in *.
  destruct is_float; exact (ahead_trans 1 0 _ _ _ Ha Hl).
Qed.

Lemma string_ahead lx :
  (Lexer.position lx < String.length (Lexer.input lx))%nat ->
  ahead 1 lx (snd (Lexer.string lx)).
Proof.
  intros Hlx. unfold Lexer.string.
  pose proof (advance_ahead lx Hlx) as Ha.
  set (adv := Lexer.advance lx) in *. clearbody adv. destruct adv as [q lx1].
  cbn [snd] in Ha.
  pose proof (string_loop_ahead (Lexer.remaining lx1) lx1 q ""
                (ahead_inside _ _ _ Ha)) as Hl.
  destruct (Lexer.string_loop _ _ _ _) as [lexeme lx2]. cbn [snd] in *.
  pose proof (ahead_trans 1 0 _ _ _ Ha Hl) as H2.
  destruct (Ascii.eqb (Lexer.peek lx2) Char.NUL) eqn:E; cbn [snd];
    [exact H2|].
  assert (Hin : (Lexer.position lx2 < String.length (Lexer.input lx2))%nat).
  { apply (in_text (fun c => negb (Ascii.eqb c Char.NUL))); [reflexivity|].
    now rewrite E. }
  eapply (ahead_weaken 2 1); [lia|].
  exact (ahead_trans 1 1 _ _ _ H2 (advance_ahead _ Hin)).
Qed.

Lemma single_ahead k text lx :
  (Lexer.position lx < String.length (Lexer.input lx))%nat ->
  ahead 1 lx (snd (Lexer.single k text lx)).
Proof. intros Hlx. unfold Lexer.single. cbn [snd]. now apply advance_ahead. Qed.

Lemma one_or_two_ahead k1 k2 text1 text2 lx :
  (Lexer.position lx < String.length (Lexer.input lx))%nat ->
  ahead 1 lx (snd (Lexer.one_or_two k1 k2 text1 text2 lx)).
Proof.
  intros Hlx. unfold Lexer.one_or_two.
  pose proof (advance_ahead lx Hlx) as Ha.
  destruct (Ascii.eqb (Lexer.peek (snd (Lexer.advance lx))) "="%char) eqn:E;
    cbn [snd]; [|exact Ha].
  assert (Hin : (Lexer.position (snd (Lexer.advance lx))
                 < String.length (Lexer.input (snd (Lexer.advance lx))))%nat).
  { now apply (in_text (fun c => Ascii.eqb c "="%char)). }
  eapply (ahead_weaken 2 1); [lia|].
  exact (ahead_trans 1 1 _ _ _ Ha (advance_ahead _ Hin)).
Qed.

(** A token takes the cursor forward, and a token that is not [EOF] takes
    at least one character. *)
Lemma get_next_token_ahead lx :
  inside lx ->
  ahead 0 lx (snd (Lexer.get_next_token lx))
  /\ (type (fst (Lexer.get_next_token lx)) <> TokenType.EOF ->
      ahead 1 lx (snd (Lexer.get_next_token lx))).
Proof.
  intros Hlx.
  pose proof (skip_whitespace_ahead lx Hlx) as H1.
  pose proof (skip_comment_ahead _ (ahead_inside _ _ _ H1)) as H2.
  pose proof (ahead_trans 0 0 _ _ _ H1 H2) as H0. cbn [Nat.add] in H0.
  unfold Lexer.get_next_token.
  set (lx1 := Lexer.skip_comment (Lexer.skip_whitespace lx)) in *.
  clearbody lx1.
  destruct (Nat.leb_spec (String.length (Lexer.input lx1)) (Lexer.position lx1))
    as [Hend|Hin].
  - cbn [fst snd type]. split; [exact H0 | congruence].
  - match goal with
    | |- ahead 0 lx (snd ?tok) /\ _ => assert (H : ahead 1 lx1 (snd tok))
    end.
    { pose proof (ahead_inside _ _ _ H0) as Hi.
      repeat match goal with
             | |- ahead 1 _ (snd (if ?c then _ else _)) => destruct c eqn:?
             end;
        first [ now apply identifier_ahead
              | now apply number_ahead
              | now apply string_ahead
              | now apply single_ahead
              | now apply one_or_two_ahead ]. }
    pose proof (ahead_trans 0 1 _ _ _ H0 H) as H'. cbn [Nat.add] in H'.
    split; [eapply ahead_weaken; [|exact H']; lia | intros _; exact H'].
Qed.

Lemma tokens_loop_budget fuel fuel' lx :
  inside lx ->
  (Lexer.remaining lx <= fuel)%nat -> (Lexer.remaining lx <= fuel')%nat ->
  Lexer.tokens_loop fuel lx = Lexer.tokens_loop fuel' lx.
Proof.
  revert fuel' lx. induction fuel as [|fuel IH]; intros [|fuel'] lx Hlx H H';
    cbn [Lexer.tokens_loop];
    destruct (get_next_token_ahead lx Hlx) as [H0 H1];
    destruct (Lexer.get_next_token lx) as [tok lx1]; cbn [fst snd] in *;
    destruct (TokenType.eqb (type tok) TokenType.EOF) eqn:E; try reflexivity;
    assert (Hne : type tok <> TokenType.EOF)
      by (intros Heq; rewrite Heq in E; discriminate);
    pose proof (ahead_remaining _ _ _ (H1 Hne)) as Hr; try lia.
  f_equal. apply IH; [exact (ahead_inside _ _ _ H0) | lia | lia].
Qed.

End LexerProgress.

(** C8. The text starts with a digit: its first token is the longest
    prefix made of digits and at most one dot; what follows the token is
    not a digit, and is a dot only when the token has one already, which is
    not read. The token is a [FLOAT_LITERAL] when it has a dot and an
    [INTEGER] when it has none. So [1.2.3] is the float [1.2], a dot and the
    integer [3]. *)
Theorem number_maximal_run :
  (forall (c : ascii) (s : string),
      Char.isdigit c = true ->
      exists lexeme rest,
        String c s = lexeme ++ rest
        /\ Lexer.get_next_token (Lexer.new (String c s))
           = (mkToken (if (dots lexeme =? 1)%nat
                       then TokenType.FLOAT_LITERAL else TokenType.INTEGER)
                lexeme 1 1,
              Lexer.mk (String c s) (String.length lexeme) 1
                (1 + Z.of_nat (String.length lexeme)))
        /\ number_chars lexeme = true
        /\ (dots lexeme <= 1)%nat
        /\ match rest with
           | EmptyString => True
           | String d _ =>
               Char.isdigit d = false
               /\ (d = "."%char -> dots lexeme = 1%nat)
           end)
  /\ Lexer.tokens "1.2.3"
     = [mkToken TokenType.FLOAT_LITERAL "1.2" 1 1;
        mkToken TokenType.DOT "." 1 4;
        mkToken TokenType.INTEGER "3" 1 5;
        mkToken TokenType.EOF "" 1 6].
Proof.
  split; [exact first_token_of_digit | vm_compute; reflexivity].
Qed.

Lemma number_maximal_run_witness :
  Char.isdigit "1"%char = true
  /\ exists lexeme rest,
      "1.2.3" = lexeme ++ rest
      /\ Lexer.get_next_token (Lexer.new "1.2.3")
         = (mkToken (if (dots lexeme =? 1)%nat
                     then TokenType.FLOAT_LITERAL else TokenType.INTEGER)
              lexeme 1 1,
            Lexer.mk "1.2.3" (String.length lexeme) 1
              (1 + Z.of_nat (String.length lexeme)))
      /\ number_chars lexeme = true
      /\ (dots lexeme <= 1)%nat
      /\ match rest with
         | EmptyString => True
         | String d _ =>
             Char.isdigit d = false /\ (d = "."%char -> dots lexeme = 1%nat)
         end.
Proof.
  split; [reflexivity|].
  apply (proj1 number_maximal_run "1"%char ".2.3"). reflexivity.
Defined.

(** ** The parser *)

Section ParserMonad.

Import Parser.

Lemma bind_ok {A B : Type} (m : M A) (k : A -> M B) p b p' :
  bind m k p = Ok (b, p') ->
  exists a p1, m p = Ok (a, p1) /\ k a p1 = Ok (b, p').
Proof.
  unfold bind. destruct (m p) as [[a p1]|e]; [eauto | discriminate].
Qed.

Lemma ret_ok {A : Type} (a b : A) p p' :
  ret a p = Ok (b, p') -> b = a /\ p' = p.
Proof. unfold ret. now intros [= -> ->]. Qed.

Lemma current_ok p tok p' :
  current p = Ok (tok, p') -> tok = current_token p /\ p' = p.
Proof. unfold current. now intros [= <- <-]. Qed.

Lemma raise_ok {A : Type} e p (a : A) p' : raise e p = Ok (a, p') -> False.
Proof. discriminate. Qed.

End ParserMonad.

(** Decompose the successful runs of parsing methods among the hypotheses
    into the runs of their parts. *)
Ltac parser_inv :=
  repeat match goal with
  | H : Parser.bind _ _ _ = Ok _ |- _ =>
      let a := fresh "a" in let p := fresh "p" in let H1 := fresh "H" in
      apply bind_ok in H; destruct H as (a & p & H1 & H)
  | H : Parser.current _ = Ok _ |- _ =>
      apply current_ok in H; destruct H as [-> ->]
  | H : Parser.ret _ _ = Ok _ |- _ =>
      apply ret_ok in H; destruct H as [? ?]; subst
  | H : Parser.raise _ _ = Ok _ |- _ => now apply raise_ok in H
  | H : (if ?c then _ else _) _ = Ok _ |- _ =>
      let E := fresh "E" in destruct c eqn:E
  | H : (let _ := _ in _) _ = Ok _ |- _ => cbv zeta in H
  end.

(** ** The parser has fuel enough *)

Section ParserFuel.

Import Parser.

Lemma fine_weaken {A : Type} d d' (m : M A) p :
  fine d m p -> (d' <= d)%nat -> fine d' m p.
Proof.
  unfold fine. destruct (m p) as [[a p']|e]; [|tauto].
  intros [? ?] ?. split; [assumption | lia].
Qed.

Lemma fine_ret {A : Type} (a : A) p : well_placed p -> fine 0 (ret a) p.
Proof. unfold fine, ret. intros. split; [assumption | lia]. Qed.

Lemma fine_raise {A : Type} d e p :
  e <> OutOfFuel -> fine d (@raise A e) p.
Proof. unfold fine, raise. tauto. Qed.

Lemma fine_bind {A B : Type} d1 d (m : M A) (k : A -> M B) p :
  fine d1 m p ->
  (forall a p', m p = Ok (a, p') -> well_placed p' ->
                (ahead_of p' + d1 <= ahead_of p)%nat -> fine 0 (k a) p') ->
  (d <= d1)%nat ->
  fine d (bind m k) p.
Proof.
  unfold fine at 1 3, bind. destruct (m p) as [[a p']|e]; [|tauto].
  intros [Hw Hm] Hk Hd. specialize (Hk a p' eq_refl Hw Hm).
  unfold fine in Hk. destruct (k a p') as [[b p'']|e]; [|assumption].
  destruct Hk as [? ?]. split; [assumption | lia].
Qed.

Lemma fine_current_bind {B : Type} d (k : Token -> M B) p :
  fine d (k (current_token p)) p -> fine d (bind current k) p.
Proof. unfold fine, bind, current. tauto. Qed.

Lemma fine_lift_bind {A B : Type} d (r : Res A) (k : A -> M B) p :
  r <> Raise OutOfFuel ->
  (forall a, r = Ok a -> fine d (k a) p) ->
  fine d (bind (lift r) k) p.
Proof.
  unfold fine at 2, bind, lift. destruct r as [a|e]; intros Hr Hk.
  - exact (Hk a eq_refl).
  - congruence.
Qed.

Lemma fine_consume k p :
  well_placed p -> k <> TokenType.EOF -> fine 1 (consume k) p.
Proof.
  unfold fine, consume, well_placed, ahead_of. intros Hw Hk.
  destruct (TokenType.eqb (type (current_token p)) k) eqn:E;
    [|discriminate].
  destruct (get_next_token_ahead _ Hw) as [H0 H1].
  destruct (Lexer.get_next_token (lexer p)) as [next lx']. cbn [fst snd] in *.
  cbn [lexer current_token].
  split; [exact (ahead_inside _ _ _ H0)|].
  assert (TokenType.eqb (type (current_token p)) TokenType.EOF = false) as ->.
  { destruct (TokenType.eqb _ TokenType.EOF) eqn:E'; [|reflexivity].
    exfalso. apply Hk. revert E E'.
    destruct (type (current_token p)), k; vm_compute; congruence. }
  destruct (TokenType.eqb (type next) TokenType.EOF) eqn:En.
  - pose proof (ahead_remaining _ _ _ H0). lia.
  - assert (Hne : type next <> TokenType.EOF)
      by (intros Heq; rewrite Heq in En; discriminate).
    pose proof (ahead_remaining _ _ _ (H1 Hne)). lia.
Qed.

Lemma new_well_placed query :
  well_placed (Parser.new (Lexer.new query))
  /\ (ahead_of (Parser.new (Lexer.new query)) <= String.length query)%nat.
Proof.
  unfold Parser.new, well_placed, ahead_of.
  assert (Hi : inside (Lexer.new query)) by (unfold inside; cbn; lia).
  destruct (get_next_token_ahead _ Hi) as [H0 H1].
  destruct (Lexer.get_next_token _) as [tok lx']. cbn [fst snd] in *.
  cbn [lexer current_token].
  split; [exact (ahead_inside _ _ _ H0)|].
  assert (Hr : Lexer.remaining (Lexer.new query) = String.length query)
    by (unfold Lexer.remaining; cbn; lia).
  destruct (TokenType.eqb (type tok) TokenType.EOF) eqn:En.
  - pose proof (ahead_remaining _ _ _ H0). lia.
  - assert (Hne : type tok <> TokenType.EOF)
      by (intros Heq; rewrite Heq in En; discriminate).
    pose proof (ahead_remaining _ _ _ (H1 Hne)). lia.
Qed.

Lemma int_of_lexeme_raises s : Py.int_of_lexeme s <> Raise OutOfFuel.
Proof.
  unfold Py.int_of_lexeme. destruct s; [discriminate|].
  destruct (Py.digits_value _ _); discriminate.
Qed.

Lemma float_of_lexeme_raises s : Py.float_of_lexeme s <> Raise OutOfFuel.
Proof.
  unfold Py.float_of_lexeme.
  destruct (String.eqb s "" || String.eqb s "."); [discriminate|].
  destruct (Py.mantissa_digits _ _) as [[[] ?]|]; discriminate.
Qed.

(** A look-ahead other than [EOF] is still to be read. *)
Lemma ahead_of_positive p k :
  TokenType.eqb (type (current_token p)) k = true -> k <> TokenType.EOF ->
  (1 <= ahead_of p)%nat.
Proof.
  unfold ahead_of. intros E Hk.
  destruct (TokenType.eqb _ TokenType.EOF) eqn:E'; [|lia].
  exfalso. apply Hk. revert E E'.
  destruct (type (current_token p)), k; vm_compute; congruence.
Qed.

Lemma ahead_of_positive_mem p kinds :
  TokenType.mem (type (current_token p)) kinds = true ->
  TokenType.mem TokenType.EOF kinds = false ->
  (1 <= ahead_of p)%nat.
Proof.
  unfold ahead_of. intros E Hk.
  destruct (TokenType.eqb _ TokenType.EOF) eqn:E'; [|lia].
  assert (type (current_token p) = TokenType.EOF)
    by (revert E'; destruct (type (current_token p)); vm_compute; congruence).
  congruence.
Qed.

Lemma mem_not_EOF k kinds :
  TokenType.mem k kinds = true -> TokenType.mem TokenType.EOF kinds = false ->
  k <> TokenType.EOF.
Proof. congruence. Qed.

End ParserFuel.

(** One step of a proof of [fine]: the first call of a sequence, a branch
    on the look-ahead, or the end of the sequence. [fine_call] proves the
    calls of functions already dealt with. *)
Ltac fine_kind :=
  first [ discriminate
        | eapply mem_not_EOF; [eassumption | reflexivity] ].

Ltac fine_step fine_call :=
  lazymatch goal with
  | |- fine _ (Parser.bind Parser.current _) _ =>
      apply fine_current_bind; cbv beta
  | |- fine _ (Parser.bind (Parser.lift _) _) _ =>
      apply fine_lift_bind;
      [ first [apply int_of_lexeme_raises | apply float_of_lexeme_raises]
      | intros ? _ ]
  | |- fine _ (Parser.bind (Parser.consume _) _) _ =>
      eapply (fine_bind 1);
      [ apply fine_consume; [assumption | fine_kind]
      | intros ? ? _ ? ? | lia ]
  | |- fine _ (Parser.bind (if _ then _ else _) _) _ =>
      eapply (fine_bind 0); [ | intros ? ? _ ? ? | lia ]
  | |- fine _ (Parser.bind _ _) _ =>
      eapply fine_bind; [ fine_call | intros ? ? _ ? ? | lia ]
  | |- fine _ (Parser.ret _) _ =>
      eapply fine_weaken; [apply fine_ret; assumption | lia]
  | |- fine _ (Parser.raise (SyntaxError _)) _ =>
      apply fine_raise; discriminate
  | |- fine _ (Parser.consume _) _ =>
      eapply fine_weaken;
      [apply fine_consume; [assumption | fine_kind] | lia]
  | |- fine _ (if ?c then _ else _) _ => destruct c eqn:?
  | |- fine _ (let _ := _ in _) _ => cbv zeta
  | |- fine _ _ _ => eapply fine_weaken; [fine_call | lia]
  end.

Section ParserFuelEnough.

Import Parser.

Lemma literal_fine p : well_placed p -> fine 1 literal p.
Proof.
  intros Hw. unfold literal. repeat fine_step fail.
Qed.

(** The look-ahead is a token other than [EOF], so something is left. *)
Ltac fine_left :=
  match goal with
  | E : TokenType.eqb (type (current_token ?p)) _ = true |- _ =>
      pose proof (ahead_of_positive p _ E ltac:(discriminate))
  | E : TokenType.mem (type (current_token ?p)) _ = true |- _ =>
      pose proof (ahead_of_positive_mem p _ E eq_refl)
  end.

Lemma expression_fine fuel p :
  well_placed p -> (ahead_of p <= fuel)%nat -> fine 1 (expression fuel) p.
Proof.
  revert p. induction fuel as [|fuel IH]; intros p Hw Hf;
    cbn [expression];
    repeat fine_step ltac:(first [ now apply literal_fine
                                 | apply IH; [assumption | lia] ]).
  fine_left. lia.
Qed.

Lemma comma_loop_fine {A : Type} fuel (item : M A) items p :
  well_placed p -> (ahead_of p <= fuel)%nat ->
  (forall p', well_placed p' -> (ahead_of p' < ahead_of p)%nat ->
              fine 1 item p') ->
  fine 0 (comma_loop fuel item items) p.
Proof.
  revert items p. induction fuel as [|fuel IH]; intros items p Hw Hf Hitem;
    cbn [comma_loop];
    repeat fine_step ltac:(first [ apply Hitem; [assumption | lia]
                                 | apply IH; [assumption | lia |] ]).
  - fine_left. lia.
  - intros p2 ? ?. apply Hitem; [assumption | lia].
Qed.

Lemma column_list_fine fuel p :
  well_placed p -> (ahead_of p <= fuel)%nat -> fine 1 (column_list fuel) p.
Proof.
  intros Hw Hf. unfold column_list.
  repeat fine_step ltac:(first
    [ apply expression_fine; [assumption | lia]
    | apply comma_loop_fine; [assumption | lia |] ]).
  intros p2 ? ?. apply expression_fine; [assumption | lia].
Qed.

Lemma table_reference_fine p : well_placed p -> fine 1 table_reference p.
Proof. intros Hw. unfold table_reference. repeat fine_step fail. Qed.

Lemma table_list_fine fuel p :
  well_placed p -> (ahead_of p <= fuel)%nat -> fine 1 (table_list fuel) p.
Proof.
  intros Hw Hf. unfold table_list.
  repeat fine_step ltac:(first
    [ now apply table_reference_fine
    | apply comma_loop_fine; [assumption | lia |] ]).
  intros p2 ? ?. now apply table_reference_fine.
Qed.

Lemma connective_loop_fine fuel (rec : M ASTNode) node p :
  well_placed p -> (ahead_of p <= fuel)%nat ->
  (forall p', well_placed p' -> (ahead_of p' < ahead_of p)%nat ->
              fine 1 rec p') ->
  fine 0 (connective_loop fuel rec node) p.
Proof.
  revert node p. induction fuel as [|fuel IH]; intros node p Hw Hf Hrec;
    cbn [connective_loop];
    repeat fine_step ltac:(first [ apply Hrec; [assumption | lia]
                                 | apply IH; [assumption | lia |] ]).
  - fine_left. lia.
  - intros p2 ? ?. apply Hrec; [assumption | lia].
Qed.

Lemma condition_fine fuel p :
  well_placed p -> (ahead_of p <= fuel)%nat -> fine 1 (condition fuel) p.
Proof.
  revert p. induction fuel as [|fuel IH]; intros p Hw Hf;
    cbn [condition];
    repeat fine_step ltac:(first
      [ apply expression_fine; [assumption | lia]
      | apply connective_loop_fine; [assumption | lia |] ]);
    intros p2 ? ?; first [lia | apply IH; [assumption | lia]].
Qed.

Lemma join_clause_fine fuel p :
  well_placed p -> (ahead_of p <= fuel)%nat -> fine 1 (join_clause fuel) p.
Proof.
  intros Hw Hf. unfold join_clause.
  repeat fine_step ltac:(first
    [ now apply table_reference_fine
    | apply condition_fine; [assumption | lia] ]).
Qed.

Lemma join_loop_fine fuel fuel_loop joins p :
  well_placed p -> (ahead_of p <= fuel)%nat ->
  (ahead_of p <= fuel_loop)%nat ->
  fine 0 (join_loop fuel fuel_loop joins) p.
Proof.
  revert joins p.
  induction fuel_loop as [|fuel_loop IH]; intros joins p Hw Hf Hl;
    cbn [join_loop];
    repeat fine_step ltac:(first
      [ apply join_clause_fine; [assumption | lia]
      | apply IH; [assumption | lia | lia] ]).
  fine_left. lia.
Qed.

Lemma where_clause_fine fuel p :
  well_placed p -> (ahead_of p <= fuel)%nat -> fine 0 (where_clause fuel) p.
Proof.
  intros Hw Hf. unfold where_clause.
  repeat fine_step ltac:(apply condition_fine; [assumption | lia]).
Qed.

Lemma table_name_fine p : well_placed p -> fine 1 table_name p.
Proof. intros Hw. unfold table_name. repeat fine_step fail. Qed.

Lemma set_clause_fine fuel p :
  well_placed p -> (ahead_of p <= fuel)%nat -> fine 1 (set_clause fuel) p.
Proof.
  intros Hw Hf. unfold set_clause.
  repeat fine_step ltac:(apply expression_fine; [assumption | lia]).
Qed.

Lemma column_definition_fine p : well_placed p -> fine 1 column_definition p.
Proof. intros Hw. unfold column_definition. repeat fine_step fail. Qed.

(** The calls a statement is made of. *)
Ltac fine_part :=
  first [ now apply table_reference_fine
        | now apply table_name_fine
        | now apply column_definition_fine
        | apply expression_fine; [assumption | lia]
        | apply condition_fine; [assumption | lia]
        | apply set_clause_fine; [assumption | lia]
        | apply column_list_fine; [assumption | lia]
        | apply table_list_fine; [assumption | lia]
        | apply join_loop_fine; [assumption | lia | lia]
        | apply where_clause_fine; [assumption | lia]
        | apply comma_loop_fine;
          [assumption | lia | intros ? ? ?; fine_part] ].

Lemma select_statement_fine fuel p :
  well_placed p -> (ahead_of p <= fuel)%nat ->
  fine 1 (select_statement fuel) p.
Proof.
  intros Hw Hf. unfold select_statement. repeat fine_step fine_part.
Qed.

Lemma insert_statement_fine fuel p :
  well_placed p -> (ahead_of p <= fuel)%nat ->
  fine 1 (insert_statement fuel) p.
Proof.
  intros Hw Hf. unfold insert_statement. repeat fine_step fine_part.
Qed.

Lemma update_statement_fine fuel p :
  well_placed p -> (ahead_of p <= fuel)%nat ->
  fine 1 (update_statement fuel) p.
Proof.
  intros Hw Hf. unfold update_statement. repeat fine_step fine_part.
Qed.

Lemma delete_statement_fine fuel p :
  well_placed p -> (ahead_of p <= fuel)%nat ->
  fine 1 (delete_statement fuel) p.
Proof.
  intros Hw Hf. unfold delete_statement. repeat fine_step fine_part.
Qed.

Lemma create_statement_fine fuel p :
  well_placed p -> (ahead_of p <= fuel)%nat ->
  fine 1 (create_statement fuel) p.
Proof.
  intros Hw Hf. unfold create_statement. repeat fine_step fine_part.
Qed.

Lemma drop_statement_fine p : well_placed p -> fine 1 drop_statement p.
Proof. intros Hw. unfold drop_statement. repeat fine_step fine_part. Qed.

Lemma parse_fine fuel p :
  well_placed p -> (ahead_of p <= fuel)%nat -> fine 1 (parse fuel) p.
Proof.
  intros Hw Hf. unfold parse, sql_statement.
  repeat fine_step ltac:(first
    [ apply select_statement_fine | apply insert_statement_fine
    | apply update_statement_fine | apply delete_statement_fine
    | apply create_statement_fine | apply drop_statement_fine ];
    solve [assumption | lia]).
Qed.

(** The fuel [parse_query] gives the parser is enough for every text. *)
Lemma parse_query_fuel query : parse_query query <> Raise OutOfFuel.
Proof.
  unfold parse_query.
  destruct (new_well_placed query) as [Hw Hf].
  pose proof (parse_fine (String.length query) _ Hw Hf) as H.
  unfold fine in H.
  destruct (parse _ _) as [[ast p']|e]; [discriminate|].
  cbn. congruence.
Qed.

End ParserFuelEnough.

Section RightNesting.

Lemma literal_not_connective p n p' :
  Parser.literal p = Ok (n, p') -> is_connective n = false.
Proof. unfold Parser.literal. intros H. parser_inv; reflexivity. Qed.

Lemma expression_not_connective fuel p n p' :
  Parser.expression fuel p = Ok (n, p') -> is_connective n = false.
Proof.
  revert p n p'. induction fuel as [|fuel IH]; intros p n p' H;
    cbn [Parser.expression] in H; parser_inv; try reflexivity;
    eauto using literal_not_connective.
Qed.

Lemma not_connective_right_nested n :
  is_connective n = false -> right_nested n = true.
Proof. destruct n; cbn; try reflexivity. now intros ->. Qed.

(** The loop of [condition] makes one round at most: the condition it
    parses as right operand leaves no [AND] and no [OR] behind. *)
Lemma connective_loop_once fuel (rec : Parser.M ASTNode) node p n p' :
  (forall q r q',
      rec q = Ok (r, q') ->
      TokenType.mem (type (Parser.current_token q'))
        [TokenType.AND; TokenType.OR] = false
      /\ right_nested r = true) ->
  is_connective node = false ->
  right_nested node = true ->
  Parser.connective_loop fuel rec node p = Ok (n, p') ->
  TokenType.mem (type (Parser.current_token p'))
    [TokenType.AND; TokenType.OR] = false
  /\ right_nested n = true.
Proof.
  intros Hrec Hnode Hnested H.
  destruct fuel as [|fuel]; cbn [Parser.connective_loop] in H; parser_inv;
    auto.
  match goal with
  | H : rec _ = Ok _ |- _ => destruct (Hrec _ _ _ H) as [Hcur Hr]
  end.
  destruct fuel as [|fuel]; cbn [Parser.connective_loop] in H; parser_inv;
    try congruence; split; auto; cbn [right_nested];
    rewrite E, Hnode, Hr; reflexivity.
Qed.

Lemma condition_right_nested fuel p n p' :
  Parser.condition fuel p = Ok (n, p') ->
  TokenType.mem (type (Parser.current_token p'))
    [TokenType.AND; TokenType.OR] = false
  /\ right_nested n = true.
Proof.
  revert p n p'. induction fuel as [|fuel IH]; intros p n p' H;
    cbn [Parser.condition] in H; parser_inv.
  all: eapply connective_loop_once in H; eauto.
  all: try (intros q r q' Hq; now apply raise_ok in Hq).
  all: try (cbn [is_connective right_nested];
            unfold Parser.comparison_operators in E).
  all: try (eapply expression_not_connective; eauto).
  all: try (destruct (type (Parser.current_token p0)); try discriminate;
            reflexivity).
  all: apply not_connective_right_nested;
    eapply expression_not_connective; eauto.
Qed.

End RightNesting.

(** C5. Every condition the parser builds nests its connectives to the
    right: the left operand of an [AND] or an [OR] is never an [AND] or an
    [OR]. So [a AND b AND c] is [a AND (b AND c)] and [a AND b OR c] is
    [a AND (b OR c)]. *)
Theorem condition_right_associated :
  (forall fuel p n p',
      Parser.condition fuel p = Ok (n, p') -> right_nested n = true)
  /\ parse_query "SELECT * FROM t WHERE a AND b AND c"
     = Ok (SelectStmt [Identifier "*"] [TableRef "t"] []
             (Some (Condition (Identifier "a") TokenType.AND
                      (Condition (Identifier "b") TokenType.AND
                         (Identifier "c")))))
  /\ parse_query "SELECT * FROM t WHERE a AND b OR c"
     = Ok (SelectStmt [Identifier "*"] [TableRef "t"] []
             (Some (Condition (Identifier "a") TokenType.AND
                      (Condition (Identifier "b") TokenType.OR
                         (Identifier "c"))))).
Proof.
  split; [|split; vm_compute; reflexivity].
  intros fuel p n p' H. now apply condition_right_nested in H.
Qed.

Lemma condition_right_associated_witness :
  Parser.condition 2%nat (Parser.new (Lexer.new "a = 1 AND b OR c"))
  = Ok (Condition
          (Condition (Identifier "a") TokenType.EQUALS
             (Literal TokenType.INTEGER (Py.VInt 1)))
          TokenType.AND
          (Condition (Identifier "b") TokenType.OR (Identifier "c")),
        Parser.mk (Lexer.mk "a = 1 AND b OR c" 16 1 17)
          (mkToken TokenType.EOF "" 1 17))
  /\ right_nested
       (Condition
          (Condition (Identifier "a") TokenType.EQUALS
             (Literal TokenType.INTEGER (Py.VInt 1)))
          TokenType.AND
          (Condition (Identifier "b") TokenType.OR (Identifier "c")))
     = true.
Proof.
  split; [vm_compute; reflexivity|].
  apply (proj1 condition_right_associated 2%nat
           (Parser.new (Lexer.new "a = 1 AND b OR c")) _
           (Parser.mk (Lexer.mk "a = 1 AND b OR c" 16 1 17)
              (mkToken TokenType.EOF "" 1 17))).
  vm_compute; reflexivity.
Defined.

Section NoNot.

Lemma literal_no_not p n p' :
  Parser.literal p = Ok (n, p') -> has_not n = false.
Proof. unfold Parser.literal. intros H. parser_inv; reflexivity. Qed.

Lemma expression_no_not fuel p n p' :
  Parser.expression fuel p = Ok (n, p') -> has_not n = false.
Proof.
  revert p n p'. induction fuel as [|fuel IH]; intros p n p' H;
    cbn [Parser.expression] in H; parser_inv; try reflexivity;
    eauto using literal_no_not.
Qed.

Lemma comma_loop_no_not fuel (item : Parser.M ASTNode) items p ns p' :
  (forall q n q', item q = Ok (n, q') -> has_not n = false) ->
  existsb has_not items = false ->
  Parser.comma_loop fuel item items p = Ok (ns, p') ->
  existsb has_not ns = false.
Proof.
  intros Hitem. revert items p.
  induction fuel as [|fuel IH]; intros items p Hitems H;
    cbn [Parser.comma_loop] in H; parser_inv; auto.
  eapply IH; [|eassumption]. rewrite existsb_app, Hitems. cbn.
  erewrite Hitem by eassumption. reflexivity.
Qed.

Lemma connective_loop_no_not fuel (rec : Parser.M ASTNode) node p n p' :
  (forall q r q', rec q = Ok (r, q') -> has_not r = false) ->
  has_not node = false ->
  Parser.connective_loop fuel rec node p = Ok (n, p') ->
  has_not n = false.
Proof.
  intros Hrec. revert node p.
  induction fuel as [|fuel IH]; intros node p Hnode H;
    cbn [Parser.connective_loop] in H; parser_inv; auto.
  eapply IH; [|eassumption]. cbn [has_not]. rewrite Hnode.
  erewrite Hrec by eassumption.
  destruct (type (Parser.current_token p)); try discriminate; reflexivity.
Qed.

Lemma condition_no_not fuel p n p' :
  Parser.condition fuel p = Ok (n, p') -> has_not n = false.
Proof.
  revert p n p'. induction fuel as [|fuel IH]; intros p n p' H;
    cbn [Parser.condition] in H; parser_inv.
  all: eapply connective_loop_no_not in H; eauto.
  all: try (intros q r q' Hq; now apply raise_ok in Hq).
  all: repeat match goal with
         | H : Parser.expression _ _ = Ok _ |- _ =>
             apply expression_no_not in H
         end; cbn [has_not]; try assumption.
  all: unfold Parser.comparison_operators in *.
  all: match goal with
       | H : has_not ?a = false, H' : has_not ?b = false |- _ =>
           rewrite H, H'
       end.
  all: destruct (type (Parser.current_token p0)); try discriminate;
    reflexivity.
Qed.

Lemma column_list_no_not fuel p ns p' :
  Parser.column_list fuel p = Ok (ns, p') -> existsb has_not ns = false.
Proof.
  unfold Parser.column_list. intros H. parser_inv; [reflexivity|].
  eapply comma_loop_no_not in H; eauto using expression_no_not.
  cbn. erewrite expression_no_not by eassumption. reflexivity.
Qed.

Lemma table_reference_no_not p n p' :
  Parser.table_reference p = Ok (n, p') -> has_not n = false.
Proof. unfold Parser.table_reference. intros H. parser_inv. reflexivity. Qed.

Lemma table_list_no_not fuel p ns p' :
  Parser.table_list fuel p = Ok (ns, p') -> existsb has_not ns = false.
Proof.
  unfold Parser.table_list. intros H. parser_inv.
  eapply comma_loop_no_not in H; eauto using table_reference_no_not.
  cbn. erewrite table_reference_no_not by eassumption. reflexivity.
Qed.

Lemma join_clause_no_not fuel p n p' :
  Parser.join_clause fuel p = Ok (n, p') -> has_not n = false.
Proof.
  unfold Parser.join_clause. intros H. parser_inv. cbn.
  erewrite table_reference_no_not, condition_no_not by eassumption.
  reflexivity.
Qed.

Lemma join_loop_no_not fuel k joins p ns p' :
  existsb has_not joins = false ->
  Parser.join_loop fuel k joins p = Ok (ns, p') ->
  existsb has_not ns = false.
Proof.
  revert joins p. induction k as [|k IH]; intros joins p Hjoins H;
    cbn [Parser.join_loop] in H; parser_inv; auto.
  eapply IH; [|eassumption]. rewrite existsb_app, Hjoins. cbn.
  erewrite join_clause_no_not by eassumption. reflexivity.
Qed.

Lemma where_clause_no_not fuel p w p' :
  Parser.where_clause fuel p = Ok (w, p') ->
  match w with Some c => has_not c | None => false end = false.
Proof.
  unfold Parser.where_clause. intros H. parser_inv; [|reflexivity].
  eauto using condition_no_not.
Qed.

Lemma table_name_no_not p n p' :
  Parser.table_name p = Ok (n, p') -> has_not n = false.
Proof. unfold Parser.table_name. intros H. parser_inv. reflexivity. Qed.

Lemma set_clause_no_not fuel p n p' :
  Parser.set_clause fuel p = Ok (n, p') -> has_not n = false.
Proof.
  unfold Parser.set_clause. intros H. parser_inv. cbn.
  eauto using expression_no_not.
Qed.

Lemma column_definition_no_not p n p' :
  Parser.column_definition p = Ok (n, p') -> has_not n = false.
Proof.
  unfold Parser.column_definition. intros H. parser_inv. reflexivity.
Qed.

(** Replace each successful run of a parsing method by what it says of
    its result. *)
Ltac no_not_forward :=
  repeat match goal with
  | H : Parser.consume _ _ = Ok _ |- _ => clear H
  | H : Parser.table_name _ = Ok _ |- _ => apply table_name_no_not in H
  | H : Parser.column_list _ _ = Ok _ |- _ => apply column_list_no_not in H
  | H : Parser.table_list _ _ = Ok _ |- _ => apply table_list_no_not in H
  | H : Parser.where_clause _ _ = Ok _ |- _ => apply where_clause_no_not in H
  | H : Parser.join_loop _ _ [] _ = Ok _ |- _ =>
      apply join_loop_no_not in H; [|reflexivity]
  | H : Parser.comma_loop _ _ [?x] _ = Ok _,
    Hx : has_not ?x = false |- _ =>
      apply comma_loop_no_not in H;
      [|eauto using expression_no_not, set_clause_no_not,
          column_definition_no_not
       |cbn; rewrite Hx; reflexivity]
  | H : Parser.expression _ _ = Ok _ |- _ => apply expression_no_not in H
  | H : Parser.set_clause _ _ = Ok _ |- _ => apply set_clause_no_not in H
  | H : Parser.column_definition _ = Ok _ |- _ =>
      apply column_definition_no_not in H
  end.

Lemma parse_no_not fuel p ast p' :
  Parser.parse fuel p = Ok (ast, p') -> has_not ast = false.
Proof.
  unfold Parser.parse, Parser.sql_statement, Parser.select_statement,
    Parser.insert_statement, Parser.update_statement,
    Parser.delete_statement, Parser.create_statement, Parser.drop_statement.
  intros H. parser_inv; no_not_forward; cbn [has_not existsb];
    repeat match goal with H : _ = false |- _ => rewrite H; clear H end;
    reflexivity.
Qed.

Lemma expression_rejects_not fuel p :
  type (Parser.current_token p) = TokenType.NOT ->
  Parser.expression fuel p
  = Raise (SyntaxError (UnexpectedInExpression TokenType.NOT)).
Proof.
  intros H. destruct fuel; cbn [Parser.expression];
    unfold Parser.bind, Parser.current; rewrite H; reflexivity.
Qed.

Lemma condition_rejects_not fuel p :
  type (Parser.current_token p) = TokenType.NOT ->
  Parser.condition fuel p
  = Raise (SyntaxError (UnexpectedInExpression TokenType.NOT)).
Proof.
  intros H. destruct fuel; cbn [Parser.condition]; unfold Parser.bind at 1;
    now rewrite expression_rejects_not.
Qed.

Lemma no_not_branch condition table row :
  has_not condition = false -> not_branch_reached condition table row = false.
Proof.
  induction condition; cbn; try reflexivity.
  intros H. apply orb_false_iff in H as [H H2].
  apply orb_false_iff in H as [H0 H1].
  rewrite H0, IHcondition1 by assumption. cbn.
  destruct (TokenType.eqb operator TokenType.AND),
    (TokenType.eqb operator TokenType.OR); try reflexivity;
    destruct (fst (Database._evaluate_condition condition1 table row))
      as [[]|]; auto.
Qed.

End NoNot.

(** C10. No tree the parser returns has a condition node with the operator
    [NOT]; a [NOT] where an expression or a condition is to start is a
    syntax error; and the evaluation of a condition of a parsed tree never
    takes the [NOT] branch of [_evaluate_condition]. *)
Theorem parser_never_produces_not :
  (forall fuel p ast p',
      Parser.parse fuel p = Ok (ast, p') -> has_not ast = false)
  /\ (forall query ast, parse_query query = Ok ast -> has_not ast = false)
  /\ (forall fuel p,
         type (Parser.current_token p) = TokenType.NOT ->
         Parser.expression fuel p
         = Raise (SyntaxError (UnexpectedInExpression TokenType.NOT))
         /\ Parser.condition fuel p
            = Raise (SyntaxError (UnexpectedInExpression TokenType.NOT)))
  /\ (forall condition table row,
         has_not condition = false ->
         not_branch_reached condition table row = false)
  /\ parse_query "SELECT * FROM t WHERE NOT a = 1"
     = Raise (SyntaxError (UnexpectedInExpression TokenType.NOT)).
Proof.
  split; [exact parse_no_not|]. split.
  - intros query ast. unfold parse_query.
    destruct (Parser.parse _ _) as [[a p]|e] eqn:E; [|discriminate].
    intros [= <-]. eapply parse_no_not; eassumption.
  - split; [|split; [exact no_not_branch | vm_compute; reflexivity]].
    intros fuel p H. split;
      [now apply expression_rejects_not | now apply condition_rejects_not].
Qed.

Lemma parser_never_produces_not_witness :
  parse_query "DELETE FROM t WHERE a = 1 OR b"
  = Ok (DeleteStmt (Identifier "t")
          (Some (Condition
                   (Condition (Identifier "a") TokenType.EQUALS
                      (Literal TokenType.INTEGER (Py.VInt 1)))
                   TokenType.OR (Identifier "b"))))
  /\ has_not
       (DeleteStmt (Identifier "t")
          (Some (Condition
                   (Condition (Identifier "a") TokenType.EQUALS
                      (Literal TokenType.INTEGER (Py.VInt 1)))
                   TokenType.OR (Identifier "b"))))
     = false.
Proof.
  split; [vm_compute; reflexivity|].
  apply (proj1 (proj2 parser_never_produces_not)
           "DELETE FROM t WHERE a = 1 OR b").
  vm_compute; reflexivity.
Defined.

(** ** The regenerator *)

Lemma generate_expression_error expr e :
  SQLGenerator.generate_expression expr = Raise e -> e = ValueError.
Proof.
  induction expr; cbn; try (intros [= <-]; reflexivity); try discriminate.
  - unfold SQLGenerator.generate_literal. cbn.
    repeat match goal with
           | |- context [TokenType.eqb ?a ?b] => destruct (TokenType.eqb a b)
           end; cbn; try discriminate.
    now intros [= <-].
  - destruct (SQLGenerator.generate_expression expr1); cbn;
      [|now intros [= <-]; auto].
    destruct (SQLGenerator.generate_expression expr2); cbn; [discriminate|].
    intros [= <-]; auto.
Qed.

(** C1. [generate_condition] gives both operands of a condition node to
    [generate_expression], which has no case for condition nodes: rendering
    raises [ValueError] on every condition one of whose operands is itself
    a condition node, as the parser builds them for [a = 1 AND b = 2] and
    for [a AND b OR c]. *)
Theorem render_raises_on_chained_condition :
  (forall l1 op1 r1 op r,
      SQLGenerator.generate_condition (Condition (Condition l1 op1 r1) op r)
      = Raise ValueError)
  /\ (forall l op l2 op2 r2,
         SQLGenerator.generate_condition
           (Condition l op (Condition l2 op2 r2))
         = Raise ValueError)
  /\ (let ast :=
        SelectStmt [Identifier "*"] [TableRef "t"] []
          (Some (Condition
                   (Condition (Identifier "a") TokenType.EQUALS
                      (Literal TokenType.INTEGER (Py.VInt 1)))
                   TokenType.AND
                   (Condition (Identifier "b") TokenType.EQUALS
                      (Literal TokenType.INTEGER (Py.VInt 2))))) in
      parse_query "SELECT * FROM t WHERE a = 1 AND b = 2" = Ok ast
      /\ SQLGenerator.generate_sql ast = Raise ValueError)
  /\ (let ast :=
        SelectStmt [Identifier "*"] [TableRef "t"] []
          (Some (Condition (Identifier "a") TokenType.AND
                   (Condition (Identifier "b") TokenType.OR
                      (Identifier "c")))) in
      parse_query "SELECT * FROM t WHERE a AND b OR c" = Ok ast
      /\ SQLGenerator.generate_sql ast = Raise ValueError).
Proof.
  split; [reflexivity|]. split.
  - intros l op l2 op2 r2. cbn.
    destruct (SQLGenerator.generate_expression l) eqn:E; cbn; [reflexivity|].
    now rewrite (generate_expression_error _ _ E).
  - split; split; vm_compute; reflexivity.
Qed.

(** ** The database *)

(** Unfold the plumbing of the statement monad. *)
Ltac exec_unfold :=
  do 2 unfold Database.execute_query, Database._execute_select,
    Database._execute_insert, Database._execute_update,
    Database._execute_delete, Database._execute_create,
    Database._execute_drop, Database.add_row, Database.bind, Database.lift,
    Database.get_table, Database.io, Database.store_table, Database.print,
    Database.ret, IO.print, IO.ret, IO.lift.

Section ListAccess.

Context {A : Type}.

Lemma getitem_0 (x : A) (l : list A) : Py.getitem (x :: l) 0 = Ok x.
Proof.
  unfold Py.getitem, Py.index.
  replace (0 <? Z.of_nat (length (x :: l))) with true
    by (symmetry; apply Z.ltb_lt; cbn [length]; lia).
  reflexivity.
Qed.



End ListAccess.

Section ColumnLookup.

Lemma get_column_index_from_text i cols name :
  Forall (fun col => exists s, ColumnDef.name col = AST.Text s) cols ->
  exists k,
    Table.get_column_index_from i cols (AST.Text name) = Ok k
    /\ (k = -1 \/ i <= k).
Proof.
  intros H. revert i. induction H as [|col cols [s Hs] _ IH]; intros i; cbn.
  - eauto.
  - rewrite Hs. cbn. destruct (String.eqb _ _).
    + exists i. split; [reflexivity | lia].
    + destruct (IH (i + 1)) as (k & -> & Hk).
      exists k. split; [reflexivity | lia].
Qed.

Lemma get_column_index_from_range start cols name k :
  Table.get_column_index_from start cols name = Ok k ->
  k = -1 \/ (start <= k < start + Z.of_nat (length cols)).
Proof.
  revert start. induction cols as [|col cols IH]; intros start; cbn.
  - intros [= <-]. now left.
  - destruct (AST.lower (ColumnDef.name col)); [|discriminate]. cbn.
    destruct (AST.lower name); [|discriminate]. cbn.
    destruct (String.eqb _ _).
    + intros [= <-]. right. lia.
    + intros H. apply IH in H. lia.
Qed.

Lemma column_at_range table name i :
  column_at table name i -> 0 <= i < Z.of_nat (length (Table.columns table)).
Proof. intros [H Hne]. apply get_column_index_from_range in H. lia. Qed.

Lemma resolve_columns_known table tname names idxs indices :
  Forall2 (column_at table) names idxs ->
  Database.resolve_columns table tname (map Identifier names) indices
  = (Ok (Some (indices ++ idxs)%list), []).
Proof.
  intros H. revert indices.
  induction H as [|n i names idxs [Hi Hne] _ IH]; intros indices; cbn.
  - now rewrite app_nil_r.
  - rewrite Hi. cbn. destruct (Z.eqb_spec i (-1)); [contradiction|].
    rewrite IH, <- app_assoc. reflexivity.
Qed.

Lemma resolve_columns_unknown table tname names indices :
  text_named table ->
  Exists (unknown_column table) names ->
  exists name,
    In name names
    /\ unknown_column table name
    /\ Database.resolve_columns table tname (map Identifier names) indices
       = (Ok None, [ColumnNotFound (AST.Text name) tname]).
Proof.
  intros Htext Hex. revert indices.
  induction names as [|n names IH]; intros indices; [inversion Hex|].
  cbn [map Database.resolve_columns].
  destruct (get_column_index_from_text 0 (Table.columns table) n Htext)
    as (k & Hk & Hrange).
  unfold Table.get_column_index. cbn. rewrite Hk. cbn.
  destruct (Z.eqb_spec k (-1)) as [->|Hne].
  - exists n. repeat split; [now left | exact Hk].
  - assert (Hex' : Exists (unknown_column table) names).
    { inversion Hex as [? ? Hu|]; subst; [|assumption].
      unfold unknown_column, Table.get_column_index in Hu. congruence. }
    destruct (IH Hex' (indices ++ [k])%list) as (name & Hin & Hu & ->).
    exists name. repeat split; [now right | exact Hu].
Qed.

End ColumnLookup.

Section TypeInvariant.

Lemma validate_type_conforms value declared :
  Table._validate_type value declared = true -> conforms value declared = true.
Proof. destruct value, declared; cbn; congruence. Qed.

Lemma first_mismatch_conforms values columns :
  length values = length columns ->
  Table.first_mismatch values columns = None ->
  row_conforms columns values = true.
Proof.
  unfold row_conforms. intros Hlen. rewrite Hlen, Nat.eqb_refl. cbn.
  revert columns Hlen. induction values as [|v values IH];
    intros [|c columns] Hlen; cbn; try reflexivity; try discriminate.
  destruct (Table._validate_type v (ColumnDef.type c)) eqn:Hv; [|discriminate].
  intros H. rewrite (validate_type_conforms _ _ Hv). cbn.
  apply IH; [cbn in Hlen; lia | exact H].
Qed.

(** The path of [INSERT] keeps the invariant: [add_row] takes a row only
    when it conforms. *)
Lemma add_row_keeps_invariant table values :
  table_invariant table = true ->
  table_invariant (snd (fst (Table.add_row table values))) = true.
Proof.
  intros Hinv. unfold Table.add_row.
  destruct (Nat.eqb_spec (length values) (length (Table.columns table)))
    as [Hlen|]; cbn [negb]; [|exact Hinv].
  destruct (Table.first_mismatch values (Table.columns table)) eqn:Hm;
    [exact Hinv|].
  cbn. unfold table_invariant in *. cbn.
  rewrite forallb_app, Hinv. cbn.
  now rewrite first_mismatch_conforms.
Qed.

End TypeInvariant.

(** [_execute_create] gives [ColumnDef] the identifier node of a column
    where [create_table] expects its name. A table made by a [CREATE]
    statement takes rows by position, but every search of a column by name
    in it raises [AttributeError]; the tables of the properties below have
    text names, as [create_table] makes them. *)
Lemma statement_made_table_has_node_names :
  let create := run_statement "CREATE TABLE t (id INT, name TEXT)" in
  let db1 := after Database.new create in
  let db2 := after db1 (run_statement "INSERT INTO t VALUES (1, 'a')") in
  outcome Database.new create = Ok true
  /\ outcome db1 (run_statement "INSERT INTO t VALUES (1, 'a')") = Ok true
  /\ rows_of db2 "t" = [[Py.VInt 1; Py.VStr "a"]]
  /\ outcome db2 (run_statement "UPDATE t SET id = 'x'") = Raise AttributeError
  /\ outcome db2 (run_statement "SELECT id FROM t") = Raise AttributeError
  /\ outcome db2 (run_statement "DELETE FROM t WHERE id = 1")
     = Raise AttributeError
  /\ outcome db2 (run_statement "INSERT INTO t (id) VALUES (2)")
     = Raise AttributeError.
Proof. vm_compute. repeat split. Qed.

(** C2. [UPDATE] writes the value of its right-hand side into the rows
    without checking it against the type of the column, which [INSERT]
    does: after [UPDATE t SET id = 'x'] the [INT] column [id] holds text,
    and the invariant that held before is broken; the same value is
    refused by [INSERT]. *)
Theorem update_stores_value_of_wrong_type :
  let db1 :=
    after example_db (run_statement "INSERT INTO t VALUES (1, 'a')") in
  let db2 := after db1 (run_statement "UPDATE t SET id = 'x'") in
  database_invariant db1 = true
  /\ outcome db1 (run_statement "UPDATE t SET id = 'x'") = Ok true
  /\ rows_of db2 "t" = [[Py.VStr "x"; Py.VStr "a"]]
  /\ database_invariant db2 = false
  /\ outcome db1 (run_statement "INSERT INTO t VALUES ('x', 'a')")
     = Ok false.
Proof. vm_compute. repeat split. Qed.

(** Evaluating a condition never reports a missing column. *)
Section Silent.

Lemma silent_bind {A B : Type} (m : IO A) (k : A -> IO B) :
  silent_on_columns m = true ->
  (forall a, silent_on_columns (k a) = true) ->
  silent_on_columns (IO.bind m k) = true.
Proof.
  unfold silent_on_columns, IO.bind. destruct m as [[a|e] out]; cbn [snd].
  - intros Hm Hk. specialize (Hk a). destruct (k a) as [r out'].
    cbn [snd] in *. now rewrite forallb_app, Hm, Hk.
  - auto.
Qed.

Lemma silent_lift {A : Type} (r : Res A) : silent_on_columns (IO.lift r) = true.
Proof. reflexivity. Qed.

Ltac silent :=
  repeat first
    [ reflexivity
    | apply silent_lift
    | assumption
    | apply silent_bind; [|intros ?]
    | match goal with
      | |- silent_on_columns (if ?c then _ else _) = true => destruct c
      | |- silent_on_columns (match ?x with _ => _ end) = true => destruct x
      end ].

Lemma evaluate_expression_silent expr table row :
  silent_on_columns (Database._evaluate_expression expr table row) = true.
Proof.
  induction expr; cbn [Database._evaluate_expression]; silent.
Qed.

Lemma evaluate_condition_silent condition table row :
  silent_on_columns (Database._evaluate_condition condition table row) = true.
Proof.
  induction condition; cbn [Database._evaluate_condition];
    try (apply silent_bind; [apply evaluate_expression_silent | reflexivity]).
  repeat first
    [ reflexivity
    | apply silent_lift
    | assumption
    | apply evaluate_expression_silent
    | apply silent_bind; [|intros ?]
    | match goal with
      | |- silent_on_columns (if ?c then _ else _) = true => destruct c
      end ].
Qed.

End Silent.

Lemma identifier_lenient table row name :
  unknown_column table name ->
  Database._evaluate_expression (Identifier name) (Some table) (Some row)
  = (Ok (Py.VStr name), []).
Proof.
  unfold unknown_column. intros H. cbn. destruct row; [reflexivity|].
  rewrite H. reflexivity.
Qed.

(** X21. Where the columns are looked up as [create_table] means them to
    be, the look-up of unknown names is lenient in a condition and strict
    in a column list. An identifier for which [get_column_index] finds no
    column evaluates to its own name, as text, and nothing is printed; no
    evaluation of a condition reports a missing column, whatever the
    table. In the column list of a [SELECT] on a table whose columns are
    named by text, a name that names no column makes the statement fail:
    it returns [False] with the message that the column was not found,
    and the database is as before. *)
Theorem unknown_column_lenient_in_where_strict_in_select :
  (forall table row name,
      unknown_column table name ->
      Database._evaluate_expression (Identifier name) (Some table) (Some row)
      = (Ok (Py.VStr name), []))
  /\ (forall condition table row,
         silent_on_columns (Database._evaluate_condition condition table row)
         = true)
  /\ (forall db tname table first names ts js w,
         Database.tables db !! Str.lower tname = Some table ->
         text_named table ->
         first <> "*" ->
         Exists (unknown_column table) (first :: names) ->
         exists name,
           In name (first :: names)
           /\ unknown_column table name
           /\ Database.execute_query
                (SelectStmt (map Identifier (first :: names))
                   (TableRef tname :: ts) js w) db
              = (Ok false, db,
                 [ColumnNotFound (AST.Text name) (AST.Text tname)])).
Proof.
  split; [exact identifier_lenient|].
  split; [exact evaluate_condition_silent|].
  intros db tname table first names ts js w Hlook Htext Hfirst Hex.
  destruct (resolve_columns_unknown table (AST.Text tname) (first :: names)
              [] Htext Hex) as (name & Hin & Hu & Hres).
  exists name. repeat split; auto.
  exec_unfold.
  cbn [AST.type AST.get_tables AST.name AST.lower AST.columns map].
  rewrite Hlook, getitem_0. cbn [AST.name Database.is_asterisk].
  destruct (String.eqb_spec first "*") as [|_]; [contradiction|].
  cbn [map] in Hres. rewrite Hres. reflexivity.
Qed.

Lemma unknown_column_lenient_in_where_strict_in_select_witness :
  (unknown_column (example_table two_rows) "zzz"
   /\ Database._evaluate_expression (Identifier "zzz")
        (Some (example_table two_rows)) (Some [Py.VInt 1; Py.VStr "b"])
      = (Ok (Py.VStr "zzz"), []))
  /\ exists name,
      In name ["id"; "zzz"]
      /\ unknown_column (example_table two_rows) name
      /\ Database.execute_query
           (SelectStmt (map Identifier ["id"; "zzz"]) [TableRef "T"] []
              None) two_rows_db
         = (Ok false, two_rows_db,
            [ColumnNotFound (AST.Text name) (AST.Text "T")]).
Proof.
  split.
  - split; [reflexivity|].
    apply (proj1 unknown_column_lenient_in_where_strict_in_select).
    reflexivity.
  - apply (proj2 (proj2 unknown_column_lenient_in_where_strict_in_select)
             two_rows_db "T" (example_table two_rows) "id" ["zzz"] [] []
             None).
    + vm_compute; reflexivity.
    + repeat constructor; eexists; reflexivity.
    + discriminate.
    + apply Exists_cons_tl, Exists_cons_hd. reflexivity.
Defined.

(** [_execute_create] names every column by a node, and no column can be
    looked up in the table it makes. *)
Section NodeNames.

Lemma column_def_node col_node column :
  Database.column_def col_node = Ok column ->
  exists n, ColumnDef.name column = AST.Node n.
Proof.
  unfold Database.column_def.
  destruct col_node; cbn; try discriminate.
  intros [= <-]. eauto.
Qed.

Lemma column_defs_node cols columns :
  res_map Database.column_def cols = Ok columns ->
  cols <> [] ->
  exists n column rest,
    columns = column :: rest /\ ColumnDef.name column = AST.Node n.
Proof.
  destruct cols as [|c cols]; [congruence|]. cbn. intros H _.
  destruct (Database.column_def c) as [column|e] eqn:E; [|discriminate].
  cbn in H. destruct (res_map Database.column_def cols) as [rest|e];
    [|discriminate].
  cbn in H. injection H as <-.
  destruct (column_def_node _ _ E) as [n Hn]. eauto.
Qed.

Lemma node_named_lookup t n column rest cname :
  Table.columns t = column :: rest -> ColumnDef.name column = AST.Node n ->
  Table.get_column_index t cname = Raise AttributeError.
Proof.
  intros Hc Hn. unfold Table.get_column_index. rewrite Hc. cbn.
  now rewrite Hn.
Qed.

(** What a successful [CREATE TABLE] statement stores. *)
Lemma create_statement_stores db name cols db1 out :
  Database.execute_query (CreateStmt (Identifier name) cols) db
  = (Ok true, db1, out) ->
  exists columns,
    res_map Database.column_def cols = Ok columns
    /\ db1 = Database.mk
               (<[Str.lower name := Table.new name columns None]>
                  (Database.tables db)).
Proof.
  exec_unfold. cbn [AST.type AST.table AST.name AST.columns].
  unfold Database.create_table.
  destruct (res_map Database.column_def cols) as [columns|e]; cbn;
    [|discriminate].
  destruct (Database.tables db !! Str.lower name); cbn; [discriminate|].
  intros [= <- <-]. eauto.
Qed.

End NodeNames.

(** C7. On a table made by a [CREATE TABLE] statement the claim fails.
    [_execute_create] gives [ColumnDef] the identifier node of each column
    where its name is expected, so [get_column_index] raises
    [AttributeError] at the first column. An identifier in a condition,
    whether it names a column or not, then does not evaluate to its name:
    on every row that is not empty the evaluation raises, whatever rows
    the table has got since. A [SELECT] with an unknown name in its
    condition or in its column list raises too, where the same statements
    on the same table made by [create_table] give what the claim says:
    the rows, and [False] with the message that the column was not
    found. *)
Theorem unknown_column_raises_on_created_table :
  (forall db name cols db1 out,
      Database.execute_query (CreateStmt (Identifier name) cols) db
      = (Ok true, db1, out) ->
      cols <> [] ->
      exists table,
        Database.tables db1 !! Str.lower name = Some table
        /\ forall rows cname value row,
            Database._evaluate_expression (Identifier cname)
              (Some (Database.with_rows table rows)) (Some (value :: row))
            = (Raise AttributeError, [])
            /\ Database._evaluate_condition (Identifier cname)
                 (Database.with_rows table rows) (value :: row)
               = (Raise AttributeError, [])
            /\ forall op right,
                TokenType.mem op Parser.comparison_operators = true ->
                Database._evaluate_condition
                  (Condition (Identifier cname) op right)
                  (Database.with_rows table rows) (value :: row)
                = (Raise AttributeError, []))
  /\ (let db1 :=
        after Database.new
          (run_statement "CREATE TABLE t (id INT, name TEXT)") in
      let db2 := after db1 (run_statement "INSERT INTO t VALUES (1, 'a')") in
      rows_of db2 "t" = [[Py.VInt 1; Py.VStr "a"]]
      /\ run_statement "SELECT * FROM t WHERE zzz = 'zzz'" db2
         = (Raise AttributeError, db2, [])
      /\ run_statement "SELECT zzz FROM t" db2
         = (Raise AttributeError, db2, []))
  /\ (let db2 :=
        after example_db (run_statement "INSERT INTO t VALUES (1, 'a')") in
      rows_of db2 "t" = [[Py.VInt 1; Py.VStr "a"]]
      /\ outcome db2 (run_statement "SELECT * FROM t WHERE zzz = 'zzz'")
         = Ok true
      /\ run_statement "SELECT zzz FROM t" db2
         = (Ok false, db2,
            [ColumnNotFound (AST.Text "zzz") (AST.Text "t")])).
Proof.
  split; [|split; vm_compute; repeat split].
  intros db name cols db1 out Hrun Hcols.
  destruct (create_statement_stores _ _ _ _ _ Hrun) as (columns & Hdefs & ->).
  destruct (column_defs_node cols columns Hdefs Hcols)
    as (n & column & rest & -> & Hn).
  exists (Table.new name (column :: rest) None).
  split; [apply lookup_insert_eq|].
  intros rows cname value row.
  assert (Hsearch :
            Table.get_column_index
              (Database.with_rows (Table.new name (column :: rest) None) rows)
              (AST.Text cname)
            = Raise AttributeError)
    by now apply (node_named_lookup _ n column rest).
  split; [|split].
  - cbn [Database._evaluate_expression]. now rewrite Hsearch.
  - cbn [Database._evaluate_condition Database._evaluate_expression].
    now rewrite Hsearch.
  - intros op right Hop.
    destruct op; try discriminate;
      cbn [Database._evaluate_condition Database._evaluate_expression
           TokenType.eqb TokenType.value Nat.eqb];
      now rewrite Hsearch.
Qed.

Lemma unknown_column_raises_on_created_table_witness :
  exists table,
    Database.tables
      (after Database.new
         (run_statement "CREATE TABLE t (id INT, name TEXT)"))
    !! "t" = Some table
    /\ Database._evaluate_expression (Identifier "zzz")
         (Some (Database.with_rows table [[Py.VInt 1; Py.VStr "a"]]))
         (Some [Py.VInt 1; Py.VStr "a"])
       = (Raise AttributeError, []).
Proof.
  destruct (proj1 unknown_column_raises_on_created_table Database.new "t"
              [ColumnDefinition (Identifier "id") TokenType.INT;
               ColumnDefinition (Identifier "name") TokenType.TEXT]
              (after Database.new
                 (run_statement "CREATE TABLE t (id INT, name TEXT)"))
              [TableCreated (AST.Text "t")] eq_refl)
    as (table & Hlook & Heval); [discriminate|].
  exists table. split; [exact Hlook|].
  exact (proj1 (Heval [[Py.VInt 1; Py.VStr "a"]] "zzz" (Py.VInt 1)
                  [Py.VStr "a"])).
Defined.

(** C9, as stated, fails when the table does not exist: the statement
    returns [False] after the message that the table was not found. *)
Lemma select_literal_from_missing_table :
  parse_query "SELECT 1 FROM t"
  = Ok (SelectStmt [Literal TokenType.INTEGER (Py.VInt 1)] [TableRef "t"]
          [] None)
  /\ Database.execute_query
       (SelectStmt [Literal TokenType.INTEGER (Py.VInt 1)] [TableRef "t"]
          [] None)
       Database.new
     = (Ok false, Database.new, [TableNotFound (AST.Text "t")]).
Proof. split; vm_compute; reflexivity. Qed.

(** C9, amended. When the first table of [FROM] exists, a [SELECT] whose
    first column is a node without a name, as a literal or a dotted
    expression is, raises [KeyError] from [execute_query], the database as
    before; the parser accepts such statements. *)
Theorem select_first_column_without_name :
  (forall db tname table first cols ts js w,
      Database.tables db !! Str.lower tname = Some table ->
      AST.name first = Raise (KeyError "name") ->
      Database.execute_query
        (SelectStmt (first :: cols) (TableRef tname :: ts) js w) db
      = (Raise (KeyError "name"), db, []))
  /\ (forall value_type value,
         AST.name (Literal value_type value) = Raise (KeyError "name"))
  /\ (forall l op r, AST.name (Expression l op r) = Raise (KeyError "name"))
  /\ parse_query "SELECT 1 FROM t"
     = Ok (SelectStmt [Literal TokenType.INTEGER (Py.VInt 1)]
             [TableRef "t"] [] None)
  /\ parse_query "SELECT a.b FROM t"
     = Ok (SelectStmt
             [Expression (Identifier "a") TokenType.DOT (Identifier "b")]
             [TableRef "t"] [] None).
Proof.
  split; [|repeat split].
  intros db tname table first cols ts js w Hlook Hname.
  exec_unfold.
  cbn [AST.type AST.get_tables AST.name AST.lower AST.columns].
  rewrite Hlook, getitem_0, Hname. reflexivity.
Qed.

Lemma select_first_column_without_name_witness :
  Database.execute_query
    (SelectStmt [Literal TokenType.INTEGER (Py.VInt 1)] [TableRef "t"] []
       None)
    example_db
  = (Raise (KeyError "name"), example_db, []).
Proof.
  apply (proj1 select_first_column_without_name example_db "t"
           (example_table [])).
  - vm_compute; reflexivity.
  - reflexivity.
Defined.

Section Delete.

Ltac same_count :=
  match goal with
  | |- (Ok (?a, ?x), _) = (Ok (?a, ?y), _) =>
      replace x with y by lia; reflexivity
  end.

(** The loop of [DELETE] keeps, in order, the rows on which the condition
    is false and counts the others. *)
Lemma partition_rows_spec w t rows keep n :
  evaluable w t rows ->
  exists printed,
    Database.partition_rows w t rows keep n
    = (Ok ((keep ++ List.filter (kept_by w t) rows)%list,
           (n + (length rows - length (List.filter (kept_by w t) rows)))%nat),
       printed).
Proof.
  revert keep n. induction rows as [|row rows IH]; intros keep n Hev.
  - exists []. cbn. now rewrite app_nil_r, Nat.add_0_r.
  - assert (Hev' : evaluable w t rows).
    { destruct w; cbn in *; [now inversion Hev | exact I]. }
    cbn [Database.partition_rows].
    destruct w as [c|].
    + assert (Hrow : exists b,
                 fst (Database._evaluate_condition c t row) = Ok b)
        by (cbn in Hev; now inversion Hev).
      destruct Hrow as [b Hb].
      cbn [kept_by List.filter]. unfold evaluates_false. rewrite Hb.
      destruct (Database._evaluate_condition c t row) as [r out] eqn:Hc.
      cbn in Hb. subst r.
      pose proof (filter_length_le (kept_by (Some c) t) rows) as Hle.
      destruct b; cbn.
      * destruct (IH keep (S n) Hev') as [printed ->].
        eexists. same_count.
      * destruct (IH (keep ++ [row])%list n Hev') as [printed ->].
        eexists. rewrite <- app_assoc. cbn [app length]. same_count.
    + cbn. destruct (IH keep (S n) Hev') as [printed ->].
      pose proof (filter_length_le (kept_by None t) rows) as Hle.
      eexists. same_count.
Qed.


Lemma delete_all_or_nothing tnode w db r db' out :
  Database.execute_query (DeleteStmt tnode w) db = (r, db', out) ->
  r <> Ok true -> db' = db.
Proof.
  exec_unfold. cbn [AST.type AST.table AST.get_where_clause].
  destruct (AST.name tnode) as [[s|node]|e]; cbn [AST.lower];
    try (intros [= <- <- <-]; reflexivity).
  destruct (Database.tables db !! Str.lower s) as [t|];
    [|intros [= <- <- <-]; reflexivity].
  destruct (Database.partition_rows w t (Table.rows t) [] 0)
    as [[[keep k]|e] o];
    cbn; intros [= <- <- <-]; [congruence | reflexivity].
Qed.

End Delete.



Section Insert.





End Insert.




Section Update.

(** The scan of [UPDATE] stops at the first row on which the condition
    cannot be evaluated: the rows before it are as the scan made them, that
    row and the rows after it are untouched. *)
Lemma update_rows_stops w t sets rows1 row rows2 n e :
  Forall (updatable w t sets) rows1 ->
  fst (Database.matches w t row) = Raise e ->
  exists out,
    Database.update_rows w t sets (rows1 ++ row :: rows2) n
    = (Raise e, (map (updated w t sets) rows1 ++ row :: rows2)%list, out).
Proof.
  intros Hpre Hrow. revert n.
  induction Hpre as [|r rows1 (b & Hb & Ha) _ IH]; intros n.
  - cbn. destruct (Database.matches w t row) as [res out]. cbn in Hrow.
    subst res. eauto.
  - cbn [app map Database.update_rows]. unfold updated at 1.
    destruct (Database.matches w t r) as [res out]. cbn in Hb. subst res.
    cbn [fst]. destruct b.
    + specialize (Ha eq_refl).
      destruct (Database.assign sets r) as [res r']. cbn in Ha. subst res.
      destruct (IH (S n)) as [out' ->]. cbn. eauto.
    + destruct (IH n) as [out' ->]. eauto.
Qed.

(** The scan that gets past every row updates all the rows that match. *)
Lemma update_rows_completes w t sets rows n :
  Forall (updatable w t sets) rows ->
  exists count out,
    Database.update_rows w t sets rows n
    = (Ok count, map (updated w t sets) rows, out).
Proof.
  intros H. revert n. induction H as [|r rows (b & Hb & Ha) _ IH]; intros n.
  - cbn. eauto.
  - cbn [map Database.update_rows]. unfold updated at 1.
    destruct (Database.matches w t r) as [res out]. cbn in Hb. subst res.
    cbn [fst]. destruct b.
    + specialize (Ha eq_refl).
      destruct (Database.assign sets r) as [res r']. cbn in Ha. subst res.
      destruct (IH (S n)) as (count & out' & ->). cbn. eauto.
    + destruct (IH n) as (count & out' & ->). eauto.
Qed.

Lemma update_stops_midway db name t set_nodes sets out0 w rows1 row rows2 e :
  Database.tables db !! Str.lower name = Some t ->
  Database.resolve_set_clauses t (AST.Text name) set_nodes []
  = (Ok (Some sets), out0) ->
  Table.rows t = (rows1 ++ row :: rows2)%list ->
  Forall (updatable w t sets) rows1 ->
  fst (Database.matches w t row) = Raise e ->
  exists out,
    Database.execute_query (UpdateStmt (Identifier name) set_nodes w) db
    = (Raise e,
       Database.mk
         (<[Str.lower name :=
              Database.with_rows t
                (map (updated w t sets) rows1 ++ row :: rows2)%list]>
            (Database.tables db)),
       out).
Proof.
  intros Hlook Hres Hrows Hpre Hrow.
  destruct (update_rows_stops w t sets rows1 row rows2 0 e Hpre Hrow)
    as [out Hscan].
  exec_unfold.
  cbn [AST.type AST.table AST.name AST.lower AST.set_clauses
         AST.get_where_clause].
  rewrite Hlook, Hres. cbn. rewrite Hrows, Hscan. cbn. eauto.
Qed.

Lemma update_completes db name t set_nodes sets out0 w :
  Database.tables db !! Str.lower name = Some t ->
  Database.resolve_set_clauses t (AST.Text name) set_nodes []
  = (Ok (Some sets), out0) ->
  Forall (updatable w t sets) (Table.rows t) ->
  exists out,
    Database.execute_query (UpdateStmt (Identifier name) set_nodes w) db
    = (Ok true,
       Database.mk
         (<[Str.lower name :=
              Database.with_rows t (map (updated w t sets) (Table.rows t))]>
            (Database.tables db)),
       out).
Proof.
  intros Hlook Hres Hrows.
  destruct (update_rows_completes w t sets (Table.rows t) 0 Hrows)
    as (count & out & Hscan).
  exec_unfold.
  cbn [AST.type AST.table AST.name AST.lower AST.set_clauses
         AST.get_where_clause].
  rewrite Hlook, Hres. cbn. rewrite Hscan. cbn. eauto.
Qed.

Lemma update_fails_before_scan db name t set_nodes r out0 w :
  Database.tables db !! Str.lower name = Some t ->
  Database.resolve_set_clauses t (AST.Text name) set_nodes [] = (r, out0) ->
  (forall sets, r <> Ok (Some sets)) ->
  exists r',
    Database.execute_query (UpdateStmt (Identifier name) set_nodes w) db
    = (r', db, out0)
    /\ r' <> Ok true.
Proof.
  intros Hlook Hres Hr.
  exec_unfold.
  cbn [AST.type AST.table AST.name AST.lower AST.set_clauses
         AST.get_where_clause].
  rewrite Hlook, Hres. cbn.
  destruct r as [[sets|]|e]; [now specialize (Hr sets) | |];
    cbn; rewrite ?app_nil_r; eexists; split; try reflexivity; congruence.
Qed.

End Update.

(** C4, as stated, fails. [UPDATE t SET id = 5 WHERE name > 'a'] on the
    rows [(1, 'b')] and [(2, NULL)]: the first row matches and is updated,
    the comparison of the null of the second row with text raises
    [TypeError], and the statement ends there with the first row
    changed. *)
Lemma update_partial_on_failure :
  let update := run_statement "UPDATE t SET id = 5 WHERE name > 'a'" in
  rows_of two_rows_db "t" = [[Py.VInt 1; Py.VStr "b"]; [Py.VInt 2; Py.VNone]]
  /\ outcome two_rows_db update = Raise TypeError
  /\ rows_of (after two_rows_db update) "t"
     = [[Py.VInt 5; Py.VStr "b"]; [Py.VInt 2; Py.VNone]].
Proof. vm_compute. repeat split. Qed.

(** C4, amended. A [DELETE] that does not return [True] leaves the
    database as it was. An [UPDATE] that fails before its scan of the
    rows, while it resolves the columns and values of [SET], leaves the
    database as it was; an [UPDATE] whose scan gets past every row returns
    [True] with every matching row updated. But the scan changes each
    matching row as it reaches it: an [UPDATE] whose condition cannot be
    evaluated on some row raises there, the matching rows before that row
    already updated, that row and the rows after it untouched. *)
Theorem update_delete_failure_atomicity :
  (forall tnode w db r db' out,
      Database.execute_query (DeleteStmt tnode w) db = (r, db', out) ->
      r <> Ok true -> db' = db)
  /\ (forall db name t set_nodes r out0 w,
         Database.tables db !! Str.lower name = Some t ->
         Database.resolve_set_clauses t (AST.Text name) set_nodes []
         = (r, out0) ->
         (forall sets, r <> Ok (Some sets)) ->
         exists r',
           Database.execute_query (UpdateStmt (Identifier name) set_nodes w)
             db
           = (r', db, out0)
           /\ r' <> Ok true)
  /\ (forall db name t set_nodes sets out0 w,
         Database.tables db !! Str.lower name = Some t ->
         Database.resolve_set_clauses t (AST.Text name) set_nodes []
         = (Ok (Some sets), out0) ->
         Forall (updatable w t sets) (Table.rows t) ->
         exists out,
           Database.execute_query (UpdateStmt (Identifier name) set_nodes w)
             db
           = (Ok true,
              Database.mk
                (<[Str.lower name :=
                     Database.with_rows t
                       (map (updated w t sets) (Table.rows t))]>
                   (Database.tables db)),
              out))
  /\ (forall db name t set_nodes sets out0 w rows1 row rows2 e,
         Database.tables db !! Str.lower name = Some t ->
         Database.resolve_set_clauses t (AST.Text name) set_nodes []
         = (Ok (Some sets), out0) ->
         Table.rows t = (rows1 ++ row :: rows2)%list ->
         Forall (updatable w t sets) rows1 ->
         fst (Database.matches w t row) = Raise e ->
         exists out,
           Database.execute_query (UpdateStmt (Identifier name) set_nodes w)
             db
           = (Raise e,
              Database.mk
                (<[Str.lower name :=
                     Database.with_rows t
                       (map (updated w t sets) rows1 ++ row :: rows2)%list]>
                   (Database.tables db)),
              out)).
Proof.
  split; [exact delete_all_or_nothing|].
  split; [exact update_fails_before_scan|].
  split; [exact update_completes | exact update_stops_midway].
Qed.

Lemma update_delete_failure_atomicity_witness :
  let w :=
    Some (Condition (Identifier "name") TokenType.GREATER
            (Literal TokenType.STRING (Py.VStr "a"))) in
  let set_nodes :=
    [Expression (Identifier "id") TokenType.EQUALS
       (Literal TokenType.INTEGER (Py.VInt 5))] in
  exists out,
    Database.execute_query (UpdateStmt (Identifier "t") set_nodes w)
      two_rows_db
    = (Raise TypeError,
       Database.mk
         (<["t" :=
              Database.with_rows (example_table two_rows)
                (map (updated w (example_table two_rows) [(0, Py.VInt 5)])
                   [[Py.VInt 1; Py.VStr "b"]]
                 ++ [Py.VInt 2; Py.VNone] :: [])%list]>
            (Database.tables two_rows_db)),
       out).
Proof.
  apply (proj2 (proj2 (proj2 update_delete_failure_atomicity)) two_rows_db
           "t" (example_table two_rows) _ [(0, Py.VInt 5)] []).
  - vm_compute; reflexivity.
  - reflexivity.
  - reflexivity.
  - repeat constructor. exists true. split; reflexivity.
  - reflexivity.
Defined.

(** * Further properties *)

Section LexerRuns.

Lemma unread_empty lx : unread lx = "" -> Lexer.peek lx = Char.NUL.
Proof. intros H. now rewrite peek_unread, H. Qed.

Lemma unread_end lx :
  unread lx = "" ->
  (String.length (Lexer.input lx) <=? Lexer.position lx)%nat = true.
Proof.
  intros H. pose proof (remaining_unread lx) as Hr. rewrite H in Hr.
  unfold Lexer.remaining in Hr. cbn in Hr. apply Nat.leb_le. lia.
Qed.

Lemma unread_more lx c s :
  unread lx = String c s ->
  (String.length (Lexer.input lx) <=? Lexer.position lx)%nat = false.
Proof.
  intros H. pose proof (remaining_unread lx) as Hr. rewrite H in Hr.
  unfold Lexer.remaining in Hr. cbn in Hr. apply Nat.leb_gt. lia.
Qed.

Lemma read_app s t lx : read (s ++ t) lx = read t (read s lx).
Proof. revert lx. induction s as [|c s IH]; intros lx; cbn; auto. Qed.

Lemma unread_read s rest lx :
  unread lx = s ++ rest -> unread (read s lx) = rest.
Proof.
  revert lx. induction s as [|c s IH]; intros lx H; cbn in *; [exact H|].
  apply IH. now destruct (unread_advance lx c _ H).
Qed.

Lemma read_state s rest lx :
  unread lx = s ++ rest ->
  read s lx
  = Lexer.mk (Lexer.input lx) (Lexer.position lx + String.length s)
      (fst (cursor s (Lexer.line lx, Lexer.column lx)))
      (snd (cursor s (Lexer.line lx, Lexer.column lx))).
Proof.
  revert lx. induction s as [|c s IH]; intros lx H.
  - destruct lx; cbn. f_equal. lia.
  - cbn [read cursor String.length fst snd]. cbn in H.
    destruct (unread_advance lx c _ H) as [Ha Hu].
    rewrite (IH _ Hu). rewrite Ha. cbn [snd].
    destruct (Ascii.eqb c Char.LF); cbn; f_equal; lia.
Qed.

(** A loop of the lexer reads the characters that pass its test, as far
    as they go. *)
Lemma skip_whitespace_loop_read fuel lx ws rest :
  unread lx = ws ++ rest -> all Char.isspace ws = true ->
  stops Char.isspace rest = true ->
  (String.length ws <= fuel)%nat ->
  Lexer.skip_whitespace_loop fuel lx = read ws lx.
Proof.
  revert fuel lx. induction ws as [|c ws IH]; intros fuel lx Hu Hall Hstop Hf.
  - cbn in Hu. assert (Hp : Char.isspace (Lexer.peek lx) = false).
    { rewrite peek_unread, Hu. destruct rest; [reflexivity|].
      cbn in Hstop. now apply negb_true_iff. }
    destruct fuel; cbn; now rewrite Hp.
  - cbn in Hu, Hall, Hf. apply andb_true_iff in Hall as [Hc Hall].
    destruct fuel as [|fuel]; [lia|].
    cbn [Lexer.skip_whitespace_loop read].
    rewrite peek_unread, Hu, Hc.
    apply IH; auto; [now destruct (unread_advance lx c _ Hu) | lia].
Qed.

Lemma skip_comment_loop_read fuel lx body rest :
  unread lx = body ++ rest -> all in_comment body = true ->
  stops in_comment rest = true ->
  (String.length body <= fuel)%nat ->
  Lexer.skip_comment_loop fuel lx = read body lx.
Proof.
  revert fuel lx. induction body as [|c body IH];
    intros fuel lx Hu Hall Hstop Hf.
  - cbn in Hu. assert (Hp : in_comment (Lexer.peek lx) = false).
    { rewrite peek_unread, Hu. destruct rest; [reflexivity|].
      cbn in Hstop. now apply negb_true_iff. }
    unfold in_comment in Hp. destruct fuel; cbn; now rewrite Hp.
  - cbn in Hu, Hall, Hf. apply andb_true_iff in Hall as [Hc Hall].
    destruct fuel as [|fuel]; [lia|].
    cbn [Lexer.skip_comment_loop read].
    assert (Hp : Lexer.peek lx = c) by now rewrite peek_unread, Hu.
    unfold in_comment in Hc. rewrite Hp, Hc.
    apply IH; auto; [now destruct (unread_advance lx c _ Hu) | lia].
Qed.

Lemma identifier_loop_read fuel lx lexeme w rest :
  unread lx = w ++ rest -> all in_identifier w = true ->
  stops in_identifier rest = true ->
  (String.length w <= fuel)%nat ->
  Lexer.identifier_loop fuel lx lexeme = (lexeme ++ w, read w lx).
Proof.
  revert fuel lx lexeme.
  induction w as [|c w IH]; intros fuel lx lexeme Hu Hall Hstop Hf.
  - cbn in Hu. assert (Hp : in_identifier (Lexer.peek lx) = false).
    { rewrite peek_unread, Hu. destruct rest; [reflexivity|].
      cbn in Hstop. now apply negb_true_iff. }
    unfold in_identifier in Hp.
    destruct fuel; cbn; now rewrite Hp, append_empty_r.
  - cbn in Hu, Hall, Hf. apply andb_true_iff in Hall as [Hc Hall].
    destruct fuel as [|fuel]; [lia|].
    cbn [Lexer.identifier_loop read].
    assert (Hp : Lexer.peek lx = c) by now rewrite peek_unread, Hu.
    unfold in_identifier in Hc. rewrite Hp, Hc.
    destruct (unread_advance lx c _ Hu) as [Ha Hu'].
    destruct (Lexer.advance lx) as [c' lx1] eqn:E.
    assert (c' = c) by (rewrite Ha in E; congruence). subst c'.
    cbn [snd] in *.
    rewrite (IH fuel lx1 _ Hu' Hall Hstop) by lia.
    now rewrite append_char.
Qed.

Lemma string_loop_read fuel lx quote lexeme body rest :
  unread lx = body ++ rest -> all (in_string quote) body = true ->
  stops (in_string quote) rest = true ->
  (String.length body <= fuel)%nat ->
  Lexer.string_loop fuel lx quote lexeme = (lexeme ++ body, read body lx).
Proof.
  revert fuel lx lexeme.
  induction body as [|c body IH]; intros fuel lx lexeme Hu Hall Hstop Hf.
  - cbn in Hu. assert (Hp : in_string quote (Lexer.peek lx) = false).
    { rewrite peek_unread, Hu. destruct rest; [apply in_string_end|].
      cbn in Hstop. now apply negb_true_iff. }
    unfold in_string in Hp.
    destruct fuel; cbn; now rewrite Hp, append_empty_r.
  - cbn in Hu, Hall, Hf. apply andb_true_iff in Hall as [Hc Hall].
    destruct fuel as [|fuel]; [lia|].
    cbn [Lexer.string_loop read].
    assert (Hp : Lexer.peek lx = c) by now rewrite peek_unread, Hu.
    unfold in_string in Hc. rewrite Hp, Hc.
    destruct (unread_advance lx c _ Hu) as [Ha Hu'].
    destruct (Lexer.advance lx) as [c' lx1] eqn:E.
    assert (c' = c) by (rewrite Ha in E; congruence). subst c'.
    cbn [snd] in *.
    rewrite (IH fuel lx1 _ Hu' Hall Hstop) by lia.
    now rewrite append_char.
Qed.

Lemma length_app_le s t :
  (String.length s <= String.length (s ++ t))%nat.
Proof. induction s; cbn; lia. Qed.

Lemma skip_whitespace_read lx ws rest :
  unread lx = ws ++ rest -> all Char.isspace ws = true ->
  stops Char.isspace rest = true ->
  Lexer.skip_whitespace lx = read ws lx.
Proof.
  intros Hu Hall Hstop. unfold Lexer.skip_whitespace.
  apply (skip_whitespace_loop_read _ _ _ rest); auto.
  rewrite remaining_unread, Hu. apply length_app_le.
Qed.

(** What comes before a token: white space. *)
Lemma get_next_token_skip lx ws text :
  unread lx = ws ++ text -> all Char.isspace ws = true ->
  stops Char.isspace text = true ->
  Lexer.get_next_token lx = Lexer.get_next_token (read ws lx).
Proof.
  intros Hu Hall Hstop. unfold Lexer.get_next_token.
  rewrite (skip_whitespace_read lx ws text Hu Hall Hstop).
  rewrite (skip_whitespace_read (read ws lx) "" text); auto.
  now apply unread_read.
Qed.

Lemma word_start_class c :
  Char.isalpha c || Ascii.eqb c "_"%char = true ->
  Char.isspace c = false /\ Ascii.eqb c "#"%char = false.
Proof.
  destruct c as [[] [] [] [] [] [] [] []]; vm_compute; intros H;
    split; congruence.
Qed.

Lemma digit_start_class c :
  Char.isdigit c = true ->
  Char.isspace c = false /\ Ascii.eqb c "#"%char = false
  /\ Char.isalpha c || Ascii.eqb c "_"%char = false.
Proof.
  destruct c as [[] [] [] [] [] [] [] []]; vm_compute; intros H;
    repeat split; congruence.
Qed.

(** Nothing to skip before a character that is no space and no [#]. *)
Lemma nothing_to_skip lx c rest :
  unread lx = String c rest ->
  Char.isspace c = false -> Ascii.eqb c "#"%char = false ->
  Lexer.skip_comment (Lexer.skip_whitespace lx) = lx.
Proof.
  intros Hu Hs Hh.
  rewrite (skip_whitespace_read lx "" (String c rest)); auto;
    [|cbn; now rewrite Hs].
  cbn [read]. unfold Lexer.skip_comment.
  now rewrite peek_unread, Hu, Hh.
Qed.

(** A word is read whole: letters, digits and underscores as far as they
    go; it is the keyword it spells or an identifier, and its lexeme is
    the word as written. *)
Lemma token_word lx w rest :
  unread lx = w ++ rest -> is_word w = true ->
  stops in_identifier rest = true ->
  Lexer.get_next_token lx
  = (mkToken (word_kind w) w (Lexer.line (read w lx)) (Lexer.column lx),
     read w lx).
Proof.
  intros Hu Hw Hstop. destruct w as [|c w]; [discriminate|].
  cbn [is_word] in Hw. apply andb_true_iff in Hw as [Hc Hall].
  destruct (word_start_class c Hc) as [Hs Hh].
  unfold Lexer.get_next_token.
  rewrite (nothing_to_skip lx c (w ++ rest) Hu Hs Hh).
  rewrite (unread_more lx c _ Hu).
  assert (Hp : Lexer.peek lx = c) by now rewrite peek_unread, Hu.
  rewrite Hp, Hc. unfold Lexer.identifier.
  rewrite (identifier_loop_read _ lx "" (String c w) rest Hu Hall Hstop)
    by (rewrite remaining_unread, Hu; apply length_app_le).
  reflexivity.
Qed.

End LexerRuns.

(** [get_next_token] at a character that is no space and no [#]: nothing
    is skipped, the end is not reached, and the character is looked at. *)
Ltac token_start Hu Hs Hh :=
  unfold Lexer.get_next_token;
  rewrite (nothing_to_skip _ _ _ Hu Hs Hh);
  rewrite (unread_more _ _ _ Hu);
  rewrite (peek_unread _), Hu.

(** Decide the tests that [get_next_token] makes on a given character. *)
Ltac char_tests c :=
  let a := eval vm_compute in (Char.isalpha c || Ascii.eqb c "_"%char) in
  change (Char.isalpha c || Ascii.eqb c "_"%char) with a;
  let d := eval vm_compute in (Char.isdigit c) in
  change (Char.isdigit c) with d;
  repeat match goal with
         | |- context [Ascii.eqb c ?x] =>
             let v := eval vm_compute in (Ascii.eqb c x) in
             change (Ascii.eqb c x) with v
         end;
  cbv beta iota delta [orb].

Section LexerRuns2.

Lemma quote_class q :
  is_quote q = true ->
  Char.isspace q = false /\ Ascii.eqb q "#"%char = false
  /\ Char.isalpha q || Ascii.eqb q "_"%char = false
  /\ Char.isdigit q = false
  /\ Ascii.eqb q Char.NUL = false.
Proof.
  unfold is_quote. intros H. apply orb_true_iff in H as [H|H];
    apply Ascii.eqb_eq in H; subst q; vm_compute; repeat split.
Qed.

Lemma in_string_quote q : in_string q q = false.
Proof. unfold in_string. now rewrite Ascii.eqb_refl. Qed.

(** A string: the characters between a quote and the next quote of the
    same kind, whatever they are. *)
Lemma token_string lx q body rest :
  unread lx = String q (body ++ String q rest) -> is_quote q = true ->
  all (in_string q) body = true ->
  let lx' := read (String q (body ++ String q "")) lx in
  Lexer.get_next_token lx
  = (mkToken TokenType.STRING body (Lexer.line lx') (Lexer.column lx), lx').
Proof.
  intros Hu Hq Hall lx'.
  destruct (quote_class q Hq) as (Hs & Hh & Ha & Hd & Hn).
  token_start Hu Hs Hh. rewrite Ha, Hd. fold (is_quote q). rewrite Hq.
  unfold Lexer.string.
  destruct (unread_advance lx q _ Hu) as [Hadv Hu1].
  destruct (Lexer.advance lx) as [q' lx1] eqn:E.
  assert (q' = q) by (rewrite Hadv in E; congruence). subst q'.
  cbn [snd] in Hu1.
  rewrite (string_loop_read _ lx1 q "" body (String q rest) Hu1 Hall)
    by (cbn; try rewrite in_string_quote; auto;
        rewrite remaining_unread, Hu1; apply length_app_le).
  cbn [String.append].
  pose proof (unread_read body _ lx1 Hu1) as Hu2.
  rewrite (peek_unread (read body lx1)), Hu2, Hn.
  subst lx'. cbn [read]. rewrite E. cbn [snd].
  now rewrite read_app.
Qed.

(** A string that is not closed: the text up to the end, as an [ERROR]
    token. *)
Lemma token_unterminated lx q body :
  unread lx = String q body -> is_quote q = true ->
  all (in_string q) body = true ->
  let lx' := read (String q body) lx in
  Lexer.get_next_token lx
  = (mkToken TokenType.ERROR body (Lexer.line lx') (Lexer.column lx), lx').
Proof.
  intros Hu Hq Hall lx'.
  destruct (quote_class q Hq) as (Hs & Hh & Ha & Hd & Hn).
  token_start Hu Hs Hh. rewrite Ha, Hd. fold (is_quote q). rewrite Hq.
  unfold Lexer.string.
  destruct (unread_advance lx q _ Hu) as [Hadv Hu1].
  destruct (Lexer.advance lx) as [q' lx1] eqn:E.
  assert (q' = q) by (rewrite Hadv in E; congruence). subst q'.
  cbn [snd] in Hu1. rewrite <- (append_empty_r body) in Hu1.
  rewrite (string_loop_read _ lx1 q "" body "" Hu1 Hall)
    by (auto; rewrite remaining_unread, Hu1; apply length_app_le).
  cbn [String.append].
  pose proof (unread_read body _ lx1 Hu1) as Hu2.
  rewrite (peek_unread (read body lx1)), Hu2.
  subst lx'. cbn [read]. rewrite E. reflexivity.
Qed.

Lemma token_eof lx :
  unread lx = "" ->
  Lexer.get_next_token lx
  = (mkToken TokenType.EOF "" (Lexer.line lx) (Lexer.column lx), lx).
Proof.
  intros Hu. unfold Lexer.get_next_token.
  rewrite (skip_whitespace_read lx "" ""); auto. cbn [read].
  unfold Lexer.skip_comment. rewrite (unread_empty lx Hu).
  cbn. now rewrite (unread_end lx Hu).
Qed.

(** A comment: [#] and what follows up to the end of the line, which is
    not part of it. *)
Lemma skip_comment_read lx body rest :
  unread lx = String "#"%char (body ++ rest) ->
  all in_comment body = true -> stops in_comment rest = true ->
  Lexer.skip_comment lx = read (String "#"%char body) lx.
Proof.
  intros Hu Hall Hstop. unfold Lexer.skip_comment.
  rewrite peek_unread, Hu. cbn [Ascii.eqb Bool.eqb].
  apply (skip_comment_loop_read _ lx (String "#"%char body) rest); auto.
  rewrite remaining_unread, Hu. apply (length_app_le (String "#"%char body)).
Qed.

End LexerRuns2.

Section LexerTokens.

Lemma read_new s rest :
  read s (Lexer.new (s ++ rest))
  = Lexer.mk (s ++ rest) (String.length s) (fst (cursor s (1, 1)))
      (snd (cursor s (1, 1))).
Proof. now rewrite (read_state s rest). Qed.

Lemma read_new_whole s :
  read s (Lexer.new s)
  = Lexer.mk s (String.length s) (fst (cursor s (1, 1)))
      (snd (cursor s (1, 1))).
Proof.
  rewrite (read_state s ""); [reflexivity|].
  cbn. now rewrite append_empty_r.
Qed.

Lemma cursor_app s t at_ : cursor (s ++ t) at_ = cursor t (cursor s at_).
Proof. revert at_. induction s as [|c s IH]; intros at_; cbn; auto. Qed.

Lemma cursor_line (P : ascii -> bool) s at_ :
  P Char.LF = false -> all P s = true ->
  cursor s at_ = (fst at_, snd at_ + Z.of_nat (String.length s)).
Proof.
  intros HP. revert at_. induction s as [|c s IH]; intros at_ Hall.
  - cbn. destruct at_; cbn. f_equal. lia.
  - cbn in Hall. apply andb_true_iff in Hall as [Hc Hall].
    cbn [cursor String.length].
    destruct (Ascii.eqb_spec c Char.LF) as [->|_]; [congruence|].
    rewrite (IH _ Hall). cbn. f_equal. lia.
Qed.

Lemma append_assoc (a b c : string) : (a ++ b) ++ c = a ++ b ++ c.
Proof. induction a; cbn; congruence. Qed.

Lemma stops_skip (P Q : ascii -> bool) s :
  (forall c, Q c = true -> P c = false) ->
  match s with String c _ => Q c = true | EmptyString => False end ->
  stops P s = true.
Proof. destruct s as [|c s]; [tauto|]. intros H Hc. cbn. now rewrite H. Qed.

Lemma word_not_space w rest :
  is_word w = true -> stops Char.isspace (w ++ rest) = true.
Proof.
  destruct w as [|c w]; [discriminate|]. cbn [is_word].
  intros H. apply andb_true_iff in H as [Hc _].
  cbn. now rewrite (proj1 (word_start_class c Hc)).
Qed.

End LexerTokens.

(** X1. A word is read whole, white space before it skipped: the token has
    the word as it is written for lexeme, the keyword the word spells,
    in any letter case, or [IDENTIFIER] for type, and the line and column
    of the first character of the word; the lexer is left after the
    word. *)
Theorem word_token_is_whole_word ws w rest :
  all Char.isspace ws = true ->
  is_word w = true ->
  stops in_identifier rest = true ->
  let text := ws ++ w ++ rest in
  Lexer.get_next_token (Lexer.new text)
  = (mkToken (word_kind w) w (fst (cursor ws (1, 1)))
       (snd (cursor ws (1, 1))),
     Lexer.mk text (String.length (ws ++ w)) (fst (cursor ws (1, 1)))
       (snd (cursor ws (1, 1)) + Z.of_nat (String.length w)))
  /\ unread (read (ws ++ w) (Lexer.new text)) = rest
  /\ (forall w', Str.lower w' = Str.lower w -> word_kind w' = word_kind w).
Proof.
  intros Hws Hw Hstop text.
  assert (Hu : unread (Lexer.new text) = ws ++ w ++ rest) by reflexivity.
  assert (Hall : all in_identifier w = true).
  { destruct w; [discriminate|]. cbn [is_word] in Hw.
    now apply andb_true_iff in Hw as [_ ?]. }
  split; [|split].
  - rewrite (get_next_token_skip _ ws (w ++ rest) Hu Hws
               (word_not_space w rest Hw)).
    rewrite (token_word _ w rest (unread_read ws _ _ Hu) Hw Hstop).
    rewrite <- read_app. subst text.
    rewrite <- (append_assoc ws w rest), (read_new (ws ++ w) rest).
    rewrite (append_assoc ws w rest), (read_new ws (w ++ rest)).
    rewrite cursor_app, (cursor_line in_identifier w _ eq_refl Hall).
    reflexivity.
  - apply unread_read. subst text. now rewrite append_assoc.
  - intros w' H. unfold word_kind. now rewrite H.
Qed.

Lemma word_token_is_whole_word_witness :
  Lexer.get_next_token (Lexer.new "  SeLeCt1 x")
  = (mkToken TokenType.IDENTIFIER "SeLeCt1" 1 3,
     Lexer.mk "  SeLeCt1 x" 9 1 10)
  /\ Lexer.get_next_token (Lexer.new (String Char.LF "Select*"))
     = (mkToken TokenType.SELECT "Select" 2 1,
        Lexer.mk (String Char.LF "Select*") 7 2 7).
Proof.
  split.
  - apply (word_token_is_whole_word "  " "SeLeCt1" " x"); reflexivity.
  - apply (word_token_is_whole_word (String Char.LF "") "Select" "*");
      reflexivity.
Defined.

Section LexerTokens2.

Lemma quote_not_space q rest :
  is_quote q = true -> stops Char.isspace (String q rest) = true.
Proof. intros H. cbn. now rewrite (proj1 (quote_class q H)). Qed.

End LexerTokens2.

(** X2. A string is what stands between a quote and the next quote of the
    same kind: the other quote, line feeds and backslashes are characters
    like any other, and the quotes are not part of the lexeme. The token
    has the column of the opening quote and the line of the closing one.
    When no quote closes the string the token is an [ERROR] with what was
    read for lexeme, and the lexer is at the end of the text. *)
Theorem string_token_between_quotes ws q body :
  all Char.isspace ws = true ->
  is_quote q = true ->
  all (in_string q) body = true ->
  (forall rest,
      let text := ws ++ String q (body ++ String q rest) in
      let lx' := read (ws ++ String q (body ++ String q "")) (Lexer.new text) in
      Lexer.get_next_token (Lexer.new text)
      = (mkToken TokenType.STRING body
           (fst (cursor (ws ++ String q body) (1, 1)))
           (snd (cursor ws (1, 1))),
         lx')
      /\ unread lx' = rest)
  /\ (let text := ws ++ String q body in
      let lx' := read text (Lexer.new text) in
      Lexer.get_next_token (Lexer.new text)
      = (mkToken TokenType.ERROR body (fst (cursor text (1, 1)))
           (snd (cursor ws (1, 1))),
         lx')
      /\ unread lx' = "").
Proof.
  intros Hws Hq Hall.
  assert (Hn : Ascii.eqb q Char.LF = false).
  { unfold is_quote in Hq. apply orb_true_iff in Hq as [H|H];
      apply Ascii.eqb_eq in H; subst q; reflexivity. }
  split.
  - intros rest text lx'.
    assert (Hu : unread (Lexer.new text) = ws ++ String q (body ++ String q rest))
      by reflexivity.
    assert (Hsplit : text = (ws ++ String q (body ++ String q "")) ++ rest).
    { subst text. rewrite append_assoc. cbn. now rewrite append_assoc. }
    split.
    + rewrite (get_next_token_skip _ ws _ Hu Hws (quote_not_space q _ Hq)).
      rewrite (token_string _ q body rest (unread_read ws _ _ Hu) Hq Hall).
      cbv zeta. rewrite <- read_app. fold lx'. f_equal. subst lx'.
      rewrite Hsplit, read_new. rewrite <- Hsplit. subst text.
      rewrite (read_new ws). cbn [Lexer.line Lexer.column].
      rewrite !cursor_app. cbn [cursor]. rewrite Hn.
      rewrite !cursor_app. cbn [cursor]. rewrite Hn. reflexivity.
    + apply unread_read. now rewrite <- Hsplit.
  - intros text lx'.
    assert (Hu : unread (Lexer.new text) = ws ++ String q body) by reflexivity.
    split.
    + rewrite (get_next_token_skip _ ws _ Hu Hws (quote_not_space q _ Hq)).
      rewrite (token_unterminated _ q body (unread_read ws _ _ Hu) Hq Hall).
      cbv zeta. rewrite <- read_app. fold text. fold lx'. f_equal.
      subst lx'. rewrite read_new_whole. subst text.
      now rewrite (read_new ws).
    + apply unread_read. now rewrite append_empty_r.
Qed.

Lemma string_token_between_quotes_witness :
  Lexer.get_next_token (Lexer.new " 'a \b' x")
  = (mkToken TokenType.STRING "a \b" 1 2, Lexer.mk " 'a \b' x" 7 1 8)
  /\ Lexer.get_next_token (Lexer.new " 'a \b")
     = (mkToken TokenType.ERROR "a \b" 1 2, Lexer.mk " 'a \b" 6 1 7).
Proof.
  destruct (string_token_between_quotes " " "'"%char "a \b"
              eq_refl eq_refl eq_refl) as [H1 H2].
  split; [apply (H1 " x") | apply H2].
Defined.

Section LexerTokens3.

Lemma hash_not_space rest : stops Char.isspace (String "#"%char rest) = true.
Proof. reflexivity. Qed.

(** After white space and a comment. *)
Lemma get_next_token_comment lx ws body rest :
  unread lx = ws ++ String "#"%char (body ++ rest) ->
  all Char.isspace ws = true -> all in_comment body = true ->
  stops in_comment rest = true ->
  let lx1 := read (ws ++ String "#"%char body) lx in
  unread lx1 = rest
  /\ Lexer.get_next_token lx
     = match rest with
       | EmptyString =>
           (mkToken TokenType.EOF "" (Lexer.line lx1) (Lexer.column lx1), lx1)
       | String c _ =>
           Lexer.single TokenType.ERROR (Str.of_char c) lx1
       end.
Proof.
  intros Hu Hws Hall Hstop lx1.
  assert (Hu1 : unread lx1 = rest).
  { apply unread_read. rewrite Hu, append_assoc. reflexivity. }
  split; [exact Hu1|].
  unfold Lexer.get_next_token.
  rewrite (skip_whitespace_read lx ws _ Hu Hws eq_refl).
  rewrite (skip_comment_read _ body rest (unread_read ws _ _ Hu) Hall Hstop).
  rewrite <- read_app. fold lx1.
  destruct rest as [|c rest].
  - now rewrite (unread_end _ Hu1).
  - rewrite (unread_more _ _ _ Hu1), peek_unread, Hu1.
    cbn in Hstop. apply negb_true_iff in Hstop. unfold in_comment in Hstop.
    apply andb_false_iff in Hstop.
    destruct Hstop as [H|H]; apply negb_false_iff, Ascii.eqb_eq in H;
      subst c; reflexivity.
Qed.

End LexerTokens3.

(** X3. A comment goes from [#] to the end of its line and is skipped with
    the white space before it. At the end of the text the token is [EOF].
    The line feed that ends the comment is not skipped: it comes back as
    an [ERROR] token, with the line after the comment for line and 0 for
    column, and the next line is read from the token after. *)
Theorem comment_then_line_feed ws body :
  all Char.isspace ws = true ->
  all in_comment body = true ->
  let comment := ws ++ String "#"%char body in
  Lexer.get_next_token (Lexer.new comment)
  = (mkToken TokenType.EOF "" (fst (cursor comment (1, 1)))
       (snd (cursor comment (1, 1))),
     read comment (Lexer.new comment))
  /\ (forall rest,
         let text := comment ++ String Char.LF rest in
         let lx' := read (comment ++ String Char.LF "") (Lexer.new text) in
         Lexer.get_next_token (Lexer.new text)
         = (mkToken TokenType.ERROR (String Char.LF "")
              (fst (cursor comment (1, 1)) + 1) 0,
            lx')
         /\ unread lx' = rest).
Proof.
  intros Hws Hall comment. split.
  - assert (Hu : unread (Lexer.new comment)
                 = ws ++ String "#"%char (body ++ ""))
      by (cbn; now rewrite append_empty_r).
    destruct (get_next_token_comment _ ws body "" Hu Hws Hall eq_refl)
      as [_ ->]. fold comment.
    now rewrite read_new_whole.
  - intros rest text lx'.
    assert (Hu : unread (Lexer.new text)
                 = ws ++ String "#"%char (body ++ String Char.LF rest)).
    { subst text comment. cbn. rewrite append_assoc. reflexivity. }
    destruct (get_next_token_comment _ ws body (String Char.LF rest) Hu Hws
                Hall eq_refl) as [Hu1 ->]. fold comment in Hu1 |- *.
    assert (Hlx : lx' = snd (Lexer.advance (read comment (Lexer.new text)))).
    { subst lx'. now rewrite read_app. }
    destruct (unread_advance _ _ _ Hu1) as [Ha Hu2].
    split; [|now rewrite Hlx].
    unfold Lexer.single. rewrite <- Hlx. f_equal.
    rewrite Hlx, Ha. cbn. subst text. now rewrite read_new.
Qed.

Lemma comment_then_line_feed_witness :
  Lexer.get_next_token (Lexer.new " # drop")
  = (mkToken TokenType.EOF "" 1 8, Lexer.mk " # drop" 7 1 8)
  /\ Lexer.get_next_token
       (Lexer.new (" # drop" ++ String Char.LF "SELECT"))
     = (mkToken TokenType.ERROR (String Char.LF "") 2 0,
        Lexer.mk (" # drop" ++ String Char.LF "SELECT") 8 2 1).
Proof.
  destruct (comment_then_line_feed " " " drop" eq_refl eq_refl) as [H1 H2].
  split; [apply H1 | apply (H2 "SELECT")].
Defined.

Section LexerTokens4.

Lemma token_unknown lx c rest :
  unread lx = String c rest -> known_start c = false ->
  Lexer.get_next_token lx
  = Lexer.single TokenType.ERROR (Str.of_char c) lx.
Proof.
  intros Hu Hk. unfold known_start in Hk.
  apply orb_false_iff in Hk as [Hk Hpunct].
  apply orb_false_iff in Hk as [Hk Hquote].
  apply orb_false_iff in Hk as [Hk Hdigit].
  apply orb_false_iff in Hk as [Hk Hunder].
  apply orb_false_iff in Hk as [Hk Halpha].
  apply orb_false_iff in Hk as [Hspace Hhash].
  unfold punctuation in Hpunct. cbn [occurs] in Hpunct.
  repeat match type of Hpunct with
         | _ || _ = false =>
             let H := fresh "Hp" in
             apply orb_false_iff in Hpunct as [H Hpunct]
         end.
  token_start Hu Hspace Hhash.
  rewrite Halpha, Hunder, Hdigit. fold (is_quote c). rewrite Hquote.
  repeat match goal with
         | H : Ascii.eqb c ?d = false |- context [Ascii.eqb c ?d] => rewrite H
         end.
  reflexivity.
Qed.

Lemma token_bang lx rest :
  unread lx = String "!"%char rest -> stops (Ascii.eqb "="%char) rest = true ->
  Lexer.get_next_token lx
  = (mkToken TokenType.ERROR "!" (Lexer.line (read "!" lx))
       (Lexer.column (read "!" lx) - 1),
     read "!" lx).
Proof.
  intros Hu Hstop.
  token_start Hu (eq_refl false) (eq_refl false). char_tests "!"%char.
  destruct (unread_advance lx _ _ Hu) as [_ Hu1].
  unfold Lexer.one_or_two. rewrite (peek_unread (snd (Lexer.advance lx))), Hu1.
  assert (E : Ascii.eqb match rest with
                        | EmptyString => Char.NUL
                        | String c _ => c
                        end "="%char = false).
  { destruct rest as [|d rest]; [reflexivity|]. cbn in Hstop.
    apply negb_true_iff in Hstop. now rewrite Ascii.eqb_sym. }
  rewrite E. reflexivity.
Qed.

End LexerTokens4.

(** X4. A character that is no white space and starts no token the lexer
    knows makes a token of its own, of type [ERROR], with the character
    for lexeme and its line and column; the lexer goes on after it. So
    does [!] when no [=] follows it. *)
Theorem unknown_character_is_error_token ws :
  all Char.isspace ws = true ->
  (forall c rest,
      known_start c = false ->
      let text := ws ++ String c rest in
      let lx' := read (ws ++ String c "") (Lexer.new text) in
      Lexer.get_next_token (Lexer.new text)
      = (mkToken TokenType.ERROR (String c "") (fst (cursor ws (1, 1)))
           (snd (cursor ws (1, 1))),
         lx')
      /\ unread lx' = rest)
  /\ (forall rest,
         stops (Ascii.eqb "="%char) rest = true ->
         let text := ws ++ String "!"%char rest in
         let lx' := read (ws ++ "!") (Lexer.new text) in
         Lexer.get_next_token (Lexer.new text)
         = (mkToken TokenType.ERROR "!" (fst (cursor ws (1, 1)))
              (snd (cursor ws (1, 1))),
            lx')
         /\ unread lx' = rest).
Proof.
  intros Hws. split.
  - intros c rest Hk text lx'.
    assert (Hu : unread (Lexer.new text) = ws ++ String c rest) by reflexivity.
    assert (Hs : Char.isspace c = false).
    { pose proof Hk as Hk'. unfold known_start in Hk'.
      do 6 (apply orb_false_iff in Hk' as [Hk' _]). exact Hk'. }
    assert (Hlf : Ascii.eqb c Char.LF = false).
    { destruct (Ascii.eqb_spec c Char.LF) as [->|]; [discriminate|easy]. }
    assert (Hsplit : text = (ws ++ String c "") ++ rest)
      by (subst text; now rewrite append_assoc).
    split; [|apply unread_read; now rewrite <- Hsplit].
    rewrite (get_next_token_skip _ ws _ Hu Hws)
      by (cbn; now rewrite Hs).
    rewrite (token_unknown _ c rest (unread_read ws _ _ Hu) Hk).
    unfold Lexer.single.
    change (snd (Lexer.advance (read ws (Lexer.new text))))
      with (read (String c "") (read ws (Lexer.new text))).
    rewrite <- read_app. fold lx'. f_equal. subst lx'.
    rewrite Hsplit, read_new, cursor_app. cbn [cursor]. rewrite Hlf.
    cbn [Lexer.line Lexer.column fst snd Str.of_char]. f_equal. lia.
  - intros rest Hstop text lx'.
    assert (Hu : unread (Lexer.new text) = ws ++ String "!"%char rest)
      by reflexivity.
    assert (Hsplit : text = (ws ++ "!") ++ rest)
      by (subst text; now rewrite append_assoc).
    split; [|apply unread_read; now rewrite <- Hsplit].
    rewrite (get_next_token_skip _ ws _ Hu Hws eq_refl).
    rewrite (token_bang _ rest (unread_read ws _ _ Hu) Hstop).
    rewrite <- read_app. fold lx'. f_equal. subst lx'.
    rewrite Hsplit, read_new, cursor_app.
    cbn [Lexer.line Lexer.column fst snd cursor Ascii.eqb Bool.eqb Char.LF].
    f_equal. cbn. lia.
Qed.

Lemma unknown_character_is_error_token_witness :
  Lexer.get_next_token (Lexer.new " @x")
  = (mkToken TokenType.ERROR "@" 1 2, Lexer.mk " @x" 2 1 3)
  /\ Lexer.get_next_token (Lexer.new " !x")
     = (mkToken TokenType.ERROR "!" 1 2, Lexer.mk " !x" 2 1 3).
Proof.
  destruct (unknown_character_is_error_token " " eq_refl) as [H1 H2].
  split; [apply (H1 "@"%char "x"); reflexivity | apply (H2 "x"); reflexivity].
Defined.

Section LexerEnd.

Lemma keywords_not_eof w k : Lexer.keywords w = Some k -> k <> TokenType.EOF.
Proof.
  unfold Lexer.keywords.
  repeat match goal with
         | |- (if ?b then _ else _) = _ -> _ => destruct b
         end; intros H; inversion H; discriminate.
Qed.

Lemma identifier_not_eof lx : type (fst (Lexer.identifier lx)) <> TokenType.EOF.
Proof.
  unfold Lexer.identifier.
  destruct (Lexer.identifier_loop _ _ _) as [lexeme lx'].
  cbn [fst type].
  destruct (Lexer.keywords _) eqn:E; [now apply keywords_not_eof in E|].
  discriminate.
Qed.

Lemma number_not_eof lx : type (fst (Lexer.number lx)) <> TokenType.EOF.
Proof.
  unfold Lexer.number.
  destruct (Lexer.number_loop _ _ _ _) as [[lexeme []] lx']; discriminate.
Qed.

Lemma string_not_eof lx : type (fst (Lexer.string lx)) <> TokenType.EOF.
Proof.
  unfold Lexer.string. destruct (Lexer.advance lx) as [q lx1].
  destruct (Lexer.string_loop _ _ _ _) as [lexeme lx2].
  destruct (Ascii.eqb _ _); discriminate.
Qed.

Lemma one_or_two_not_eof k1 k2 t1 t2 lx :
  k1 <> TokenType.EOF -> k2 <> TokenType.EOF ->
  type (fst (Lexer.one_or_two k1 k2 t1 t2 lx)) <> TokenType.EOF.
Proof.
  intros H1 H2. unfold Lexer.one_or_two. destruct (Ascii.eqb _ _); assumption.
Qed.

(** The token is [EOF] only when nothing is left after white space and a
    comment. *)
Lemma eof_at_end lx :
  type (fst (Lexer.get_next_token lx)) = TokenType.EOF ->
  let lx' := Lexer.skip_comment (Lexer.skip_whitespace lx) in
  (String.length (Lexer.input lx') <= Lexer.position lx')%nat
  /\ Lexer.get_next_token lx
     = (mkToken TokenType.EOF "" (Lexer.line lx') (Lexer.column lx'), lx').
Proof.
  unfold Lexer.get_next_token.
  set (lx' := Lexer.skip_comment (Lexer.skip_whitespace lx)).
  destruct (Nat.leb_spec (String.length (Lexer.input lx')) (Lexer.position lx'))
    as [Hend|Hin]; [intros _; split; [exact Hend | reflexivity]|].
  intros H. exfalso. revert H.
  repeat match goal with
         | |- type (fst (if ?b then _ else _)) = _ -> _ => destruct b
         end;
    first [ apply identifier_not_eof | apply number_not_eof
          | apply string_not_eof
          | apply one_or_two_not_eof; discriminate
          | discriminate ].
Qed.

Lemma skip_at_end lx :
  (String.length (Lexer.input lx) <= Lexer.position lx)%nat ->
  Lexer.skip_comment (Lexer.skip_whitespace lx) = lx.
Proof.
  intros H. pose proof (peek_end lx H) as Hp.
  unfold Lexer.skip_whitespace.
  assert (Lexer.skip_whitespace_loop (Lexer.remaining lx) lx = lx) as ->
    by (destruct (Lexer.remaining lx); cbn; now rewrite Hp).
  unfold Lexer.skip_comment. now rewrite Hp.
Qed.

Lemma eof_stays lx :
  type (fst (Lexer.get_next_token lx)) = TokenType.EOF ->
  Lexer.get_next_token (snd (Lexer.get_next_token lx))
  = Lexer.get_next_token lx.
Proof.
  intros H. destruct (eof_at_end lx H) as [Hend Heq]. rewrite Heq.
  cbn [snd]. unfold Lexer.get_next_token at 1.
  rewrite (skip_at_end _ Hend).
  destruct (Nat.leb_spec
              (String.length
                 (Lexer.input (Lexer.skip_comment (Lexer.skip_whitespace lx))))
              (Lexer.position (Lexer.skip_comment (Lexer.skip_whitespace lx))));
    [reflexivity | lia].
Qed.

Lemma tokens_loop_shape fuel lx :
  inside lx -> (Lexer.remaining lx <= fuel)%nat ->
  exists front eof,
    Lexer.tokens_loop fuel lx = (front ++ [eof])%list
    /\ type eof = TokenType.EOF /\ lexeme eof = ""
    /\ Forall (fun token => type token <> TokenType.EOF) front
    /\ (length front <= Lexer.remaining lx)%nat.
Proof.
  revert lx. induction fuel as [|fuel IH]; intros lx Hlx Hf;
    cbn [Lexer.tokens_loop];
    destruct (get_next_token_ahead lx Hlx) as [H0 H1];
    pose proof (eof_at_end lx) as Heof;
    destruct (Lexer.get_next_token lx) as [tok lx1]; cbn [fst snd] in *;
    destruct (TokenType.eqb (type tok) TokenType.EOF) eqn:E.
  1, 3: assert (Ht : type tok = TokenType.EOF)
      by (revert E; destruct (type tok); vm_compute; congruence);
    destruct (Heof Ht) as [_ Heq]; inversion Heq; subst;
    exists [], (mkToken TokenType.EOF "" 
                  (Lexer.line (Lexer.skip_comment (Lexer.skip_whitespace lx)))
                  (Lexer.column (Lexer.skip_comment (Lexer.skip_whitespace lx))));
    repeat split; auto; cbn; lia.
  - assert (Hne : type tok <> TokenType.EOF)
      by (intros Heq; rewrite Heq in E; discriminate).
    pose proof (ahead_remaining _ _ _ (H1 Hne)). lia.
  - assert (Hne : type tok <> TokenType.EOF)
      by (intros Heq; rewrite Heq in E; discriminate).
    pose proof (ahead_remaining _ _ _ (H1 Hne)) as Hr.
    destruct (IH lx1 (ahead_inside _ _ _ H0) ltac:(lia))
      as (front & eof & -> & Ht & Hl & Hall & Hlen).
    exists (tok :: front), eof. repeat split; auto.
    cbn [length]. lia.
Qed.

End LexerEnd.

(** X5. Reading tokens up to [EOF] ends for every text: a text of [n]
    characters gives [n] tokens at most and then one [EOF] token, with
    the empty lexeme. Once the lexer has given [EOF] it stays where it
    is: the next call gives the same token again. *)
Theorem tokens_end_with_one_eof :
  (forall text,
      exists front eof,
        Lexer.tokens text = (front ++ [eof])%list
        /\ type eof = TokenType.EOF /\ lexeme eof = ""
        /\ Forall (fun token => type token <> TokenType.EOF) front
        /\ (length front <= String.length text)%nat)
  /\ (forall lx,
         type (fst (Lexer.get_next_token lx)) = TokenType.EOF ->
         Lexer.get_next_token (snd (Lexer.get_next_token lx))
         = Lexer.get_next_token lx).
Proof.
  split; [|exact eof_stays].
  intros text. unfold Lexer.tokens.
  destruct (tokens_loop_shape (String.length text) (Lexer.new text))
    as (front & eof & H); [unfold inside; cbn; lia | cbn; lia |].
  exists front, eof. replace (String.length text)
    with (Lexer.remaining (Lexer.new text)) at 2
    by (unfold Lexer.remaining; cbn; lia).
  exact H.
Qed.

Lemma tokens_end_with_one_eof_witness :
  Lexer.get_next_token (snd (Lexer.get_next_token (Lexer.new " # end")))
  = Lexer.get_next_token (Lexer.new " # end").
Proof. apply (proj2 tokens_end_with_one_eof). reflexivity. Defined.

(** ** What a statement does to the dictionary *)

Section Effects.

Lemma database_eta db : Database.mk (Database.tables db) = db.
Proof. now destruct db. Qed.

Lemma store_same db key t :
  Database.tables db !! key = Some t ->
  Database.mk (<[key := t]> (Database.tables db)) = db.
Proof. intros H. destruct db as [m]. cbn in *. now rewrite insert_id. Qed.

Lemma with_rows_same t : Database.with_rows t (Table.rows t) = t.
Proof. now destruct t. Qed.

(** [add_row] changes the table only when it returns [True], and then by
    one row at the end, of the width of the table and of the types of its
    columns. *)
Lemma add_row_effect t values :
  match Table.add_row t values with
  | (true, t', out) =>
      t' = Database.with_rows t (Table.rows t ++ [values])%list
      /\ length values = length (Table.columns t)
      /\ Table.first_mismatch values (Table.columns t) = None
      /\ out = []
  | (false, t', out) => t' = t /\ exists message, out = [message]
  end.
Proof.
  unfold Table.add_row.
  destruct (Nat.eqb_spec (length values) (length (Table.columns t))); cbn;
    [|eauto].
  destruct (Table.first_mismatch _ _); cbn; eauto.
Qed.

(** Follow a statement through the cases of its text. *)
Ltac exec_cases :=
  repeat (cbn [fst snd];
          match goal with
          | |- context [match ?x with _ => _ end] =>
              lazymatch x with
              | context [match _ with _ => _ end] => fail
              | _ => destruct x eqn:?
              end
          end).

(** [SELECT] leaves the database as it is, whatever its outcome. *)
Lemma select_effect cols ts js w db :
  after db (Database.execute_query (SelectStmt cols ts js w)) = db.
Proof.
  unfold after. exec_unfold.
  cbn [AST.type AST.get_tables AST.columns AST.get_where_clause].
  destruct ts as [|tn ts]; [reflexivity|].
  exec_cases; reflexivity.
Qed.

(** [INSERT] changes the database only when it returns [True]: the table
    has then one row more, at the end, that [add_row] accepted. *)
Lemma insert_effect tnode cols vals db :
  let db' := after db (Database.execute_query (InsertStmt tnode cols vals)) in
  db' = db
  \/ exists name t values,
      AST.name tnode = Ok (AST.Text name)
      /\ Database.tables db !! Str.lower name = Some t
      /\ Table.add_row t values
         = (true, Database.with_rows t (Table.rows t ++ [values])%list, [])
      /\ db' = Database.mk
                 (<[Str.lower name :=
                      Database.with_rows t (Table.rows t ++ [values])%list]>
                    (Database.tables db)).
Proof.
  unfold after. exec_unfold.
  cbn [AST.type AST.table AST.columns AST.values].
  destruct (AST.name tnode) as [[s|node]|e] eqn:Hname; cbn [AST.lower];
    try (left; reflexivity).
  destruct (Database.tables db !! Str.lower s) as [t|] eqn:Hlook;
    [|left; reflexivity].
  assert (Hrow : forall values,
    let db1 :=
      Database.mk
        (<[Str.lower s := snd (fst (Table.add_row t values))]>
           (Database.tables db)) in
    db1 = db
    \/ exists name t0 values0,
        Ok (AST.Text s) = Ok (AST.Text name)
        /\ Database.tables db !! Str.lower name = Some t0
        /\ Table.add_row t0 values0
           = (true,
              Database.with_rows t0 (Table.rows t0 ++ [values0])%list, [])
        /\ db1 = Database.mk
                   (<[Str.lower name :=
                        Database.with_rows t0
                          (Table.rows t0 ++ [values0])%list]>
                      (Database.tables db))).
  { intros values. pose proof (add_row_effect t values) as H.
    destruct (Table.add_row t values) as [[[] t'] out] eqn:Eadd;
      cbn [fst snd].
    - destruct H as (-> & _ & _ & ->). right.
      exists s, t, values. repeat split; auto.
    - destruct H as [-> _]. left. now apply store_same. }
  destruct cols as [|c cols].
  - destruct (Database.evaluate_all vals) as [[values|e] o]; cbn;
      [|left; reflexivity].
    specialize (Hrow values).
    destruct (Table.add_row t values) as [[[] t'] o']; cbn in *; exact Hrow.
  - destruct (Database.resolve_columns t (AST.Text s) (c :: cols) [])
      as [[[idxs|]|e] o]; cbn; try (left; reflexivity).
    destruct (Database.fill_values _ _ _ _) as [[values|e] o2]; cbn;
      [|left; reflexivity].
    specialize (Hrow values).
    destruct (Table.add_row t values) as [[[] t'] o']; cbn in *; exact Hrow.
Qed.

(** The rows that the loop of [DELETE] keeps are rows of the table, in
    their order, whatever the condition. *)
Lemma partition_rows_sublist w t rows keep n keep' n' out :
  Database.partition_rows w t rows keep n = (Ok (keep', n'), out) ->
  exists kept,
    keep' = (keep ++ kept)%list /\ sublist kept rows
    /\ n' = (n + (length rows - length kept))%nat.
Proof.
  revert keep n out. induction rows as [|row rows IH]; intros keep n out.
  - cbn. intros [= <- <- <-]. exists []. rewrite app_nil_r.
    split; [reflexivity|]. split; [constructor | cbn; lia].
  - cbn [Database.partition_rows]. unfold IO.bind at 1.
    destruct (match w with
              | Some condition => _
              | None => _
              end) as [[keep_row|e] o]; [|discriminate].
    destruct keep_row.
    + destruct (Database.partition_rows w t rows (keep ++ [row]) n)
        as [[[k m]|e] o'] eqn:E; [|discriminate].
      intros [= <- <- <-].
      destruct (IH _ _ _ E) as (kept & -> & Hsub & ->).
      exists (row :: kept). rewrite <- app_assoc.
      pose proof (sublist_length _ _ Hsub).
      split; [reflexivity|]. split; [now constructor | cbn [length]; lia].
    + destruct (Database.partition_rows w t rows keep (S n))
        as [[[k m]|e] o'] eqn:E; [|discriminate].
      intros [= <- <- <-].
      destruct (IH _ _ _ E) as (kept & -> & Hsub & ->).
      exists kept. pose proof (sublist_length _ _ Hsub).
      split; [reflexivity|]. split; [now constructor | cbn [length]; lia].
Qed.

Lemma delete_effect tnode w db :
  let db' := after db (Database.execute_query (DeleteStmt tnode w)) in
  db' = db
  \/ exists name t kept,
      AST.name tnode = Ok (AST.Text name)
      /\ Database.tables db !! Str.lower name = Some t
      /\ sublist kept (Table.rows t)
      /\ db' = Database.mk
                 (<[Str.lower name := Database.with_rows t kept]>
                    (Database.tables db)).
Proof.
  unfold after. exec_unfold.
  cbn [AST.type AST.table AST.get_where_clause].
  destruct (AST.name tnode) as [[s|node]|e] eqn:Hname; cbn [AST.lower];
    try (left; reflexivity).
  destruct (Database.tables db !! Str.lower s) as [t|] eqn:Hlook;
    [|left; reflexivity].
  destruct (Database.partition_rows w t (Table.rows t) [] 0)
    as [[[keep k]|e] o] eqn:E; cbn; [|left; reflexivity].
  destruct (partition_rows_sublist _ _ _ _ _ _ _ _ E) as (kept & -> & Hs & _).
  right. exists s, t, kept. repeat split; auto.
Qed.

Lemma update_effect tnode sets w db :
  let db' := after db (Database.execute_query (UpdateStmt tnode sets w)) in
  db' = db
  \/ exists name t rows,
      AST.name tnode = Ok (AST.Text name)
      /\ Database.tables db !! Str.lower name = Some t
      /\ db' = Database.mk
                 (<[Str.lower name := Database.with_rows t rows]>
                    (Database.tables db)).
Proof.
  unfold after. exec_unfold.
  cbn [AST.type AST.table AST.set_clauses AST.get_where_clause].
  destruct (AST.name tnode) as [[s|node]|e] eqn:Hname; cbn [AST.lower];
    try (left; reflexivity).
  destruct (Database.tables db !! Str.lower s) as [t|] eqn:Hlook;
    [|left; reflexivity].
  destruct (Database.resolve_set_clauses t (AST.Text s) sets [])
    as [[[clauses|]|e] o]; cbn; try (left; reflexivity).
  destruct (Database.update_rows w t clauses (Table.rows t) 0)
    as [[r rows] o']. cbn.
  right. exists s, t, rows. repeat split; auto.
  destruct r; reflexivity.
Qed.

Lemma create_effect tnode cols db :
  let db' := after db (Database.execute_query (CreateStmt tnode cols)) in
  db' = db
  \/ exists name columns,
      AST.name tnode = Ok (AST.Text name)
      /\ res_map Database.column_def cols = Ok columns
      /\ Database.tables db !! Str.lower name = None
      /\ db' = Database.mk
                 (<[Str.lower name := Table.new name columns None]>
                    (Database.tables db)).
Proof.
  unfold after. exec_unfold.
  cbn [AST.type AST.table AST.columns]. unfold Database.create_table.
  destruct (AST.name tnode) as [[s|node]|e] eqn:Hname; cbn;
    try (left; reflexivity).
  - destruct (res_map Database.column_def cols) as [columns|e] eqn:Hcols;
      cbn; [|left; reflexivity].
    destruct (Database.tables db !! Str.lower s) eqn:Hlook; cbn;
      [left; reflexivity|].
    right. exists s, columns. repeat split; auto.
  - destruct (res_map Database.column_def cols); left; reflexivity.
Qed.

Lemma drop_effect tnode db :
  let db' := after db (Database.execute_query (DropStmt tnode)) in
  db' = db
  \/ exists name,
      AST.name tnode = Ok (AST.Text name)
      /\ db' = Database.mk (delete (Str.lower name) (Database.tables db)).
Proof.
  unfold after. exec_unfold.
  cbn [AST.type AST.table]. unfold Database.drop_table.
  destruct (AST.name tnode) as [[s|node]|e] eqn:Hname; cbn;
    try (left; reflexivity).
  destruct (Database.tables db !! Str.lower s) eqn:Hlook; cbn;
    [|left; reflexivity].
  right. exists s. split; reflexivity.
Qed.

End Effects.

Section Invariant.

Lemma database_invariant_lookup db :
  database_invariant db = true
  <-> forall key t,
      Database.tables db !! key = Some t -> table_invariant t = true.
Proof.
  unfold database_invariant. rewrite forallb_forall. split.
  - intros H key t Hlook.
    apply (H (key, t)). apply list_elem_of_In.
    now apply elem_of_map_to_list.
  - intros H [key t] Hin. apply list_elem_of_In, elem_of_map_to_list in Hin.
    exact (H key t Hin).
Qed.

Lemma forallb_sublist {A : Type} (f : A -> bool) (kept rows : list A) :
  sublist kept rows -> forallb f rows = true -> forallb f kept = true.
Proof.
  induction 1 as [|x l1 l2 _ IH|x l1 l2 _ IH]; cbn; auto.
  - intros H. apply andb_true_iff in H as [-> H]. now rewrite IH.
  - intros H. apply andb_true_iff in H as [_ H]. auto.
Qed.

Lemma invariant_store db key t :
  database_invariant db = true -> table_invariant t = true ->
  database_invariant (Database.mk (<[key := t]> (Database.tables db))) = true.
Proof.
  rewrite !database_invariant_lookup. cbn. intros Hdb Ht k t' Hlook.
  destruct (decide (key = k)) as [->|Hne].
  - rewrite lookup_insert_eq in Hlook. congruence.
  - rewrite lookup_insert_ne in Hlook by assumption. eauto.
Qed.

Lemma invariant_delete db key :
  database_invariant db = true ->
  database_invariant (Database.mk (delete key (Database.tables db))) = true.
Proof.
  rewrite !database_invariant_lookup. cbn. intros Hdb k t' Hlook.
  apply lookup_delete_Some in Hlook as [_ Hlook]. eauto.
Qed.

End Invariant.

(** X6. A statement changes no table but its own: whatever the node given
    to [execute_query] and whatever the outcome, an exception too, the
    dictionary holds after it what it held before under every key other
    than the lower-case name of the table of the statement. A [SELECT]
    changes nothing at all. *)
Theorem statement_changes_its_table_only :
  (forall ast db key,
      statement_key ast <> Some key ->
      Database.tables (after db (Database.execute_query ast)) !! key
      = Database.tables db !! key)
  /\ (forall cols ts js w db,
         after db (Database.execute_query (SelectStmt cols ts js w)) = db).
Proof.
  split; [|exact select_effect].
  intros ast db key Hkey.
  destruct ast as [| | | | | | |cols ts js w|table columns values
                  |table set_clauses where_clause|table where_clause
                  |table columns|table];
    try reflexivity.
  - now rewrite select_effect.
  - destruct (insert_effect table columns values db)
      as [->|(name & t & vs & Hn & _ & _ & ->)]; [reflexivity|].
    cbn. unfold statement_key in Hkey. cbn in Hkey. rewrite Hn in Hkey.
    apply lookup_insert_ne. congruence.
  - destruct (update_effect table set_clauses where_clause db)
      as [->|(name & t & rows & Hn & _ & ->)]; [reflexivity|].
    cbn. unfold statement_key in Hkey. cbn in Hkey. rewrite Hn in Hkey.
    apply lookup_insert_ne. congruence.
  - destruct (delete_effect table where_clause db)
      as [->|(name & t & kept & Hn & _ & _ & ->)]; [reflexivity|].
    cbn. unfold statement_key in Hkey. cbn in Hkey. rewrite Hn in Hkey.
    apply lookup_insert_ne. congruence.
  - destruct (create_effect table columns db)
      as [->|(name & cs & Hn & _ & _ & ->)]; [reflexivity|].
    cbn. unfold statement_key in Hkey. cbn in Hkey. rewrite Hn in Hkey.
    apply lookup_insert_ne. congruence.
  - destruct (drop_effect table db) as [->|(name & Hn & ->)]; [reflexivity|].
    cbn. unfold statement_key in Hkey. cbn in Hkey. rewrite Hn in Hkey.
    apply lookup_delete_ne. congruence.
Qed.

Lemma statement_changes_its_table_only_witness :
  Database.tables
    (after two_rows_db
       (Database.execute_query (DropStmt (Identifier "u")))) !! "t"
  = Database.tables two_rows_db !! "t".
Proof.
  apply (proj1 statement_changes_its_table_only). discriminate.
Defined.

(** X7. The statements other than [UPDATE] keep the types of the tables:
    when every row of every table has the width of its table and values
    of the types of its columns, this is so again after [execute_query],
    whatever the node and the outcome. *)
Theorem statements_but_update_keep_types ast db :
  AST.type ast <> NodeType.UPDATE_STMT ->
  database_invariant db = true ->
  database_invariant (after db (Database.execute_query ast)) = true.
Proof.
  intros Hkind Hinv.
  destruct ast as [| | | | | | |cols ts js w|table columns values
                  |table set_clauses where_clause|table where_clause
                  |table columns|table];
    try assumption.
  - now rewrite select_effect.
  - destruct (insert_effect table columns values db)
      as [->|(name & t & vs & _ & Hlook & Hadd & ->)]; [assumption|].
    apply invariant_store; [assumption|].
    pose proof (add_row_keeps_invariant t vs) as H. rewrite Hadd in H.
    apply H.
    exact (proj1 (database_invariant_lookup db) Hinv _ t Hlook).
  - now cbn in Hkind.
  - destruct (delete_effect table where_clause db)
      as [->|(name & t & kept & _ & Hlook & Hsub & ->)]; [assumption|].
    apply invariant_store; [assumption|].
    pose proof (proj1 (database_invariant_lookup db) Hinv _ t Hlook) as Ht.
    unfold table_invariant in *. cbn.
    now apply (forallb_sublist _ kept (Table.rows t)).
  - destruct (create_effect table columns db)
      as [->|(name & cs & _ & _ & _ & ->)]; [assumption|].
    apply invariant_store; [assumption | reflexivity].
  - destruct (drop_effect table db) as [->|(name & _ & ->)]; [assumption|].
    now apply invariant_delete.
Qed.

Lemma statements_but_update_keep_types_witness :
  database_invariant
    (after two_rows_db
       (Database.execute_query
          (DeleteStmt (Identifier "t")
             (Some (Condition (Identifier "id") TokenType.EQUALS
                      (Literal TokenType.INTEGER (Py.VInt 1)))))))
  = true.
Proof.
  apply statements_but_update_keep_types; [discriminate | reflexivity].
Defined.

(** X8. [CREATE TABLE] and [DROP TABLE] undo each other, and names count
    without their letter case: after a table was created under a name that
    was free, it is found under every spelling of the name, creating it
    again is refused with a message and changes nothing, and dropping it
    gives back the database as it was before. Dropping a table that does
    not exist is refused with a message and changes nothing. *)
Theorem create_then_drop_restores db name cols columns :
  Database.tables db !! Str.lower name = None ->
  res_map Database.column_def cols = Ok columns ->
  let created := Table.new name columns None in
  let db1 :=
    Database.mk (<[Str.lower name := created]> (Database.tables db)) in
  Database.execute_query (CreateStmt (Identifier name) cols) db
  = (Ok true, db1, [TableCreated (AST.Text name)])
  /\ Database.execute_query (DropStmt (Identifier name)) db
     = (Ok false, db, [TableDoesNotExist name])
  /\ (forall name',
         Str.lower name' = Str.lower name ->
         Database.get_table (AST.Text name') db1 = (Ok (Some created), db1, [])
         /\ Database.execute_query (CreateStmt (Identifier name') cols) db1
            = (Ok false, db1, [TableAlreadyExists name'])
         /\ Database.execute_query (DropStmt (Identifier name')) db1
            = (Ok true, db, [TableDropped (AST.Text name')])).
Proof.
  intros Hfree Hcols created db1.
  split; [|split].
  - exec_unfold. cbn [AST.type AST.table AST.name AST.columns].
    rewrite Hcols. unfold Database.create_table. cbn. now rewrite Hfree.
  - exec_unfold. cbn [AST.type AST.table AST.name].
    unfold Database.drop_table. cbn. now rewrite Hfree.
  - intros name' Hsame.
    assert (Hlook : Database.tables db1 !! Str.lower name' = Some created)
      by (rewrite Hsame; apply lookup_insert_eq).
    assert (Hdrop : Database.mk (delete (Str.lower name') (Database.tables db1))
                    = db).
    { subst db1. cbn. rewrite Hsame, delete_insert_eq, delete_id by assumption.
      apply database_eta. }
    clearbody db1 created.
    split; [|split].
    + unfold Database.get_table, Database.bind, Database.lift. cbn.
      now rewrite Hlook.
    + exec_unfold. cbn [AST.type AST.table AST.name AST.columns].
      rewrite Hcols. unfold Database.create_table. cbn. now rewrite Hlook.
    + exec_unfold. cbn [AST.type AST.table AST.name].
      unfold Database.drop_table. cbn. now rewrite Hlook, Hdrop.
Qed.

Lemma create_then_drop_restores_witness :
  let cols := [ColumnDefinition (Identifier "id") TokenType.INT] in
  let columns := [ColumnDef.mk (AST.Node (Identifier "id")) TokenType.INT] in
  Database.execute_query (CreateStmt (Identifier "Users") cols) Database.new
  = (Ok true,
     Database.mk (<["users" := Table.new "Users" columns None]> ∅),
     [TableCreated (AST.Text "Users")])
  /\ Database.execute_query (DropStmt (Identifier "USERS"))
       (Database.mk (<["users" := Table.new "Users" columns None]> ∅))
     = (Ok true, Database.new, [TableDropped (AST.Text "USERS")]).
Proof.
  intros cols columns.
  destruct (create_then_drop_restores Database.new "Users" cols columns
              eq_refl eq_refl) as (H1 & _ & H3).
  split; [exact H1 | exact (proj2 (proj2 (H3 "USERS" eq_refl)))].
Defined.

(** X9. A table made by a [CREATE TABLE] statement cannot be searched by
    column name: [_execute_create] gives each [ColumnDef] the identifier
    node of the column for name, and [get_column_index] calls [lower] on
    it. So on such a table every [UPDATE], every [INSERT] with a column
    list and every [SELECT] of named columns raises [AttributeError] and
    leaves the database as it is. *)
Theorem created_table_cannot_be_searched db name cols db1 out :
  Database.execute_query (CreateStmt (Identifier name) cols) db
  = (Ok true, db1, out) ->
  cols <> [] ->
  exists table,
    Database.tables db1 !! Str.lower name = Some table
    /\ (forall cname,
           Table.get_column_index table cname = Raise AttributeError)
    /\ (forall c rhs sets w,
           Database.execute_query
             (UpdateStmt (Identifier name)
                (Expression (Identifier c) TokenType.EQUALS rhs :: sets) w)
             db1
           = (Raise AttributeError, db1, []))
    /\ (forall c cs vals,
           Database.execute_query
             (InsertStmt (Identifier name) (Identifier c :: cs) vals) db1
           = (Raise AttributeError, db1, []))
    /\ (forall c cs ts js w,
           c <> "*" ->
           Database.execute_query
             (SelectStmt (Identifier c :: cs) (TableRef name :: ts) js w) db1
           = (Raise AttributeError, db1, [])).
Proof.
  intros Hrun Hcols.
  assert (Hmade : exists columns,
             res_map Database.column_def cols = Ok columns
             /\ db1 = Database.mk
                        (<[Str.lower name := Table.new name columns None]>
                           (Database.tables db))).
  { revert Hrun. exec_unfold. cbn [AST.type AST.table AST.name AST.columns].
    unfold Database.create_table.
    destruct (res_map Database.column_def cols) as [columns|e]; cbn;
      [|discriminate].
    destruct (Database.tables db !! Str.lower name); cbn; [discriminate|].
    intros [= <- <-]. eauto. }
  destruct Hmade as (columns & Hdefs & ->).
  destruct (column_defs_node cols columns Hdefs Hcols)
    as (n & column & rest & -> & Hn).
  set (table := Table.new name (column :: rest) None).
  assert (Hsearch : forall cname,
             Table.get_column_index table cname = Raise AttributeError)
    by (intros; now apply (node_named_lookup table n column rest)).
  assert (Hlook : Database.tables
                    (Database.mk (<[Str.lower name := table]>
                                    (Database.tables db)))
                  !! Str.lower name = Some table)
    by apply lookup_insert_eq.
  exists table. split; [exact Hlook|]. split; [exact Hsearch|].
  set (db1 := Database.mk _) in *. clearbody db1 table.
  split; [|split].
  - intros c rhs sets w. exec_unfold.
    cbn [AST.type AST.table AST.name AST.lower AST.set_clauses].
    rewrite Hlook. cbn. now rewrite Hsearch.
  - intros c cs vals. exec_unfold.
    cbn [AST.type AST.table AST.name AST.lower AST.columns].
    rewrite Hlook. cbn. now rewrite Hsearch.
  - intros c cs ts js w Hstar. exec_unfold.
    cbn [AST.type AST.get_tables AST.name AST.lower AST.columns].
    rewrite Hlook, getitem_0. cbn [AST.name Database.is_asterisk].
    destruct (String.eqb_spec c "*") as [|_]; [contradiction|].
    cbn. now rewrite Hsearch.
Qed.

Lemma created_table_cannot_be_searched_witness :
  exists table,
    Database.tables
      (after Database.new
         (run_statement "CREATE TABLE users (id INT, name TEXT)"))
    !! "users" = Some table
    /\ forall cname, Table.get_column_index table cname = Raise AttributeError.
Proof.
  destruct (created_table_cannot_be_searched Database.new "users"
              [ColumnDefinition (Identifier "id") TokenType.INT;
               ColumnDefinition (Identifier "name") TokenType.TEXT]
              (after Database.new
                 (run_statement "CREATE TABLE users (id INT, name TEXT)"))
              [TableCreated (AST.Text "users")] eq_refl)
    as (table & H1 & H2 & _); [discriminate|].
  exists table. split; assumption.
Defined.

Section ColumnSearch.

Lemma column_keys_length cols :
  Forall (fun col => exists s, ColumnDef.name col = AST.Text s) cols ->
  length (column_keys cols) = length cols.
Proof.
  induction 1 as [|col cols [s Hs] _ IH]; [reflexivity|].
  unfold column_keys in *. cbn. rewrite Hs. cbn. now rewrite IH.
Qed.

Lemma get_column_index_from_first start cols name :
  Forall (fun col => exists s, ColumnDef.name col = AST.Text s) cols ->
  ((Str.lower name ∉ column_keys cols)
   /\ Table.get_column_index_from start cols (AST.Text name) = Ok (-1))
  \/ exists k : nat,
      column_keys cols !! k = Some (Str.lower name)
      /\ (forall j key, (j < k)%nat -> column_keys cols !! j = Some key ->
                        key <> Str.lower name)
      /\ Table.get_column_index_from start cols (AST.Text name)
         = Ok (start + Z.of_nat k).
Proof.
  intros H. revert start.
  induction H as [|col cols [s Hs] _ IH]; intros start.
  - left. split; [apply not_elem_of_nil | reflexivity].
  - unfold column_keys in *. cbn [omap list_omap Table.get_column_index_from].
    rewrite Hs. cbn [AST.lower res_bind].
    destruct (String.eqb_spec (Str.lower s) (Str.lower name)) as [Heq|Hne].
    + right. exists 0%nat. rewrite Heq. split; [reflexivity|].
      split; [intros; lia | f_equal; lia].
    + destruct (IH (start + 1)) as [[Hnot ->]|(k & Hk & Hfirst & ->)].
      * left. split; [|reflexivity].
        intros Hin. apply elem_of_cons in Hin as [Hin|Hin]; congruence.
      * right. exists (S k). split; [exact Hk|]. split.
        -- intros [|j] key Hj; cbn; [congruence|].
           apply Hfirst. lia.
        -- f_equal. lia.
Qed.

End ColumnSearch.

(** X10. [get_column_index] compares names without their letter case and
    returns the index of the first column that has the name, and -1 when
    no column has it; an index it returns is less than the number of
    columns. The columns are named by text. *)
Theorem get_column_index_first_match table name :
  text_named table ->
  let keys := column_keys (Table.columns table) in
  (Str.lower name ∉ keys ->
   Table.get_column_index table (AST.Text name) = Ok (-1))
  /\ (forall k : nat,
         keys !! k = Some (Str.lower name) ->
         (forall j, (j < k)%nat -> keys !! j <> Some (Str.lower name)) ->
         Table.get_column_index table (AST.Text name) = Ok (Z.of_nat k)
         /\ (k < length (Table.columns table))%nat)
  /\ (exists i,
         Table.get_column_index table (AST.Text name) = Ok i
         /\ -1 <= i < Z.of_nat (length (Table.columns table))).
Proof.
  intros Htext keys. unfold Table.get_column_index.
  pose proof (column_keys_length _ Htext) as Hlen.
  destruct (get_column_index_from_first 0 (Table.columns table) name Htext)
    as [[Hnot Hget]|(k & Hk & Hfirst & Hget)].
  - split; [auto|]. split; [|exists (-1); split; [assumption | lia]].
    intros k Hk _. exfalso. apply Hnot.
    apply list_elem_of_lookup. eauto.
  - pose proof (lookup_lt_Some _ _ _ Hk) as Hlt. fold keys in Hk, Hfirst.
    split; [|split].
    + intros Hnot. exfalso. apply Hnot.
      apply list_elem_of_lookup. eauto.
    + intros k' Hk' Hfirst'.
      assert (k' = k) as ->.
      { destruct (Nat.lt_trichotomy k' k) as [Hlt'|[->|Hgt]]; auto.
        - exfalso. exact (Hfirst k' _ Hlt' Hk' eq_refl).
        - exfalso. exact (Hfirst' k Hgt Hk). }
      rewrite Hget. split; [reflexivity | lia].
    + exists (Z.of_nat k). rewrite Hget. split; [reflexivity | lia].
Qed.

Lemma get_column_index_first_match_witness :
  Table.get_column_index (example_table []) (AST.Text "NAME") = Ok 1
  /\ Table.get_column_index (example_table []) (AST.Text "age") = Ok (-1).
Proof.
  assert (Htext : text_named (example_table []))
    by (repeat constructor; eexists; reflexivity).
  split.
  - apply (proj1 (proj2 (get_column_index_first_match (example_table [])
                           "NAME" Htext)) 1%nat); [reflexivity|].
    intros [|j] Hj; [discriminate | lia].
  - apply (proj1 (get_column_index_first_match (example_table []) "age"
                    Htext)).
    vm_compute. intros H. repeat (apply elem_of_cons in H as [H|H];
      [discriminate|]). now apply not_elem_of_nil in H.
Defined.

Section Select.

Lemma filter_rows_spec w t rows acc :
  evaluable w t rows ->
  exists printed,
    Database.filter_rows w t rows acc
    = (Ok (acc ++ List.filter (selected_by w t) rows)%list, printed).
Proof.
  revert acc. induction rows as [|row rows IH]; intros acc Hev.
  - exists []. cbn. now rewrite app_nil_r.
  - assert (Hev' : evaluable w t rows).
    { destruct w; cbn in *; [now inversion Hev | exact I]. }
    assert (Hrow : exists b, fst (Database.matches w t row) = Ok b).
    { destruct w; cbn in *; [now inversion Hev | eauto]. }
    destruct Hrow as [b Hb].
    cbn [Database.filter_rows List.filter]. unfold selected_by at 1.
    rewrite Hb.
    destruct (Database.matches w t row) as [r out]. cbn in Hb. subst r.
    cbn [IO.bind].
    destruct b.
    + destruct (IH (acc ++ [row])%list Hev') as [printed ->].
      eexists. rewrite <- app_assoc. reflexivity.
    + destruct (IH acc Hev') as [printed ->]. eexists. reflexivity.
Qed.

Lemma getitem_lookup {A : Type} (l : list A) (i : Z) :
  0 <= i < Z.of_nat (length l) ->
  exists x, l !! Z.to_nat i = Some x /\ Py.getitem l i = Ok x.
Proof.
  intros H. unfold Py.getitem, Py.index.
  replace (0 <=? i) with true by (symmetry; apply Z.leb_le; lia).
  replace (i <? Z.of_nat (length l)) with true
    by (symmetry; apply Z.ltb_lt; lia).
  cbn. destruct (lookup_lt_is_Some_2 l (Z.to_nat i)) as [x Hx]; [lia|].
  rewrite Hx. eauto.
Qed.

Lemma cells_shown row idxs :
  Forall (fun i => 0 <= i < Z.of_nat (length row)) idxs ->
  res_map (Table.cell row) idxs = Ok (shown idxs row).
Proof.
  induction 1 as [|i idxs Hi _ IH]; [reflexivity|].
  cbn [res_map shown map]. unfold Table.cell at 1.
  destruct (getitem_lookup row i Hi) as (v & Hv & ->). cbn [res_bind].
  rewrite IH, Hv. cbn. destruct v; reflexivity.
Qed.

Lemma print_rows_shown rows idxs width :
  Forall (fun row => length row = width) rows ->
  Forall (fun i => 0 <= i < Z.of_nat width) idxs ->
  Table.print_rows rows idxs
  = (Ok tt, map (fun row => TableRow (shown idxs row)) rows).
Proof.
  intros Hrows Hidx. induction Hrows as [|row rows Hw _ IH]; [reflexivity|].
  cbn [Table.print_rows map]. unfold IO.lift at 1.
  rewrite cells_shown by (now rewrite Hw). cbn [IO.bind IO.print].
  rewrite IH. reflexivity.
Qed.

Lemma header_shown cols idxs :
  Forall (fun col => exists s, ColumnDef.name col = AST.Text s) cols ->
  Forall (fun i => 0 <= i < Z.of_nat (length cols)) idxs ->
  res_bind
    (res_map (fun i => res_bind (Py.getitem cols i)
                         (fun c => Ok (ColumnDef.name c))) idxs)
    (res_map AST.text)
  = Ok (header_of cols idxs).
Proof.
  intros Htext. induction 1 as [|i idxs Hi _ IH]; [reflexivity|].
  cbn [res_map header_of map].
  destruct (getitem_lookup cols i Hi) as (col & Hcol & ->). cbn [res_bind].
  destruct (res_map _ idxs) as [names|e]; [|discriminate].
  cbn [res_bind res_map] in *.
  rewrite Forall_forall in Htext.
  destruct (Htext col) as [s Hs];
    [apply list_elem_of_lookup; eauto|].
  rewrite Hs. cbn [AST.text res_bind].
  destruct (res_map AST.text names) as [texts|e]; [|discriminate].
  cbn. injection IH as ->. rewrite Hcol.
  destruct col as [cname ctype]. cbn in Hs. now subst cname.
Qed.

Lemma range_in_range n :
  Forall (fun i => 0 <= i < Z.of_nat n) (Table.range n).
Proof.
  unfold Table.range. apply List.Forall_forall. intros i Hi.
  apply in_map_iff in Hi as (k & <- & Hk). apply in_seq in Hk. lia.
Qed.

Lemma selects_in_range t cols idxs :
  selects t cols idxs ->
  Forall (fun i => 0 <= i < Z.of_nat (length (Table.columns t))) idxs.
Proof.
  intros [(rest & _ & ->)|(first & names & _ & _ & H)].
  - apply range_in_range.
  - clear -H. induction H; constructor; eauto using column_at_range.
Qed.

End Select.

(** X11. [SELECT] prints the rows of the table on which the condition is
    true, all of them when there is no condition, in the order of the
    table, each with the cells of the selected columns in the order of
    the column list, null as [NULL]; before them the title, the names of
    the selected columns and a rule, after them their number. It returns
    [True] and leaves the database as it is. The table has text for
    column names and rows of its width, the condition can be evaluated
    on every row, and the column list is [*] or names of columns. *)
Theorem select_prints_matching_rows db tname t cols idxs ts js w :
  Database.tables db !! Str.lower tname = Some t ->
  text_named t ->
  Forall (fun row => length row = length (Table.columns t)) (Table.rows t) ->
  evaluable w t (Table.rows t) ->
  selects t cols idxs ->
  exists printed,
    Database.execute_query (SelectStmt cols (TableRef tname :: ts) js w) db
    = (Ok true, db,
       (printed
        ++ select_output t idxs
             (List.filter (selected_by w t) (Table.rows t)))%list).
Proof.
  intros Hlook Htext Hwidth Hev Hsel.
  pose proof (selects_in_range t cols idxs Hsel) as Hrange.
  destruct (filter_rows_spec w t (Table.rows t) [] Hev) as [printed Hfilter].
  cbn [app] in Hfilter.
  set (rows := List.filter (selected_by w t) (Table.rows t)) in *.
  assert (Hrows : Forall (fun row => length row = length (Table.columns t))
                    rows).
  { subst rows. apply List.Forall_forall. intros row Hin.
    apply filter_In in Hin as [Hin _].
    rewrite List.Forall_forall in Hwidth. auto. }
  assert (Hprint : forall title,
    Table.print_table
      (Database.with_rows (Table.new (Table.name t) (Table.columns t) title)
         rows)
      idxs
    = (Ok tt,
       [TableTitle (Table.title (Table.new (Table.name t) (Table.columns t)
                                   title));
        TableHeader (header_of (Table.columns t) idxs);
        TableRule (Table.sum_len (header_of (Table.columns t) idxs)
                   + 3 * (Z.of_nat (length (header_of (Table.columns t) idxs))
                          - 1))]
       ++ map (fun row => TableRow (shown idxs row)) rows)%list).
  { intros title. unfold Table.print_table.
    cbn [Database.with_rows Table.columns Table.rows Table.title Table.new].
    assert (Hcols : match idxs with
                    | [] => Table.range (length (Table.columns t))
                    | _ :: _ => idxs
                    end = idxs).
    { destruct idxs; [|reflexivity].
      destruct Hsel as [(rest & _ & Hr)|(first & names & _ & _ & H)];
        [now rewrite <- Hr | inversion H]. }
    rewrite Hcols. unfold IO.print at 1. cbn [IO.bind].
    pose proof (header_shown (Table.columns t) idxs Htext Hrange) as Hh.
    unfold IO.lift at 1.
    destruct (res_map _ idxs) as [names|e]; [|discriminate].
    cbn [res_bind] in Hh. cbn [IO.bind]. unfold IO.lift at 1. rewrite Hh.
    cbn [IO.bind IO.print].
    rewrite (print_rows_shown rows idxs _ Hrows Hrange). reflexivity. }
  exists printed. exec_unfold.
  cbn [AST.type AST.get_tables AST.name AST.lower AST.columns
       AST.get_where_clause].
  rewrite Hlook.
  destruct Hsel as [(rest & -> & Hr)|(first & names & -> & Hstar & Hcols)].
  - rewrite getitem_0. cbn [AST.name Database.is_asterisk String.eqb].
    cbn -[Table.print_table Database.filter_rows select_output].
    rewrite Hfilter. cbn -[Table.print_table select_output].
    rewrite <- Hr, Hprint. cbn -[select_output].
    unfold select_output. reflexivity.
  - cbn [map]. rewrite getitem_0. cbn [AST.name Database.is_asterisk].
    destruct (String.eqb_spec first "*") as [|_]; [contradiction|].
    change (Identifier first :: map Identifier names)
      with (map Identifier (first :: names)).
    rewrite (resolve_columns_known t _ _ idxs []) by assumption.
    cbn -[Table.print_table Database.filter_rows select_output].
    rewrite Hfilter. cbn -[Table.print_table select_output].
    rewrite Hprint. cbn -[select_output].
    unfold select_output. reflexivity.
Qed.

Lemma select_prints_matching_rows_witness :
  exists printed,
    Database.execute_query
      (SelectStmt [Identifier "name"; Identifier "id"] [TableRef "t"] []
         (Some (Condition (Identifier "id") TokenType.GREATER
                  (Literal TokenType.INTEGER (Py.VInt 1)))))
      two_rows_db
    = (Ok true, two_rows_db,
       (printed
        ++ [TableTitle "t"; TableHeader ["name"; "id"]; TableRule 9;
            TableRow ["NULL"; "2"]; RowsSelected 1])%list).
Proof.
  apply (select_prints_matching_rows two_rows_db "t" (example_table two_rows)
           _ [1; 0]).
  - reflexivity.
  - repeat constructor; eexists; reflexivity.
  - repeat constructor.
  - repeat constructor; [exists false | exists true]; reflexivity.
  - right. exists "name", ["id"].
    split; [reflexivity|]. split; [discriminate|].
    repeat constructor; discriminate.
Defined.

Section RowLess.

Lemma append_dot a b : (a ++ ".") ++ b = a ++ "." ++ b.
Proof. exact (append_char a "."%char b). Qed.

Lemma evaluate_plain expr :
  plain expr = true ->
  Database._evaluate_expression expr None None = (Ok (plain_value expr), []).
Proof.
  destruct expr as [n|k v|l op r| | | | | | | | | |]; try discriminate;
    try reflexivity.
  destruct l; try discriminate. destruct r; try discriminate.
  cbn [plain]. intros Hop. cbn [Database._evaluate_expression].
  rewrite Hop. cbn. now rewrite append_dot.
Qed.

Lemma evaluate_all_plain exprs :
  forallb plain exprs = true ->
  Database.evaluate_all exprs = (Ok (map plain_value exprs), []).
Proof.
  induction exprs as [|e exprs IH]; [reflexivity|].
  cbn [forallb]. intros H. apply andb_true_iff in H as [He H].
  cbn [Database.evaluate_all map]. rewrite (evaluate_plain e He).
  cbn [IO.bind]. rewrite (IH H). reflexivity.
Qed.

End RowLess.

(** X12. [INSERT INTO t VALUES (...)], without a column list, of names,
    literals and dotted names: a literal gives its value and a name its
    own text, since the values are computed without a row. When there
    are as many values as the table has columns and each has the type of
    its column or is null, the statement returns [True] and the table
    has one row more, the last, made of these values. Else it returns
    [False] with a message, the count of the values or the first value
    of a wrong type, and the database is as before. *)
Theorem insert_values_appends_row db name t vals :
  Database.tables db !! Str.lower name = Some t ->
  forallb plain vals = true ->
  let values := map plain_value vals in
  let run :=
    Database.execute_query (InsertStmt (Identifier name) [] vals) db in
  (length vals <> length (Table.columns t) ->
   run = (Ok false, db,
          [ColumnCountMismatch (length (Table.columns t)) (length vals)]))
  /\ (length vals = length (Table.columns t) ->
      forall message,
        Table.first_mismatch values (Table.columns t) = Some message ->
        run = (Ok false, db, [message]))
  /\ (length vals = length (Table.columns t) ->
      Table.first_mismatch values (Table.columns t) = None ->
      run = (Ok true,
             Database.mk
               (<[Str.lower name :=
                    Database.with_rows t (Table.rows t ++ [values])%list]>
                  (Database.tables db)),
             [RowInserted])).
Proof.
  intros Hlook Hplain values run.
  assert (Hrun : run
    = let '(added, t', out) := Table.add_row t values in
      (Ok added, Database.mk (<[Str.lower name := t']> (Database.tables db)),
       (out ++ if added then [RowInserted] else [])%list)).
  { subst run. exec_unfold.
    cbn [AST.type AST.table AST.name AST.lower AST.columns AST.values].
    rewrite Hlook. cbn [Database.lift]. cbv beta.
    rewrite (evaluate_all_plain vals Hplain). fold values. cbn [fst snd].
    destruct (Table.add_row t values) as [[[] t'] out]; cbn;
      now rewrite ?app_nil_r. }
  rewrite Hrun. unfold Table.add_row. subst values.
  rewrite length_map.
  split; [|split].
  - intros Hne. destruct (Nat.eqb_spec (length vals) (length (Table.columns t)));
      [contradiction|]. cbn. now rewrite (store_same db _ t Hlook).
  - intros -> message ->. rewrite Nat.eqb_refl. cbn.
    now rewrite (store_same db _ t Hlook).
  - intros -> ->. rewrite Nat.eqb_refl. reflexivity.
Qed.

Lemma insert_values_appends_row_witness :
  Database.execute_query
    (InsertStmt (Identifier "t") []
       [Literal TokenType.INTEGER (Py.VInt 3); Identifier "abc"])
    two_rows_db
  = (Ok true,
     Database.mk
       (<["t" :=
            Database.with_rows (example_table two_rows)
              (two_rows ++ [[Py.VInt 3; Py.VStr "abc"]])%list]>
          (Database.tables two_rows_db)),
     [RowInserted]).
Proof.
  apply (insert_values_appends_row two_rows_db "t" (example_table two_rows));
    reflexivity.
Defined.

Section SameColumns.

Lemma evaluate_expression_columns expr t1 t2 row :
  Table.columns t1 = Table.columns t2 ->
  Database._evaluate_expression expr (Some t1) row
  = Database._evaluate_expression expr (Some t2) row.
Proof.
  intros Hc. induction expr; cbn [Database._evaluate_expression]; auto.
  - unfold Table.get_column_index. now rewrite Hc.
  - rewrite IHexpr1, IHexpr2. reflexivity.
Qed.

Lemma evaluate_condition_columns condition t1 t2 row :
  Table.columns t1 = Table.columns t2 ->
  Database._evaluate_condition condition t1 row
  = Database._evaluate_condition condition t2 row.
Proof.
  intros Hc.
  induction condition; cbn [Database._evaluate_condition];
    rewrite ?(evaluate_expression_columns _ t1 t2 _ Hc); auto.
  rewrite IHcondition1, IHcondition2. reflexivity.
Qed.

Lemma kept_by_columns w t1 t2 row :
  Table.columns t1 = Table.columns t2 -> kept_by w t1 row = kept_by w t2 row.
Proof.
  intros Hc. destruct w as [c|]; [|reflexivity].
  cbn. unfold evaluates_false.
  now rewrite (evaluate_condition_columns c t1 t2 row Hc).
Qed.

Lemma evaluable_columns w t1 t2 rows :
  Table.columns t1 = Table.columns t2 ->
  evaluable w t1 rows -> evaluable w t2 rows.
Proof.
  intros Hc. destruct w as [c|]; [|auto]. cbn.
  intros H. eapply Forall_impl; [exact H|]. cbn. intros row.
  now rewrite (evaluate_condition_columns c t1 t2 row Hc).
Qed.

Lemma evaluable_filter w t (f : list Py.Value -> bool) rows :
  evaluable w t rows -> evaluable w t (List.filter f rows).
Proof.
  destruct w as [c|]; [|auto]. cbn. rewrite !List.Forall_forall.
  intros H row Hin. apply filter_In in Hin as [Hin _]. auto.
Qed.

Lemma filter_twice {A : Type} (f : A -> bool) (l : list A) :
  List.filter f (List.filter f l) = List.filter f l.
Proof.
  induction l as [|x l IH]; [reflexivity|]. cbn.
  destruct (f x) eqn:E; cbn; [rewrite E|]; now rewrite IH.
Qed.

End SameColumns.

(** X13. A [DELETE] done twice deletes nothing the second time. After a
    [DELETE] whose condition could be evaluated on every row, the
    condition is false on every row that is left; the same statement
    again returns [True], prints that 0 rows were deleted and leaves the
    database as the first one made it. *)
Theorem delete_twice_deletes_once db name t w :
  Database.tables db !! Str.lower name = Some t ->
  evaluable w t (Table.rows t) ->
  let delete := Database.execute_query (DeleteStmt (Identifier name) w) in
  let db1 := after db delete in
  Forall (fun row => kept_by w t row = true) (rows_of db1 (Str.lower name))
  /\ exists printed,
      delete db1 = (Ok true, db1, (printed ++ [RowsDeleted 0])%list).
Proof.
  intros Hlook Hev delete db1.
  set (kept := List.filter (kept_by w t) (Table.rows t)).
  set (t1 := Database.with_rows t kept).
  assert (Hdb1 : db1 = Database.mk
                         (<[Str.lower name := t1]> (Database.tables db))).
  { subst db1 delete. unfold after.
    destruct (partition_rows_spec w t (Table.rows t) [] 0 Hev)
      as [printed Hp].
    exec_unfold.
    cbn [AST.type AST.table AST.name AST.lower AST.get_where_clause].
    rewrite Hlook. cbn. rewrite Hp. reflexivity. }
  assert (Hlook1 : Database.tables db1 !! Str.lower name = Some t1)
    by (rewrite Hdb1; apply lookup_insert_eq).
  split.
  - unfold rows_of. rewrite Hlook1. cbn. subst kept.
    apply List.Forall_forall. intros row Hin.
    now apply filter_In in Hin as [_ ?].
  - assert (Hev1 : evaluable w t1 kept).
    { apply (evaluable_columns w t t1); [reflexivity|].
      now apply evaluable_filter. }
    destruct (partition_rows_spec w t1 kept [] 0 Hev1) as [printed Hp].
    assert (Hsame : List.filter (kept_by w t1) kept = kept).
    { subst kept. rewrite <- (filter_twice (kept_by w t) (Table.rows t)) at 2.
      apply filter_ext. intros row. now apply kept_by_columns. }
    rewrite Hsame in Hp. cbn [app] in Hp.
    replace (0 + (length kept - length kept))%nat with 0%nat in Hp by lia.
    exists printed. subst delete. exec_unfold.
    cbn [AST.type AST.table AST.name AST.lower AST.get_where_clause].
    rewrite Hlook1. cbn -[kept]. 
    change (Table.rows t1) with kept. rewrite Hp. cbn.
    f_equal. f_equal.
    change (Database.with_rows t1 kept) with t1.
    now apply store_same.
Qed.

Lemma delete_twice_deletes_once_witness :
  let delete :=
    Database.execute_query
      (DeleteStmt (Identifier "t")
         (Some (Condition (Identifier "id") TokenType.EQUALS
                  (Literal TokenType.INTEGER (Py.VInt 1))))) in
  exists printed,
    delete (after two_rows_db delete)
    = (Ok true, after two_rows_db delete, (printed ++ [RowsDeleted 0])%list).
Proof.
  apply (delete_twice_deletes_once two_rows_db "t" (example_table two_rows)).
  - reflexivity.
  - repeat constructor; [exists true | exists false]; reflexivity.
Defined.

Section UpdateCount.



End UpdateCount.



(** ** The trees of the parser *)

Section Shapes.

Lemma digits_value_nonneg s acc n :
  Py.digits_value s acc = Some n -> 0 <= acc -> 0 <= n.
Proof.
  revert acc. induction s as [|c s IH]; intros acc; cbn.
  - intros [= <-]. auto.
  - destruct (Char.isdecimal c) eqn:E; [|discriminate].
    intros H Hacc. apply (IH _ H).
    assert (0 <= Py.digit_value c); [|lia].
    unfold Py.digit_value. unfold Char.isdecimal, Char.between in E.
    apply andb_true_iff in E as [E _]. apply Nat.leb_le in E. lia.
Qed.

Lemma int_of_lexeme_nonneg s n : Py.int_of_lexeme s = Ok n -> 0 <= n.
Proof.
  unfold Py.int_of_lexeme. destruct s as [|c s]; [discriminate|].
  destruct (Py.digits_value _ _) as [m|] eqn:E; [|discriminate].
  intros [= <-]. apply (digits_value_nonneg _ _ _ E). lia.
Qed.

Lemma lift_ok {A : Type} (r : Res A) p a p' :
  Parser.lift r p = Ok (a, p') -> r = Ok a /\ p' = p.
Proof. unfold Parser.lift. destruct r; [|discriminate]. now intros [= -> ->]. Qed.

Lemma literal_shape p n p' :
  Parser.literal p = Ok (n, p') -> plain n = true /\ well_tagged n = true.
Proof.
  unfold Parser.literal. intros H. parser_inv;
    repeat match goal with
           | H : Parser.lift _ _ = Ok _ |- _ =>
               apply lift_ok in H; destruct H as [H ->]
           end; split; try reflexivity.
  cbn. apply Z.leb_le.
  match goal with
  | H : Py.int_of_lexeme _ = Ok _ |- _ => exact (int_of_lexeme_nonneg _ _ H)
  end.
Qed.

Lemma expression_shape fuel p n p' :
  Parser.expression fuel p = Ok (n, p') ->
  plain n = true /\ well_tagged n = true.
Proof.
  revert p n p'. induction fuel as [|fuel IH]; intros p n p' H;
    cbn [Parser.expression] in H; parser_inv;
    try (split; reflexivity); eauto using literal_shape.
Qed.

Lemma comma_loop_shape (Q : ASTNode -> bool) fuel (item : Parser.M ASTNode)
  items p ns p' :
  (forall q n q', item q = Ok (n, q') -> Q n = true) ->
  forallb Q items = true -> nonempty items = true ->
  Parser.comma_loop fuel item items p = Ok (ns, p') ->
  forallb Q ns = true /\ nonempty ns = true.
Proof.
  intros Hitem. revert items p.
  induction fuel as [|fuel IH]; intros items p Hitems Hne H;
    cbn [Parser.comma_loop] in H; parser_inv; auto.
  eapply IH; [| |eassumption].
  - rewrite forallb_app, Hitems. cbn.
    erewrite Hitem by eassumption. reflexivity.
  - destruct items; [discriminate | reflexivity].
Qed.

Lemma connective_is_condition op l r :
  TokenType.mem op [TokenType.AND; TokenType.OR] = true ->
  is_condition l = true -> is_condition r = true ->
  is_condition (Condition l op r) = true.
Proof.
  intros Hop Hl Hr. cbn [is_condition]. rewrite Hl, Hr, Hop.
  destruct op; try discriminate; reflexivity.
Qed.

Lemma connective_loop_shape fuel (rec : Parser.M ASTNode) node p n p' :
  (forall q r q', rec q = Ok (r, q') -> is_condition r = true) ->
  is_condition node = true ->
  Parser.connective_loop fuel rec node p = Ok (n, p') ->
  is_condition n = true.
Proof.
  intros Hrec. revert node p.
  induction fuel as [|fuel IH]; intros node p Hnode H;
    cbn [Parser.connective_loop] in H; parser_inv; auto.
  eapply IH; [|eassumption].
  apply connective_is_condition; eauto.
Qed.

Lemma expression_is_expression fuel p n p' :
  Parser.expression fuel p = Ok (n, p') -> is_expression n = true.
Proof.
  intros H. apply expression_shape in H as [Hp Ht].
  unfold is_expression. now rewrite Hp, Ht.
Qed.

Lemma is_expression_plain n : is_expression n = true -> plain n = true.
Proof. unfold is_expression. intros H. now apply andb_true_iff in H. Qed.

Lemma expression_is_condition n :
  is_expression n = true -> is_condition n = true.
Proof.
  intros H. pose proof (is_expression_plain n H).
  destruct n; cbn; auto; discriminate.
Qed.

Lemma condition_shape fuel p n p' :
  Parser.condition fuel p = Ok (n, p') -> is_condition n = true.
Proof.
  revert p n p'. induction fuel as [|fuel IH]; intros p n p' H;
    cbn [Parser.condition] in H; parser_inv.
  all: eapply connective_loop_shape in H; eauto.
  all: try (intros q r q' Hq; now apply raise_ok in Hq).
  all: repeat match goal with
         | H : Parser.expression _ _ = Ok _ |- _ =>
             apply expression_is_expression in H
         end.
  all: try (now apply expression_is_condition).
  all: cbn [is_condition];
    match goal with
    | H : TokenType.mem _ Parser.comparison_operators = true |- _ =>
        rewrite H
    end;
    match goal with
    | H : is_expression ?a = true, H' : is_expression ?b = true |- _ =>
        now rewrite H, H'
    end.
Qed.

Lemma column_list_shape fuel p ns p' :
  Parser.column_list fuel p = Ok (ns, p') ->
  forallb is_expression ns = true /\ nonempty ns = true.
Proof.
  unfold Parser.column_list. intros H. parser_inv; [split; reflexivity|].
  eapply (comma_loop_shape is_expression) in H;
    eauto using expression_is_expression.
  cbn. erewrite expression_is_expression by eassumption. reflexivity.
Qed.

Lemma table_reference_shape p n p' :
  Parser.table_reference p = Ok (n, p') -> is_table_ref n = true.
Proof. unfold Parser.table_reference. intros H. parser_inv. reflexivity. Qed.

Lemma table_list_shape fuel p ns p' :
  Parser.table_list fuel p = Ok (ns, p') ->
  forallb is_table_ref ns = true /\ nonempty ns = true.
Proof.
  unfold Parser.table_list. intros H. parser_inv.
  eapply (comma_loop_shape is_table_ref) in H;
    eauto using table_reference_shape.
  cbn. erewrite table_reference_shape by eassumption. reflexivity.
Qed.

Lemma join_clause_shape fuel p n p' :
  Parser.join_clause fuel p = Ok (n, p') -> is_join n = true.
Proof.
  unfold Parser.join_clause. intros H. parser_inv. cbn.
  erewrite table_reference_shape, condition_shape by eassumption.
  reflexivity.
Qed.

Lemma join_loop_shape fuel k joins p ns p' :
  forallb is_join joins = true ->
  Parser.join_loop fuel k joins p = Ok (ns, p') ->
  forallb is_join ns = true.
Proof.
  revert joins p. induction k as [|k IH]; intros joins p Hjoins H;
    cbn [Parser.join_loop] in H; parser_inv; auto.
  eapply IH; [|eassumption]. rewrite forallb_app, Hjoins. cbn.
  erewrite join_clause_shape by eassumption. reflexivity.
Qed.

Lemma where_clause_shape fuel p w p' :
  Parser.where_clause fuel p = Ok (w, p') -> is_where w = true.
Proof.
  unfold Parser.where_clause. intros H. parser_inv; [|reflexivity].
  cbn. eauto using condition_shape.
Qed.

Lemma table_name_shape p n p' :
  Parser.table_name p = Ok (n, p') -> is_name n = true.
Proof. unfold Parser.table_name. intros H. parser_inv. reflexivity. Qed.

Lemma set_clause_shape fuel p n p' :
  Parser.set_clause fuel p = Ok (n, p') -> is_set_clause n = true.
Proof.
  unfold Parser.set_clause. intros H. parser_inv. cbn.
  match goal with
  | H : Parser.expression _ _ = Ok _ |- _ =>
      exact (expression_is_expression _ _ _ _ H)
  end.
Qed.

Lemma column_definition_shape p n p' :
  Parser.column_definition p = Ok (n, p') -> is_column_definition n = true.
Proof.
  unfold Parser.column_definition. intros H. parser_inv.
  cbn [is_column_definition is_name andb].
  match goal with
  | H : TokenType.mem _ _ = true |- _ => exact H
  end.
Qed.

End Shapes.

(** Replace each successful run of a parsing method by the shape of its
    result. *)
Ltac shape_forward :=
  repeat match goal with
  | H : Parser.consume _ _ = Ok _ |- _ => clear H
  | H : Parser.table_name _ = Ok _ |- _ => apply table_name_shape in H
  | H : Parser.column_list _ _ = Ok _ |- _ =>
      apply column_list_shape in H; destruct H
  | H : Parser.table_list _ _ = Ok _ |- _ =>
      apply table_list_shape in H; destruct H
  | H : Parser.where_clause _ _ = Ok _ |- _ => apply where_clause_shape in H
  | H : Parser.join_loop _ _ [] _ = Ok _ |- _ =>
      apply join_loop_shape in H; [|reflexivity]
  | H : Parser.comma_loop _ (Parser.expression _) [?x] _ = Ok _,
    Hx : is_expression ?x = true |- _ =>
      apply (comma_loop_shape is_expression) in H;
      [destruct H
      |eauto using expression_is_expression
      |cbn; rewrite Hx; reflexivity
      |reflexivity]
  | H : Parser.comma_loop _ (Parser.set_clause _) [?x] _ = Ok _,
    Hx : is_set_clause ?x = true |- _ =>
      apply (comma_loop_shape is_set_clause) in H;
      [destruct H
      |eauto using set_clause_shape
      |cbn; rewrite Hx; reflexivity
      |reflexivity]
  | H : Parser.comma_loop _ Parser.column_definition [?x] _ = Ok _,
    Hx : is_column_definition ?x = true |- _ =>
      apply (comma_loop_shape is_column_definition) in H;
      [destruct H
      |eauto using column_definition_shape
      |cbn; rewrite Hx; reflexivity
      |reflexivity]
  | H : Parser.expression _ _ = Ok _ |- _ =>
      apply expression_is_expression in H
  | H : Parser.set_clause _ _ = Ok _ |- _ => apply set_clause_shape in H
  | H : Parser.column_definition _ = Ok _ |- _ =>
      apply column_definition_shape in H
  end.

Section Statements.

Lemma parse_shape fuel p ast p' :
  Parser.parse fuel p = Ok (ast, p') -> is_statement ast = true.
Proof.
  unfold Parser.parse, Parser.sql_statement, Parser.select_statement,
    Parser.insert_statement, Parser.update_statement,
    Parser.delete_statement, Parser.create_statement, Parser.drop_statement.
  intros H. parser_inv; shape_forward; cbn [is_statement forallb nonempty];
    repeat match goal with H : _ = true |- _ => rewrite H; clear H end;
    reflexivity.
Qed.

End Statements.

(** X15. An expression of the parser is a name, a literal, or two names
    joined by a dot: parentheses leave no node, and no arithmetic
    expression is ever built. The tag of a literal agrees with its value:
    an integer, which is not negative, a float, a text or null. *)
Theorem expressions_are_names_and_literals :
  (forall fuel p expr p',
      Parser.expression fuel p = Ok (expr, p') ->
      plain expr = true /\ well_tagged expr = true)
  /\ (forall p node p',
         Parser.literal p = Ok (node, p') ->
         exists tag value,
           node = Literal tag value /\ well_tagged node = true).
Proof.
  split; [exact expression_shape|].
  intros p node p' H. pose proof (literal_shape _ _ _ H) as [_ Ht].
  revert H. unfold Parser.literal. intros H.
  parser_inv; eauto.
Qed.

Lemma expressions_are_names_and_literals_witness :
  plain (Literal TokenType.INTEGER (Py.VInt 17)) = true
  /\ well_tagged (Literal TokenType.INTEGER (Py.VInt 17)) = true.
Proof.
  apply (proj1 expressions_are_names_and_literals 2%nat
           (Parser.new (Lexer.new "((17)) + 1")) _
           (Parser.mk (Lexer.mk "((17)) + 1" 8 1 9)
              (mkToken TokenType.PLUS "+" 1 8))).
  vm_compute. reflexivity.
Defined.

(** X16. Every tree that [parse] returns is a statement of one of the six
    kinds with the parts the executor reads: the table of [INSERT],
    [UPDATE], [DELETE], [CREATE] and [DROP] is an identifier; [SELECT]
    has one column at least and one table at least, table references
    all; [INSERT] has one value at least, [UPDATE] one assignment at
    least, each of a column name and an expression, [CREATE] one column
    at least, each a name with one of the four types; every condition is
    made of expressions, comparisons of two expressions, [AND] and
    [OR]; every expression is a name, a literal or a dotted name. *)
Theorem parsed_statement_has_its_parts :
  (forall fuel p ast p',
      Parser.parse fuel p = Ok (ast, p') -> is_statement ast = true)
  /\ (forall query ast, parse_query query = Ok ast -> is_statement ast = true).
Proof.
  split; [exact parse_shape|].
  intros query ast. unfold parse_query.
  destruct (Parser.parse _ _) as [[a p']|e] eqn:E; [|discriminate].
  intros [= <-]. exact (parse_shape _ _ _ _ E).
Qed.

Lemma parsed_statement_has_its_parts_witness :
  is_statement
    (UpdateStmt (Identifier "t")
       [Expression (Identifier "a") TokenType.EQUALS
          (Literal TokenType.INTEGER (Py.VInt 1))]
       (Some (Condition (Identifier "b") TokenType.LESS
                (Literal TokenType.INTEGER (Py.VInt 2)))))
  = true.
Proof.
  apply (proj2 parsed_statement_has_its_parts
           "UPDATE t SET a = 1 WHERE b < 2").
  vm_compute. reflexivity.
Defined.

Section FirstToken.

Lemma token_type_eqb_eq a b : TokenType.eqb a b = true -> a = b.
Proof. destruct a, b; vm_compute; congruence. Qed.

Lemma statement_type_of_first_token fuel p ast p' :
  Parser.parse fuel p = Ok (ast, p') ->
  statement_kind (type (Parser.current_token p)) = Some (AST.type ast).
Proof.
  unfold Parser.parse, Parser.sql_statement, Parser.select_statement,
    Parser.insert_statement, Parser.update_statement,
    Parser.delete_statement, Parser.create_statement, Parser.drop_statement.
  intros H. parser_inv;
    match goal with
    | E : TokenType.eqb (type (Parser.current_token p)) _ = true |- _ =>
        apply token_type_eqb_eq in E; rewrite E
    end; reflexivity.
Qed.

Lemma other_first_token fuel p :
  statement_kind (type (Parser.current_token p)) = None ->
  Parser.parse fuel p
  = Raise (SyntaxError
             (UnexpectedToken (type (Parser.current_token p))
                (line (Parser.current_token p))
                (column (Parser.current_token p)))).
Proof.
  unfold Parser.parse, Parser.sql_statement, Parser.bind, Parser.current.
  destruct (type (Parser.current_token p)) eqn:E; cbn; try discriminate;
    reflexivity.
Qed.

End FirstToken.

(** X17. The first token decides the statement: the tree that [parse]
    returns is a [SELECT], [INSERT], [UPDATE], [DELETE], [CREATE] or
    [DROP] statement as the first token is that keyword, and with any
    other first token, the end of the text too, [parse] raises
    [SyntaxError] with the type, the line and the column of that
    token. *)
Theorem first_token_decides_statement :
  (forall fuel p ast p',
      Parser.parse fuel p = Ok (ast, p') ->
      statement_kind (type (Parser.current_token p)) = Some (AST.type ast))
  /\ (forall fuel p,
         statement_kind (type (Parser.current_token p)) = None ->
         Parser.parse fuel p
         = Raise (SyntaxError
                    (UnexpectedToken (type (Parser.current_token p))
                       (line (Parser.current_token p))
                       (column (Parser.current_token p)))))
  /\ parse_query "" = Raise (SyntaxError (UnexpectedToken TokenType.EOF 1 1)).
Proof.
  split; [exact statement_type_of_first_token|].
  split; [exact other_first_token | reflexivity].
Qed.

Lemma first_token_decides_statement_witness :
  Parser.parse 9%nat (Parser.new (Lexer.new " ; SELECT"))
  = Raise (SyntaxError (UnexpectedToken TokenType.SEMICOLON 1 2)).
Proof.
  apply (proj1 (proj2 first_token_decides_statement) 9%nat
           (Parser.new (Lexer.new " ; SELECT"))).
  reflexivity.
Defined.

Section Quiet.

Lemma bind_quiet {A B : Type} (m : IO A) (k : A -> IO B) :
  snd m = [] -> (forall a, snd (k a) = []) -> snd (IO.bind m k) = [].
Proof.
  destruct m as [[a|e] out]; cbn; intros -> Hk; [|reflexivity].
  specialize (Hk a). destruct (k a) as [r out']. cbn in *. now subst.
Qed.

Ltac quiet :=
  repeat first
    [ reflexivity
    | assumption
    | apply bind_quiet; [|intros ?]
    | match goal with
      | |- snd (if ?c then _ else _) = [] => destruct c
      | |- snd match ?x with _ => _ end = [] => destruct x
      end ].

Lemma evaluate_plain_quiet expr table row :
  plain expr = true ->
  snd (Database._evaluate_expression expr table row) = [].
Proof.
  destruct expr as [n|k v|l op r| | | | | | | | | |]; try discriminate.
  - intros _. cbn [Database._evaluate_expression]. quiet.
  - reflexivity.
  - destruct l; try discriminate. destruct r; try discriminate.
    cbn [plain]. intros Hop. cbn [Database._evaluate_expression].
    rewrite Hop. quiet.
Qed.

Lemma comparison_is_supported op :
  TokenType.mem op Parser.comparison_operators = true ->
  TokenType.eqb op TokenType.AND = false
  /\ TokenType.eqb op TokenType.OR = false
  /\ TokenType.eqb op TokenType.NOT = false.
Proof. destruct op; try discriminate; repeat split. Qed.

Lemma evaluate_condition_quiet condition table row :
  is_condition condition = true ->
  snd (Database._evaluate_condition condition table row) = [].
Proof.
  induction condition as [n|k v|l _ op r _|l IHl op r IHr| | | | | | | | |];
    try discriminate; intros H.
  1-3: cbn [Database._evaluate_condition]; apply bind_quiet;
    [now apply evaluate_plain_quiet, is_expression_plain | reflexivity].
  cbn [is_condition] in H. cbn [Database._evaluate_condition].
  destruct (TokenType.mem op Parser.comparison_operators) eqn:Hop.
  - destruct (comparison_is_supported op Hop) as (-> & -> & ->).
    apply andb_true_iff in H as [Hl Hr].
    apply bind_quiet; [now apply evaluate_plain_quiet, is_expression_plain|].
    intros a.
    apply bind_quiet; [now apply evaluate_plain_quiet, is_expression_plain|].
    intros b.
    destruct op; try discriminate; reflexivity.
  - apply andb_true_iff in H as [H Hr]. apply andb_true_iff in H as [Hc Hl].
    specialize (IHl Hl). specialize (IHr Hr).
    destruct op; try discriminate; cbn; quiet.
Qed.

End Quiet.

(** X18. What the parser builds keeps the evaluator to the cases it
    knows: an expression of the parser, evaluated without a row as the
    values of [INSERT] and the right-hand sides of [SET] are, gives the
    value of the literal or the text of the name, with the dot for a
    dotted name, and cannot fail; and evaluating an expression or a
    condition of the parser on a row prints nothing, neither
    [Unsupported operator] nor [Unsupported expression type]. *)
Theorem parsed_trees_keep_evaluator_quiet :
  (forall fuel p expr p',
      Parser.expression fuel p = Ok (expr, p') ->
      Database._evaluate_expression expr None None
      = (Ok (plain_value expr), [])
      /\ forall table row,
          snd (Database._evaluate_expression expr table row) = [])
  /\ (forall fuel p condition p',
         Parser.condition fuel p = Ok (condition, p') ->
         forall table row,
           snd (Database._evaluate_condition condition table row) = []).
Proof.
  split.
  - intros fuel p expr p' H. apply expression_shape in H as [H _].
    split; [now apply evaluate_plain | intros; now apply evaluate_plain_quiet].
  - intros fuel p condition p' H table row.
    apply evaluate_condition_quiet. exact (condition_shape _ _ _ _ H).
Qed.

Lemma parsed_trees_keep_evaluator_quiet_witness :
  Database._evaluate_expression
    (Expression (Identifier "t") TokenType.DOT (Identifier "id")) None None
  = (Ok (Py.VStr "t.id"), []).
Proof.
  apply (proj1 parsed_trees_keep_evaluator_quiet 1%nat
           (Parser.new (Lexer.new "t.id"))
           (Expression (Identifier "t") TokenType.DOT (Identifier "id"))
           (Parser.mk (Lexer.mk "t.id" 4 1 5)
              (mkToken TokenType.EOF "" 1 5))).
  vm_compute. reflexivity.
Defined.

(** ** Rendering the trees of the parser *)

Section Rendering.

Import SQLGenerator.

Lemma render_expression expr :
  is_expression expr = true -> exists text, generate_expression expr = Ok text.
Proof.
  unfold is_expression. intros H. apply andb_true_iff in H as [Hp Ht].
  destruct expr as [n|k v|l op r| | | | | | | | | |]; try discriminate.
  - cbn. eauto.
  - cbn [generate_expression]. unfold generate_literal. cbn.
    cbn in Ht. destruct v.
    + apply token_type_eqb_eq in Ht as ->. cbn. eauto.
    + apply andb_true_iff in Ht as [Ht _].
      apply token_type_eqb_eq in Ht as ->. cbn. eauto.
    + apply token_type_eqb_eq in Ht as ->. cbn. eauto.
    + apply token_type_eqb_eq in Ht as ->. cbn. eauto.
  - destruct l; try discriminate. destruct r; try discriminate.
    cbn. eauto.
Qed.

Lemma res_map_ok {A B : Type} (f : A -> Res B) (P : A -> bool) l :
  (forall x, P x = true -> exists y, f x = Ok y) ->
  forallb P l = true -> exists ys, res_map f l = Ok ys.
Proof.
  intros Hf. induction l as [|x l IH]; cbn; [eauto|].
  intros H. apply andb_true_iff in H as [Hx Hl].
  destruct (Hf x Hx) as [y ->]. destruct (IH Hl) as [ys ->]. cbn. eauto.
Qed.

Lemma not_condition_is_expression node :
  is_condition node = true -> is_condition_node node = false ->
  is_expression node = true.
Proof. destruct node; cbn; auto; discriminate. Qed.

Lemma condition_node_not_rendered node :
  is_condition_node node = true ->
  generate_expression node = Raise ValueError.
Proof. destruct node; try discriminate. reflexivity. Qed.

(** A condition of the parser is rendered when it is flat, and raises
    [ValueError] when it is not. *)
Lemma render_condition condition :
  is_condition condition = true ->
  if flat condition
  then exists text, generate_condition condition = Ok text
  else generate_condition condition = Raise ValueError.
Proof.
  intros H.
  destruct condition as [n|k v|l op r|l op r| | | | | | | | |];
    try discriminate; try (cbn [flat generate_condition];
                           now apply render_expression).
  assert (Hparts : is_condition l = true /\ is_condition r = true).
  { cbn [is_condition] in H.
    destruct (TokenType.mem op Parser.comparison_operators).
    - apply andb_true_iff in H as [Hl Hr].
      split; now apply expression_is_condition.
    - apply andb_true_iff in H as [H Hr].
      now apply andb_true_iff in H as [_ Hl]. }
  destruct Hparts as [Hl Hr]. cbn [flat generate_condition].
  destruct (is_condition_node l) eqn:El; cbn [negb andb].
  - now rewrite (condition_node_not_rendered l El).
  - destruct (render_expression l (not_condition_is_expression l Hl El))
      as [tl ->]. cbn [res_bind].
    destruct (is_condition_node r) eqn:Er; cbn [negb].
    + now rewrite (condition_node_not_rendered r Er).
    + destruct (render_expression r (not_condition_is_expression r Hr Er))
        as [tr ->]. cbn. eauto.
Qed.

Lemma render_table_list tables :
  forallb is_table_ref tables = true ->
  exists text, generate_table_list tables = Ok text.
Proof.
  intros H. unfold generate_table_list.
  assert (Hnames : exists names,
             res_map generate_table_reference tables
             = Ok (map AST.Text names)).
  { induction tables as [|t tables IH]; [exists []; reflexivity|].
    cbn in H. apply andb_true_iff in H as [Ht H].
    destruct t; try discriminate. destruct (IH H) as [names Hn].
    exists (name :: names). cbn. unfold generate_table_reference in *.
    now rewrite Hn. }
  destruct Hnames as [names ->]. cbn [res_bind].
  assert (res_map AST.text (map AST.Text names) = Ok names) as ->.
  { induction names as [|n names IH]; [reflexivity|]. cbn.
    now rewrite IH. }
  cbn. eauto.
Qed.

Lemma render_name table :
  is_name table = true ->
  exists name,
    res_bind (generate_table_reference table) AST.text = Ok name.
Proof. destruct table; try discriminate. cbn. eauto. Qed.

Lemma render_joins joins sql :
  forallb is_join joins = true ->
  if forallb flat_join joins
  then exists text, generate_joins sql joins = Ok text
  else generate_joins sql joins = Raise ValueError.
Proof.
  revert sql. induction joins as [|j joins IH]; intros sql H; [cbn; eauto|].
  cbn [forallb] in H. apply andb_true_iff in H as [Hj H].
  destruct j as [| | | | |t c| | | | | | |]; try discriminate.
  cbn in Hj. apply andb_true_iff in Hj as [Ht Hc].
  destruct t; try discriminate.
  cbn [forallb flat_join generate_joins]. unfold generate_join.
  cbn [AST.table AST.condition res_bind generate_table_reference AST.name
       AST.text].
  pose proof (render_condition c Hc) as Hrc.
  destruct (flat c); cbn [andb].
  - destruct Hrc as [tc ->]. cbn [res_bind]. apply IH, H.
  - now rewrite Hrc.
Qed.

Lemma render_where sql ast w :
  AST.where_clause ast = Ok w -> is_where w = true ->
  if match w with Some c => flat c | None => true end
  then exists text, generate_where sql ast = Ok text
  else generate_where sql ast = Raise ValueError.
Proof.
  intros Hw Hc. unfold generate_where. rewrite Hw. cbn [res_bind].
  destruct w as [c|]; [|eauto].
  pose proof (render_condition c Hc) as Hrc.
  destruct (flat c); [destruct Hrc as [tc ->] | rewrite Hrc]; cbn; eauto.
Qed.

Lemma render_set_clause clause :
  is_set_clause clause = true ->
  exists text, generate_set_clause clause = Ok text.
Proof.
  destruct clause as [| |l op r| | | | | | | | | |]; try discriminate.
  cbn. intros H. apply andb_true_iff in H as [H Hr].
  apply andb_true_iff in H as [Hl _].
  destruct l; try discriminate. unfold generate_set_clause. cbn.
  destruct (render_expression r Hr) as [tr ->]. cbn. eauto.
Qed.

Lemma render_column_definition column :
  is_column_definition column = true ->
  exists text, generate_column_definition column = Ok text.
Proof.
  destruct column as [| | | | | |n k| | | | | |]; try discriminate.
  cbn. intros H. apply andb_true_iff in H as [Hn _].
  destruct n; try discriminate. unfold generate_column_definition. cbn.
  eauto.
Qed.

Lemma render_columns columns :
  forallb is_expression columns = true ->
  exists text, generate_column_list columns = Ok text.
Proof.
  intros H. unfold generate_column_list.
  destruct columns as [|c columns]; [eauto|].
  destruct (res_map_ok generate_expression is_expression (c :: columns)
              render_expression H) as [texts ->].
  cbn. eauto.
Qed.

(** A statement of the parser is rendered when its conditions are flat,
    and raises [ValueError] when one is not. *)
Lemma render_statement ast :
  is_statement ast = true ->
  if flat_conditions ast
  then exists text, generate_sql ast = Ok text
  else generate_sql ast = Raise ValueError.
Proof.
  destruct ast as [| | | | | | |cols ts js w|t cols vals|t sets w|t w
                  |t cols|t]; try discriminate;
    cbn [is_statement]; intros H;
    repeat match type of H with
           | _ && _ = true =>
               let H' := fresh "H" in apply andb_true_iff in H as [H H']
           end;
    cbn [flat_conditions generate_sql AST.type].
  - unfold generate_select.
    cbn [AST.columns AST.tables AST.joins res_bind].
    match goal with
    | Hc : forallb is_expression cols = true |- _ =>
        destruct (render_columns cols Hc) as [tc ->]
    end.
    match goal with
    | Ht : forallb is_table_ref ts = true |- _ =>
        destruct (render_table_list ts Ht) as [tt ->]
    end.
    cbn [res_bind].
    match goal with
    | Hj : forallb is_join js = true |- _ =>
        pose proof (render_joins js ("SELECT " ++ tc ++ " FROM " ++ tt) Hj)
          as Hjs
    end.
    destruct (forallb flat_join js); cbn [andb].
    + destruct Hjs as [sql ->]. cbn [res_bind].
      now apply render_where.
    + now rewrite Hjs.
  - unfold generate_insert. cbn [AST.table AST.columns AST.values].
    destruct (render_name t) as [name Hn]; [assumption|].
    destruct t; try discriminate. cbn in Hn |- *.
    match goal with
    | Hc : forallb is_expression cols = true |- _ =>
        destruct (render_columns cols Hc) as [tc Htc]
    end.
    match goal with
    | Hv : forallb is_expression vals = true |- _ =>
        destruct (res_map_ok generate_expression is_expression vals
                    render_expression Hv) as [tv ->]
    end.
    destruct cols; [cbn; eauto|]. rewrite Htc. cbn. eauto.
  - unfold generate_update. cbn [AST.table AST.set_clauses].
    destruct t; try discriminate. cbn [generate_table_reference AST.name
                                       AST.text res_bind].
    match goal with
    | Hs : forallb is_set_clause sets = true |- _ =>
        destruct (res_map_ok generate_set_clause is_set_clause sets
                    render_set_clause Hs) as [tsets ->]
    end.
    cbn [res_bind]. now apply render_where.
  - unfold generate_delete. cbn [AST.table].
    destruct t; try discriminate. cbn [generate_table_reference AST.name
                                       AST.text res_bind].
    now apply render_where.
  - unfold generate_create. cbn [AST.table AST.columns].
    destruct t; try discriminate. cbn [generate_table_reference AST.name
                                       AST.text res_bind].
    match goal with
    | Hs : forallb is_column_definition cols = true |- _ =>
        destruct (res_map_ok generate_column_definition is_column_definition
                    cols render_column_definition Hs) as [tcols ->]
    end.
    cbn. eauto.
  - unfold generate_drop. cbn [AST.table].
    destruct t; try discriminate. cbn. eauto.
Qed.

End Rendering.

(** X19. A tree of the parser is rendered to text exactly when no
    condition in it, of its [WHERE] or of a join, has a condition for
    operand: every [INSERT], [CREATE] and [DROP] statement is rendered,
    and so is a statement whose conditions are each one comparison, an
    expression alone, or two expressions joined by [AND] or [OR]; with a
    comparison or a connective under [AND] or [OR] the rendering raises
    [ValueError]. *)
Theorem render_succeeds_on_flat_conditions :
  (forall ast,
      is_statement ast = true ->
      if flat_conditions ast
      then exists text, SQLGenerator.generate_sql ast = Ok text
      else SQLGenerator.generate_sql ast = Raise ValueError)
  /\ (forall query ast,
         parse_query query = Ok ast ->
         if flat_conditions ast
         then exists text, SQLGenerator.generate_sql ast = Ok text
         else SQLGenerator.generate_sql ast = Raise ValueError).
Proof.
  split; [exact render_statement|].
  intros query ast H. apply render_statement.
  unfold parse_query in H.
  destruct (Parser.parse _ _) as [[a p']|e] eqn:E; [|discriminate].
  injection H as <-. exact (parse_shape _ _ _ _ E).
Qed.

Lemma render_succeeds_on_flat_conditions_witness :
  (exists text,
      SQLGenerator.generate_sql
        (SelectStmt [Identifier "a"] [TableRef "t"] []
           (Some (Condition (Identifier "a") TokenType.AND (Identifier "b"))))
      = Ok text)
  /\ SQLGenerator.generate_sql
       (DeleteStmt (Identifier "t")
          (Some (Condition (Identifier "a") TokenType.OR
                   (Condition (Identifier "b") TokenType.EQUALS
                      (Literal TokenType.INTEGER (Py.VInt 1))))))
     = Raise ValueError.
Proof.
  split.
  - exact (proj2 render_succeeds_on_flat_conditions
             "SELECT a FROM t WHERE a AND b"
             (SelectStmt [Identifier "a"] [TableRef "t"] []
                (Some (Condition (Identifier "a") TokenType.AND
                         (Identifier "b"))))
             eq_refl).
  - exact (proj2 render_succeeds_on_flat_conditions
             "DELETE FROM t WHERE a OR b = 1"
             (DeleteStmt (Identifier "t")
                (Some (Condition (Identifier "a") TokenType.OR
                         (Condition (Identifier "b") TokenType.EQUALS
                            (Literal TokenType.INTEGER (Py.VInt 1))))))
             eq_refl).
Defined.

(** ** Reading back what was rendered *)

Section FirstTokens.

Lemma first_token_word ws w rest :
  all Char.isspace ws = true -> is_word w = true ->
  stops in_identifier rest = true ->
  first_token (ws ++ w ++ rest) (word_kind w) w rest.
Proof.
  intros Hws Hw Hstop lx Hu.
  rewrite (get_next_token_skip lx ws (w ++ rest) Hu Hws
             (word_not_space w rest Hw)).
  pose proof (unread_read ws _ lx Hu) as Hu1.
  rewrite (token_word _ w rest Hu1 Hw Hstop). cbn [fst snd type lexeme].
  repeat split. now apply unread_read.
Qed.

Lemma first_token_eof : first_token "" TokenType.EOF "" "".
Proof. intros lx Hu. rewrite (token_eof _ Hu). cbn. auto. Qed.

(** A token of one character, given the character. *)
Lemma first_token_single ws c rest k text :
  all Char.isspace ws = true ->
  Char.isspace c = false ->
  (forall lx, unread lx = String c rest ->
              Lexer.get_next_token lx = Lexer.single k text lx) ->
  first_token (ws ++ String c rest) k text rest.
Proof.
  intros Hws Hs Hsingle lx Hu.
  rewrite (get_next_token_skip lx ws (String c rest) Hu Hws)
    by (cbn; now rewrite Hs).
  pose proof (unread_read ws _ lx Hu) as Hu1.
  rewrite (Hsingle _ Hu1). unfold Lexer.single. cbn [fst snd type lexeme].
  repeat split. now destruct (unread_advance _ _ _ Hu1).
Qed.

Lemma first_token_left_paren ws rest :
  all Char.isspace ws = true ->
  first_token (ws ++ String "("%char rest) TokenType.LEFT_PAREN "(" rest.
Proof.
  intros Hws. apply first_token_single; auto.
  intros lx Hu. token_start Hu (eq_refl false) (eq_refl false).
  char_tests "("%char. reflexivity.
Qed.

Lemma first_token_right_paren ws rest :
  all Char.isspace ws = true ->
  first_token (ws ++ String ")"%char rest) TokenType.RIGHT_PAREN ")" rest.
Proof.
  intros Hws. apply first_token_single; auto.
  intros lx Hu. token_start Hu (eq_refl false) (eq_refl false).
  char_tests ")"%char. reflexivity.
Qed.

Lemma first_token_comma ws rest :
  all Char.isspace ws = true ->
  first_token (ws ++ String ","%char rest) TokenType.COMMA "," rest.
Proof.
  intros Hws. apply first_token_single; auto.
  intros lx Hu. token_start Hu (eq_refl false) (eq_refl false).
  char_tests ","%char. reflexivity.
Qed.

Lemma first_token_asterisk ws rest :
  all Char.isspace ws = true ->
  first_token (ws ++ String "*"%char rest) TokenType.ASTERISK "*" rest.
Proof.
  intros Hws. apply first_token_single; auto.
  intros lx Hu. token_start Hu (eq_refl false) (eq_refl false).
  char_tests "*"%char. reflexivity.
Qed.

Lemma first_token_equals ws rest :
  all Char.isspace ws = true ->
  first_token (ws ++ String "="%char rest) TokenType.EQUALS "=" rest.
Proof.
  intros Hws. apply first_token_single; auto.
  intros lx Hu. token_start Hu (eq_refl false) (eq_refl false).
  char_tests "="%char. reflexivity.
Qed.

(** A text has one first token. *)
Lemma first_token_fun text k lex rest k' lex' rest' :
  first_token text k lex rest -> first_token text k' lex' rest' ->
  k = k' /\ lex = lex' /\ rest = rest'.
Proof.
  intros H H'.
  destruct (H (Lexer.new text) eq_refl) as (<- & <- & <-).
  destruct (H' (Lexer.new text) eq_refl) as (<- & <- & <-). auto.
Qed.

Lemma closes_tokenizes text k : closes text k -> tokenizes text.
Proof. intros (_ & lex & rest & H). now exists k, lex, rest. Qed.

Lemma closes_eof : closes "" TokenType.EOF.
Proof. split; [reflexivity|]. exists "", "". exact first_token_eof. Qed.

End FirstTokens.

Section ParserRuns.

Import Parser TokenType.

Lemma bind_run {A B : Type} (m : M A) (f : A -> M B) p a p' :
  m p = Ok (a, p') -> bind m f p = f a p'.
Proof. intros H. unfold bind. now rewrite H. Qed.

Lemma bind_current {B : Type} (f : Token -> M B) p :
  bind current f p = f (current_token p) p.
Proof. reflexivity. Qed.

Lemma eqb_refl k : TokenType.eqb k k = true.
Proof. apply Nat.eqb_refl. Qed.

Lemma eqb_neq a b : a <> b -> TokenType.eqb a b = false.
Proof.
  intros H. destruct (TokenType.eqb a b) eqn:E; [|reflexivity].
  now apply token_type_eqb_eq in E.
Qed.

(** The parser starts on the first token of the text. *)
Lemma starts_new text : tokenizes text -> starts (new (Lexer.new text)) text.
Proof.
  intros (k & lex & rest & H). exists k, lex, rest. split; [exact H|].
  unfold new, looking_at.
  destruct (H (Lexer.new text) eq_refl) as (Hk & Hl & Hr).
  destruct (Lexer.get_next_token (Lexer.new text)) as [tok lx'].
  cbn in *. auto.
Qed.

Lemma starts_at p text k lex rest :
  starts p text -> first_token text k lex rest ->
  type (current_token p) = k /\ lexeme (current_token p) = lex.
Proof.
  intros (k0 & lex0 & rest0 & H0 & Hk & Hl & _) H.
  destruct (first_token_fun _ _ _ _ _ _ _ H0 H) as (<- & <- & _). auto.
Qed.

(** [consume] of the kind of the look-ahead moves to the next token. *)
Lemma consume_reads p text k lex rest :
  starts p text -> first_token text k lex rest -> tokenizes rest ->
  exists tok p', starts p' rest /\ consume k p = Ok (tok, p').
Proof.
  intros (k0 & lex0 & rest0 & H0 & Hk & Hl & Hu) H (k' & lex' & rest' & Hn).
  destruct (first_token_fun _ _ _ _ _ _ _ H0 H) as (-> & -> & ->).
  unfold consume. rewrite Hk, eqb_refl.
  destruct (Hn _ Hu) as (Hk' & Hl' & Hr).
  destruct (Lexer.get_next_token (lexer p)) as [next lx'].
  cbn [fst snd] in *.
  exists (current_token p), (mk lx' next). split; [|reflexivity].
  exists k', lex', rest'. split; [exact Hn|]. now repeat split.
Qed.

(** A keyword, after white space, is consumed. *)
Lemma keyword_reads p ws kw k text :
  all Char.isspace ws = true -> is_word kw = true -> word_kind kw = k ->
  stops in_identifier text = true -> tokenizes text ->
  starts p (ws ++ kw ++ text) ->
  type (current_token p) = k
  /\ exists tok p', starts p' text /\ consume k p = Ok (tok, p').
Proof.
  intros Hws Hw <- Hstop Htok Hs.
  pose proof (first_token_word ws kw text Hws Hw Hstop) as Hft.
  split; [exact (proj1 (starts_at _ _ _ _ _ Hs Hft))|].
  exact (consume_reads _ _ _ _ _ Hs Hft Htok).
Qed.

Lemma plain_name_word w :
  plain_name w = true -> is_word w = true /\ word_kind w = IDENTIFIER.
Proof.
  unfold plain_name. intros H. apply andb_true_iff in H as [Hw Hk].
  split; [exact Hw | now apply token_type_eqb_eq].
Qed.

(** A name, after white space, is consumed as an identifier. *)
Lemma name_reads p ws w text :
  all Char.isspace ws = true -> plain_name w = true ->
  stops in_identifier text = true -> tokenizes text ->
  starts p (ws ++ w ++ text) ->
  type (current_token p) = IDENTIFIER /\ lexeme (current_token p) = w
  /\ exists tok p', starts p' text /\ consume IDENTIFIER p = Ok (tok, p').
Proof.
  intros Hws Hp Hstop Htok Hs.
  destruct (plain_name_word w Hp) as [Hw Hk].
  pose proof (first_token_word ws w text Hws Hw Hstop) as Hft.
  rewrite Hk in Hft.
  destruct (starts_at _ _ _ _ _ Hs Hft) as [Ht Hl].
  repeat split; auto.
  exact (consume_reads _ _ _ _ _ Hs Hft Htok).
Qed.

Lemma table_name_reads p ws w text :
  all Char.isspace ws = true -> plain_name w = true ->
  stops in_identifier text = true -> tokenizes text ->
  starts p (ws ++ w ++ text) ->
  exists p', starts p' text /\ table_name p = Ok (Identifier w, p').
Proof.
  intros Hws Hp Hstop Htok Hs.
  destruct (name_reads p ws w text Hws Hp Hstop Htok Hs)
    as (Hk & Hl & tok & p' & Hs' & Hc).
  exists p'. split; [exact Hs'|].
  unfold table_name. rewrite bind_current, Hk, eqb_refl.
  rewrite (bind_run _ _ _ _ _ Hc). now rewrite Hl.
Qed.

Lemma table_reference_reads p ws w text :
  all Char.isspace ws = true -> plain_name w = true ->
  stops in_identifier text = true -> tokenizes text ->
  starts p (ws ++ w ++ text) ->
  exists p', starts p' text /\ table_reference p = Ok (TableRef w, p').
Proof.
  intros Hws Hp Hstop Htok Hs.
  destruct (name_reads p ws w text Hws Hp Hstop Htok Hs)
    as (Hk & Hl & tok & p' & Hs' & Hc).
  exists p'. split; [exact Hs'|].
  unfold table_reference. rewrite bind_current, Hk, eqb_refl.
  rewrite (bind_run _ _ _ _ _ Hc). now rewrite Hl.
Qed.

(** A name that no dot follows is an expression. *)
Lemma expression_reads fuel p ws w text k :
  all Char.isspace ws = true -> plain_name w = true ->
  closes text k -> k <> DOT ->
  starts p (ws ++ w ++ text) ->
  exists p', starts p' text /\ expression fuel p = Ok (Identifier w, p').
Proof.
  intros Hws Hp Hcl Hk' Hs.
  destruct Hcl as (Hstop & lex' & rest' & Hft').
  assert (Htok : tokenizes text) by now exists k, lex', rest'.
  destruct (name_reads p ws w text Hws Hp Hstop Htok Hs)
    as (Hk & Hl & tok & p' & Hs' & Hc).
  exists p'. split; [exact Hs'|].
  destruct (starts_at _ _ _ _ _ Hs' Hft') as [Hk1 _].
  destruct fuel; cbn [expression];
    rewrite bind_current, Hk, eqb_refl, (bind_run _ _ _ _ _ Hc),
      bind_current, Hk1, (eqb_neq _ _ Hk'), Hl; reflexivity.
Qed.

Lemma type_word k :
  mem k [INT; TEXT; FLOAT; DATE] = true ->
  is_word (SQLGenerator.token_type_to_string k) = true
  /\ word_kind (SQLGenerator.token_type_to_string k) = k.
Proof. destruct k; try discriminate; split; reflexivity. Qed.

Lemma column_definition_reads p ws w k text k' :
  all Char.isspace ws = true -> plain_name w = true ->
  mem k [INT; TEXT; FLOAT; DATE] = true ->
  closes text k' ->
  starts p (ws ++ (w ++ " " ++ SQLGenerator.token_type_to_string k) ++ text) ->
  exists p',
    starts p' text
    /\ column_definition p = Ok (ColumnDefinition (Identifier w) k, p').
Proof.
  intros Hws Hp Hmem Hcl Hs.
  destruct (type_word k Hmem) as [Hw Hkind].
  pose proof (closes_tokenizes _ _ Hcl) as Htok. destruct Hcl as [Hstop _].
  set (kw := SQLGenerator.token_type_to_string k) in *.
  rewrite append_assoc in Hs.
  pose proof (first_token_word " " kw text eq_refl Hw Hstop) as Hft.
  rewrite Hkind in Hft.
  destruct (name_reads p ws w (" " ++ kw ++ text) Hws Hp eq_refl
              (ex_intro _ _ (ex_intro _ _ (ex_intro _ _ Hft))) Hs)
    as (Hk & Hl & tok & p1 & Hs1 & Hc).
  destruct (starts_at _ _ _ _ _ Hs1 Hft) as [Hk1 _].
  destruct (consume_reads _ _ _ _ _ Hs1 Hft Htok) as (tok' & p' & Hs' & Hc').
  exists p'. split; [exact Hs'|].
  unfold column_definition.
  rewrite bind_current, Hk, eqb_refl, (bind_run _ _ _ _ _ Hc), bind_current,
    Hk1, Hmem, (bind_run _ _ _ _ _ Hc'), Hl.
  reflexivity.
Qed.

End ParserRuns.

Section Lists.

Import Parser TokenType.

Lemma join_more x xs : Str.join ", " (map show (x :: xs)) = show x ++ more xs.
Proof.
  revert x. induction xs as [|y xs IH]; intros x.
  - cbn. now rewrite append_empty_r.
  - change (Str.join ", " (map show (x :: y :: xs)))
      with (show x ++ ", " ++ Str.join ", " (map show (y :: xs))).
    now rewrite IH.
Qed.

Lemma length_append s t :
  String.length (s ++ t) = (String.length s + String.length t)%nat.
Proof. induction s; cbn; auto. Qed.

Lemma length_more xs : (length xs <= String.length (more xs))%nat.
Proof.
  induction xs as [|x xs IH]; [cbn; lia|].
  cbn [more length]. rewrite !length_append. cbn. lia.
Qed.

Lemma closes_more xs tail k :
  closes tail k ->
  closes (more xs ++ tail) match xs with [] => k | _ :: _ => COMMA end.
Proof.
  intros H. destruct xs as [|x xs]; [exact H|].
  cbn [more]. rewrite append_assoc. split; [reflexivity|].
  eexists _, _. exact (first_token_comma "" _ eq_refl).
Qed.

Variable item : M ASTNode.
Variable good : ASTNode -> bool.

Hypothesis item_tokenizes :
  forall x ws text k,
    good x = true -> all Char.isspace ws = true -> closes text k ->
    tokenizes (ws ++ show x ++ text).

Hypothesis item_reads :
  forall x ws text k p,
    good x = true -> all Char.isspace ws = true -> closes text k ->
    k <> DOT ->
    starts p (ws ++ show x ++ text) ->
    exists p', starts p' text /\ item p = Ok (x, p').

(** The loop reads the items that the commas announce, as many as there
    are. *)
Lemma comma_loop_reads xs :
  forall acc fuel p tail k,
    (length xs <= fuel)%nat -> forallb good xs = true ->
    closes tail k -> k <> DOT -> k <> COMMA ->
    starts p (more xs ++ tail) ->
    exists p',
      starts p' tail /\ comma_loop fuel item acc p = Ok ((acc ++ xs)%list, p').
Proof.
  induction xs as [|x xs IH]; intros acc fuel p tail k Hfuel Hgood Hcl Hd Hc Hs.
  - exists p. split; [exact Hs|]. destruct Hcl as (_ & lex & rest & Hft).
    destruct (starts_at _ _ _ _ _ Hs Hft) as [Hk _].
    rewrite app_nil_r.
    destruct fuel; cbn [comma_loop];
      now rewrite bind_current, Hk, (eqb_neq _ _ Hc).
  - cbn [forallb] in Hgood. apply andb_true_iff in Hgood as [Hx Hgood].
    destruct fuel as [|fuel]; [cbn in Hfuel; lia|].
    cbn [length] in Hfuel.
    pose proof (closes_more xs tail k Hcl) as Hcl'.
    set (k' := match xs with [] => k | _ :: _ => COMMA end) in *.
    assert (Hk' : k' <> DOT) by (subst k'; destruct xs; [exact Hd | discriminate]).
    cbn [more] in Hs. rewrite !append_assoc in Hs.
    pose proof (first_token_comma "" (" " ++ show x ++ more xs ++ tail) eq_refl)
      as Hft.
    destruct (starts_at _ _ _ _ _ Hs Hft) as [Hk _].
    destruct (consume_reads _ _ _ _ _ Hs Hft
                (item_tokenizes x " " _ k' Hx eq_refl Hcl'))
      as (tok & p1 & Hs1 & Hc1).
    destruct (item_reads x " " _ k' p1 Hx eq_refl Hcl' Hk' Hs1)
      as (p2 & Hs2 & Hi).
    destruct (IH (acc ++ [x])%list fuel p2 tail k ltac:(lia) Hgood Hcl Hd Hc Hs2)
      as (p' & Hs' & Hloop).
    exists p'. split; [exact Hs'|].
    cbn [comma_loop].
    rewrite bind_current, Hk, eqb_refl, (bind_run _ _ _ _ _ Hc1),
      (bind_run _ _ _ _ _ Hi), Hloop.
    now rewrite <- app_assoc.
Qed.

(** A list of one item or more, with commas between the items. *)
Lemma list_reads x xs ws fuel p tail k :
  (length xs <= fuel)%nat -> forallb good (x :: xs) = true ->
  all Char.isspace ws = true ->
  closes tail k -> k <> DOT -> k <> COMMA ->
  starts p (ws ++ Str.join ", " (map show (x :: xs)) ++ tail) ->
  exists p1 p',
    item p = Ok (x, p1)
    /\ comma_loop fuel item [x] p1 = Ok (x :: xs, p')
    /\ starts p' tail.
Proof.
  intros Hfuel Hgood Hws Hcl Hd Hc Hs.
  cbn [forallb] in Hgood. apply andb_true_iff in Hgood as [Hx Hgood].
  rewrite join_more, append_assoc in Hs.
  pose proof (closes_more xs tail k Hcl) as Hcl'.
  set (k' := match xs with [] => k | _ :: _ => COMMA end) in *.
  assert (Hk' : k' <> DOT) by (subst k'; destruct xs; [exact Hd | discriminate]).
  destruct (item_reads x ws _ k' p Hx Hws Hcl' Hk' Hs) as (p1 & Hs1 & Hi).
  destruct (comma_loop_reads xs [x] fuel p1 tail k Hfuel Hgood Hcl Hd Hc Hs1)
    as (p' & Hs' & Hloop).
  exists p1, p'. auto.
Qed.

Lemma list_tokenizes x xs ws tail k :
  good x = true -> all Char.isspace ws = true -> closes tail k ->
  tokenizes (ws ++ Str.join ", " (map show (x :: xs)) ++ tail).
Proof.
  intros Hx Hws Hcl. rewrite join_more, append_assoc.
  exact (item_tokenizes x ws _ _ Hx Hws (closes_more xs tail k Hcl)).
Qed.

End Lists.

(** Decide the comparisons of two given kinds. *)
Ltac decide_kinds :=
  repeat match goal with
         | |- context [TokenType.eqb ?a ?b] =>
             let v := eval vm_compute in (TokenType.eqb a b) in
             lazymatch v with
             | true => change (TokenType.eqb a b) with true
             | false => change (TokenType.eqb a b) with false
             end
         end;
  cbv iota.

Section Items.

Import Parser TokenType.

Lemma named_tokenizes x ws text k :
  named x = true -> all Char.isspace ws = true -> closes text k ->
  tokenizes (ws ++ show x ++ text).
Proof.
  destruct x as [w| | | | | | | | | | | |]; try discriminate.
  cbn [named show]. intros Hp Hws [Hstop _].
  destruct (plain_name_word _ Hp) as [Hw _].
  eexists _, _, _. exact (first_token_word ws w text Hws Hw Hstop).
Qed.

Lemma named_reads fuel x ws text k p :
  named x = true -> all Char.isspace ws = true -> closes text k ->
  k <> DOT ->
  starts p (ws ++ show x ++ text) ->
  exists p', starts p' text /\ expression fuel p = Ok (x, p').
Proof.
  destruct x as [w| | | | | | | | | | | |]; try discriminate.
  cbn [named show]. intros. now apply (expression_reads fuel p ws w text k).
Qed.

Lemma named_table_tokenizes x ws text k :
  named_table x = true -> all Char.isspace ws = true -> closes text k ->
  tokenizes (ws ++ show x ++ text).
Proof.
  destruct x as [| | | |w| | | | | | | |]; try discriminate.
  cbn [named_table show]. intros Hp Hws [Hstop _].
  destruct (plain_name_word _ Hp) as [Hw _].
  eexists _, _, _. exact (first_token_word ws w text Hws Hw Hstop).
Qed.

Lemma named_table_reads x ws text k p :
  named_table x = true -> all Char.isspace ws = true -> closes text k ->
  k <> DOT ->
  starts p (ws ++ show x ++ text) ->
  exists p', starts p' text /\ table_reference p = Ok (x, p').
Proof.
  destruct x as [| | | |w| | | | | | | |]; try discriminate.
  cbn [named_table show]. intros Hp Hws Hcl _ Hs.
  apply (table_reference_reads p ws w text); auto.
  - exact (proj1 Hcl).
  - exact (closes_tokenizes _ _ Hcl).
Qed.

Lemma named_column_parts x :
  named_column x = true ->
  exists w k,
    x = ColumnDefinition (Identifier w) k /\ plain_name w = true
    /\ mem k [INT; TEXT; FLOAT; DATE] = true.
Proof.
  destruct x as [| | | | | |n k| | | | | |]; try discriminate.
  destruct n as [w| | | | | | | | | | | |]; try discriminate.
  cbn [named_column]. intros H. apply andb_true_iff in H as [Hp Hk].
  now exists w, k.
Qed.

Lemma named_column_tokenizes x ws text k :
  named_column x = true -> all Char.isspace ws = true -> closes text k ->
  tokenizes (ws ++ show x ++ text).
Proof.
  intros Hx Hws _. destruct (named_column_parts x Hx) as (w & k0 & -> & Hp & _).
  cbn [show]. rewrite append_assoc.
  destruct (plain_name_word _ Hp) as [Hw _].
  eexists _, _, _.
  exact (first_token_word ws w
           (" " ++ SQLGenerator.token_type_to_string k0 ++ text) Hws Hw
           eq_refl).
Qed.

Lemma named_column_reads x ws text k p :
  named_column x = true -> all Char.isspace ws = true -> closes text k ->
  k <> DOT ->
  starts p (ws ++ show x ++ text) ->
  exists p', starts p' text /\ column_definition p = Ok (x, p').
Proof.
  intros Hx Hws Hcl _ Hs.
  destruct (named_column_parts x Hx) as (w & k0 & -> & Hp & Hk).
  now apply (column_definition_reads p ws w k0 text k).
Qed.

Lemma where_clause_none fuel p :
  starts p "" -> where_clause fuel p = Ok (None, p).
Proof.
  intros Hs. destruct (starts_at _ _ _ _ _ Hs first_token_eof) as [Hk _].
  unfold where_clause. now rewrite bind_current, Hk.
Qed.

Lemma join_loop_none fuel fuel_loop p :
  starts p "" -> join_loop fuel fuel_loop [] p = Ok ([], p).
Proof.
  intros Hs. destruct (starts_at _ _ _ _ _ Hs first_token_eof) as [Hk _].
  destruct fuel_loop; cbn [join_loop]; now rewrite bind_current, Hk.
Qed.

Lemma tokenizes_word ws w text :
  all Char.isspace ws = true -> is_word w = true ->
  stops in_identifier text = true -> tokenizes (ws ++ w ++ text).
Proof. intros. eexists _, _, _. now apply first_token_word. Qed.

End Items.

Section StatementsOfNames.

Import Parser TokenType.

Lemma drop_reads fuel w :
  plain_name w = true ->
  exists p',
    parse fuel (new (Lexer.new ("DROP TABLE " ++ w)))
    = Ok (DropStmt (Identifier w), p').
Proof.
  intros Hp. destruct (plain_name_word w Hp) as [Hw _].
  replace ("DROP TABLE " ++ w) with ("DROP TABLE " ++ w ++ "")
    by now rewrite append_empty_r.
  assert (H2 : tokenizes (" " ++ w ++ ""))
    by now apply tokenizes_word.
  assert (H1 : tokenizes (" " ++ "TABLE" ++ " " ++ w ++ ""))
    by now apply tokenizes_word.
  assert (H0 : tokenizes ("" ++ "DROP" ++ " " ++ "TABLE" ++ " " ++ w ++ ""))
    by now apply tokenizes_word.
  pose proof (starts_new _ H0) as Hs0.
  destruct (keyword_reads _ "" "DROP" DROP (" " ++ "TABLE" ++ " " ++ w ++ "")
              eq_refl eq_refl eq_refl eq_refl H1 Hs0)
    as (Hk0 & t0 & p1 & Hs1 & Hc0).
  destruct (keyword_reads _ " " "TABLE" TABLE (" " ++ w ++ "") eq_refl
              eq_refl eq_refl eq_refl H2 Hs1) as (_ & t1 & p2 & Hs2 & Hc1).
  destruct (table_name_reads p2 " " w "" eq_refl Hp eq_refl
              (closes_tokenizes _ _ closes_eof) Hs2) as (p3 & Hs3 & Hn).
  exists p3. unfold parse, sql_statement.
  rewrite bind_current.
  change ("DROP TABLE " ++ w ++ "")
    with ("" ++ "DROP" ++ " " ++ "TABLE" ++ " " ++ w ++ "").
  rewrite Hk0. decide_kinds. unfold drop_statement.
  now rewrite (bind_run _ _ _ _ _ Hc0), (bind_run _ _ _ _ _ Hc1),
    (bind_run _ _ _ _ _ Hn).
Qed.

Lemma delete_reads fuel w :
  plain_name w = true ->
  exists p',
    parse fuel (new (Lexer.new ("DELETE FROM " ++ w)))
    = Ok (DeleteStmt (Identifier w) None, p').
Proof.
  intros Hp. destruct (plain_name_word w Hp) as [Hw _].
  replace ("DELETE FROM " ++ w) with ("DELETE FROM " ++ w ++ "")
    by now rewrite append_empty_r.
  assert (H2 : tokenizes (" " ++ w ++ ""))
    by now apply tokenizes_word.
  assert (H1 : tokenizes (" " ++ "FROM" ++ " " ++ w ++ ""))
    by now apply tokenizes_word.
  assert (H0 : tokenizes ("" ++ "DELETE" ++ " " ++ "FROM" ++ " " ++ w ++ ""))
    by now apply tokenizes_word.
  pose proof (starts_new _ H0) as Hs0.
  destruct (keyword_reads _ "" "DELETE" DELETE
              (" " ++ "FROM" ++ " " ++ w ++ "")
              eq_refl eq_refl eq_refl eq_refl H1 Hs0)
    as (Hk0 & t0 & p1 & Hs1 & Hc0).
  destruct (keyword_reads _ " " "FROM" FROM (" " ++ w ++ "") eq_refl
              eq_refl eq_refl eq_refl H2 Hs1) as (_ & t1 & p2 & Hs2 & Hc1).
  destruct (table_name_reads p2 " " w "" eq_refl Hp eq_refl
              (closes_tokenizes _ _ closes_eof) Hs2) as (p3 & Hs3 & Hn).
  exists p3. unfold parse, sql_statement.
  rewrite bind_current.
  change ("DELETE FROM " ++ w ++ "")
    with ("" ++ "DELETE" ++ " " ++ "FROM" ++ " " ++ w ++ "").
  rewrite Hk0. decide_kinds. unfold delete_statement.
  now rewrite (bind_run _ _ _ _ _ Hc0), (bind_run _ _ _ _ _ Hc1),
    (bind_run _ _ _ _ _ Hn), (bind_run _ _ _ _ _ (where_clause_none fuel _ Hs3)).
Qed.

End StatementsOfNames.

Section StatementsOfLists.

Import Parser TokenType.

Lemma closes_right_paren rest : closes (String ")"%char rest) RIGHT_PAREN.
Proof.
  split; [reflexivity|]. eexists _, _.
  exact (first_token_right_paren "" rest eq_refl).
Qed.

Lemma length_join x xs :
  (length xs <= String.length (Str.join ", " (map show (x :: xs))))%nat.
Proof.
  rewrite join_more, length_append. pose proof (length_more xs). lia.
Qed.

Lemma create_reads fuel w x xs :
  plain_name w = true -> forallb named_column (x :: xs) = true ->
  (length xs <= fuel)%nat ->
  exists p',
    parse fuel
      (new (Lexer.new ("CREATE TABLE " ++ w ++ " ("
                       ++ Str.join ", " (map show (x :: xs)) ++ ")")))
    = Ok (CreateStmt (Identifier w) (x :: xs), p').
Proof.
  intros Hp Hcols Hfuel. destruct (plain_name_word w Hp) as [Hw _].
  set (items := Str.join ", " (map show (x :: xs))).
  assert (Hx : named_column x = true)
    by (cbn [forallb] in Hcols; now apply andb_true_iff in Hcols as [? _]).
  assert (H4 : tokenizes ("" ++ items ++ ")"))
    by exact (list_tokenizes named_column named_column_tokenizes x xs ""
                ")" RIGHT_PAREN Hx eq_refl (closes_right_paren "")).
  assert (H3 : tokenizes (" " ++ String "("%char ("" ++ items ++ ")")))
    by (eexists _, _, _; exact (first_token_left_paren " " _ eq_refl)).
  assert (H2 : tokenizes (" " ++ w ++ " " ++ String "("%char
                          ("" ++ items ++ ")")))
    by now apply tokenizes_word.
  assert (H1 : tokenizes (" " ++ "TABLE" ++ " " ++ w ++ " "
                          ++ String "("%char ("" ++ items ++ ")")))
    by now apply tokenizes_word.
  assert (H0 : tokenizes ("" ++ "CREATE" ++ " " ++ "TABLE" ++ " " ++ w ++ " "
                          ++ String "("%char ("" ++ items ++ ")")))
    by now apply tokenizes_word.
  pose proof (starts_new _ H0) as Hs0.
  destruct (keyword_reads _ "" "CREATE" CREATE
              (" " ++ "TABLE" ++ " " ++ w ++ " "
               ++ String "("%char ("" ++ items ++ ")"))
              eq_refl eq_refl eq_refl eq_refl H1 Hs0)
    as (Hk0 & t0 & p1 & Hs1 & Hc0).
  destruct (keyword_reads _ " " "TABLE" TABLE
              (" " ++ w ++ " " ++ String "("%char ("" ++ items ++ ")"))
              eq_refl eq_refl eq_refl eq_refl H2 Hs1)
    as (_ & t1 & p2 & Hs2 & Hc1).
  destruct (table_name_reads p2 " " w
              (" " ++ String "("%char ("" ++ items ++ ")"))
              eq_refl Hp eq_refl H3 Hs2) as (p3 & Hs3 & Hn).
  destruct (consume_reads p3 _ _ _ _ Hs3
              (first_token_left_paren " " ("" ++ items ++ ")") eq_refl) H4)
    as (t3 & p4 & Hs4 & Hc3).
  destruct (list_reads column_definition named_column named_column_tokenizes
              named_column_reads x xs "" fuel p4 ")" RIGHT_PAREN Hfuel Hcols
              eq_refl (closes_right_paren "") ltac:(discriminate)
              ltac:(discriminate) Hs4)
    as (p5 & p6 & Hfirst & Hloop & Hs6).
  destruct (consume_reads p6 _ _ _ _ Hs6
              (first_token_right_paren "" "" eq_refl)
              (closes_tokenizes _ _ closes_eof))
    as (t6 & p7 & Hs7 & Hc6).
  exists p7. unfold parse, sql_statement.
  rewrite bind_current.
  change ("CREATE TABLE " ++ w ++ " (" ++ items ++ ")")
    with ("" ++ "CREATE" ++ " " ++ "TABLE" ++ " " ++ w ++ " "
          ++ String "("%char ("" ++ items ++ ")")).
  rewrite Hk0. decide_kinds. unfold create_statement.
  now rewrite (bind_run _ _ _ _ _ Hc0), (bind_run _ _ _ _ _ Hc1),
    (bind_run _ _ _ _ _ Hn), (bind_run _ _ _ _ _ Hc3),
    (bind_run _ _ _ _ _ Hfirst), (bind_run _ _ _ _ _ Hloop),
    (bind_run _ _ _ _ _ Hc6).
Qed.

(** The columns of a [SELECT]: [*], or names. *)
Lemma column_list_reads fuel cols ws p tail k :
  named_columns cols = true -> all Char.isspace ws = true ->
  (length cols <= fuel)%nat ->
  closes tail k -> k <> DOT -> k <> COMMA ->
  starts p (ws ++ Str.join ", " (map show cols) ++ tail) ->
  exists p', starts p' tail /\ column_list fuel p = Ok (cols, p').
Proof.
  intros Hcols Hws Hfuel Hcl Hd Hc Hs.
  apply orb_true_iff in Hcols as [Hstar|Hn].
  - destruct cols as [|[w| | | | | | | | | | | |] [|]]; try discriminate.
    cbn [is_star] in Hstar. apply String.eqb_eq in Hstar as ->.
    cbn [map show Str.join] in Hs.
    pose proof (first_token_asterisk ws tail Hws) as Hft.
    destruct (starts_at _ _ _ _ _ Hs Hft) as [Hk _].
    destruct (consume_reads p _ _ _ _ Hs Hft (closes_tokenizes _ _ Hcl))
      as (t0 & p' & Hs' & Hc0).
    exists p'. split; [exact Hs'|]. unfold column_list.
    now rewrite bind_current, Hk, eqb_refl, (bind_run _ _ _ _ _ Hc0).
  - apply andb_true_iff in Hn as [Hne Hnames].
    destruct cols as [|x xs]; [discriminate|].
    destruct (list_reads (expression fuel) named named_tokenizes
                (named_reads fuel) x xs ws fuel p tail k
                ltac:(cbn [length] in Hfuel; lia) Hnames Hws Hcl Hd Hc Hs)
      as (p1 & p' & Hfirst & Hloop & Hs').
    exists p'. split; [exact Hs'|].
    assert (Hk : type (current_token p) = IDENTIFIER).
    { cbn [forallb] in Hnames. apply andb_true_iff in Hnames as [Hx _].
      destruct x as [w| | | | | | | | | | | |]; try discriminate.
      rewrite join_more, append_assoc in Hs. cbn [show] in Hs.
      destruct (plain_name_word w Hx) as [Hw Hkind].
      pose proof (first_token_word ws w (more xs ++ tail) Hws Hw
                    (proj1 (closes_more xs tail k Hcl))) as Hft.
      rewrite Hkind in Hft. exact (proj1 (starts_at _ _ _ _ _ Hs Hft)). }
    unfold column_list. rewrite bind_current, Hk. decide_kinds.
    now rewrite (bind_run _ _ _ _ _ Hfirst).
Qed.

Lemma columns_tokenize cols ws tail k :
  named_columns cols = true -> all Char.isspace ws = true ->
  closes tail k ->
  tokenizes (ws ++ Str.join ", " (map show cols) ++ tail).
Proof.
  intros Hcols Hws Hcl. apply orb_true_iff in Hcols as [Hstar|Hn].
  - destruct cols as [|[w| | | | | | | | | | | |] [|]]; try discriminate.
    cbn [is_star] in Hstar. apply String.eqb_eq in Hstar as ->.
    eexists _, _, _. exact (first_token_asterisk ws tail Hws).
  - apply andb_true_iff in Hn as [Hne Hnames].
    destruct cols as [|x xs]; [discriminate|].
    cbn [forallb] in Hnames. apply andb_true_iff in Hnames as [Hx _].
    exact (list_tokenizes named named_tokenizes x xs ws tail k Hx Hws Hcl).
Qed.

Lemma select_reads fuel cols t ts :
  named_columns cols = true ->
  forallb named_table (t :: ts) = true ->
  (length cols <= fuel)%nat -> (length ts <= fuel)%nat ->
  exists p',
    parse fuel
      (new (Lexer.new ("SELECT " ++ Str.join ", " (map show cols) ++ " FROM "
                       ++ Str.join ", " (map show (t :: ts)))))
    = Ok (SelectStmt cols (t :: ts) [] None, p').
Proof.
  intros Hcols Hts Hfc Hft.
  set (columns := Str.join ", " (map show cols)).
  set (tables := Str.join ", " (map show (t :: ts))).
  replace tables with (tables ++ "") by apply append_empty_r.
  assert (Ht : named_table t = true)
    by (cbn [forallb] in Hts; now apply andb_true_iff in Hts as [? _]).
  assert (H3 : tokenizes (" " ++ tables ++ ""))
    by exact (list_tokenizes named_table named_table_tokenizes t ts " " ""
                EOF Ht eq_refl closes_eof).
  assert (Hfrom : first_token (" " ++ "FROM" ++ " " ++ tables ++ "") FROM
                    "FROM" (" " ++ tables ++ ""))
    by exact (first_token_word " " "FROM" (" " ++ tables ++ "") eq_refl
                eq_refl eq_refl).
  assert (Hcl : closes (" " ++ "FROM" ++ " " ++ tables ++ "") FROM).
  { split; [reflexivity|]. eexists _, _. exact Hfrom. }
  assert (H1 : tokenizes (" " ++ columns ++ " " ++ "FROM" ++ " " ++ tables
                          ++ ""))
    by exact (columns_tokenize cols " " _ FROM Hcols eq_refl Hcl).
  assert (H0 : tokenizes ("" ++ "SELECT" ++ " " ++ columns ++ " " ++ "FROM"
                          ++ " " ++ tables ++ ""))
    by now apply tokenizes_word.
  pose proof (starts_new _ H0) as Hs0.
  destruct (keyword_reads _ "" "SELECT" SELECT
              (" " ++ columns ++ " " ++ "FROM" ++ " " ++ tables ++ "")
              eq_refl eq_refl eq_refl eq_refl H1 Hs0)
    as (Hk0 & t0 & p1 & Hs1 & Hc0).
  destruct (column_list_reads fuel cols " " p1 _ FROM Hcols eq_refl Hfc Hcl
              ltac:(discriminate) ltac:(discriminate) Hs1)
    as (p2 & Hs2 & Hcl2).
  destruct (consume_reads p2 _ _ _ _ Hs2 Hfrom H3)
    as (t2 & p3 & Hs3 & Hc2).
  destruct (list_reads table_reference named_table named_table_tokenizes
              named_table_reads t ts " " fuel p3 "" EOF Hft Hts eq_refl
              closes_eof ltac:(discriminate) ltac:(discriminate) Hs3)
    as (p4 & p5 & Hfirst & Hloop & Hs5).
  exists p5. unfold parse, sql_statement.
  rewrite bind_current.
  change ("SELECT " ++ columns ++ " FROM " ++ tables ++ "")
    with ("" ++ "SELECT" ++ " " ++ columns ++ " " ++ "FROM" ++ " " ++ tables
          ++ "").
  rewrite Hk0. decide_kinds. unfold select_statement.
  assert (Htl : table_list fuel p3 = Ok (t :: ts, p5))
    by (unfold table_list; now rewrite (bind_run _ _ _ _ _ Hfirst)).
  now rewrite (bind_run _ _ _ _ _ Hc0), (bind_run _ _ _ _ _ Hcl2),
    (bind_run _ _ _ _ _ Hc2), (bind_run _ _ _ _ _ Htl),
    (bind_run _ _ _ _ _ (join_loop_none fuel fuel _ Hs5)),
    (bind_run _ _ _ _ _ (where_clause_none fuel _ Hs5)).
Qed.

End StatementsOfLists.

Section MoreStatements.

Import Parser TokenType.

Lemma set_clause_reads fuel p ws w v text k :
  all Char.isspace ws = true -> plain_name w = true -> plain_name v = true ->
  closes text k -> k <> DOT ->
  starts p (ws ++ (w ++ " = " ++ v) ++ text) ->
  exists p',
    starts p' text
    /\ set_clause fuel p
       = Ok (Expression (Identifier w) EQUALS (Identifier v), p').
Proof.
  intros Hws Hw Hv Hcl Hk Hs. rewrite append_assoc in Hs.
  destruct (plain_name_word v Hv) as [Hv' _].
  pose proof (first_token_equals " " (" " ++ v ++ text) eq_refl) as Hft.
  assert (H2 : tokenizes (" " ++ v ++ text))
    by (apply tokenizes_word; auto; exact (proj1 Hcl)).
  destruct (name_reads p ws w (" " ++ String "="%char (" " ++ v ++ text)) Hws
              Hw eq_refl (ex_intro _ _ (ex_intro _ _ (ex_intro _ _ Hft))) Hs)
    as (Hk0 & Hl & t0 & p1 & Hs1 & Hc0).
  destruct (consume_reads p1 _ _ _ _ Hs1 Hft H2) as (t1 & p2 & Hs2 & Hc1).
  destruct (expression_reads fuel p2 " " v text k eq_refl Hv Hcl Hk Hs2)
    as (p' & Hs' & He).
  exists p'. split; [exact Hs'|]. unfold set_clause.
  now rewrite bind_current, Hk0, eqb_refl, (bind_run _ _ _ _ _ Hc0),
    (bind_run _ _ _ _ _ Hc1), (bind_run _ _ _ _ _ He), Hl.
Qed.

Lemma named_set_clause_parts x :
  named_set_clause x = true ->
  exists w v,
    x = Expression (Identifier w) EQUALS (Identifier v)
    /\ plain_name w = true /\ plain_name v = true.
Proof.
  destruct x as [| |l k r| | | | | | | | | |]; try discriminate.
  destruct l as [w| | | | | | | | | | | |]; try discriminate.
  destruct r as [v| | | | | | | | | | | |]; try discriminate.
  cbn [named_set_clause]. intros H. apply andb_true_iff in H as [H Hv].
  apply andb_true_iff in H as [Hw Hk]. apply token_type_eqb_eq in Hk as ->.
  now exists w, v.
Qed.

Lemma named_set_clause_tokenizes x ws text k :
  named_set_clause x = true -> all Char.isspace ws = true -> closes text k ->
  tokenizes (ws ++ show x ++ text).
Proof.
  intros Hx Hws _.
  destruct (named_set_clause_parts x Hx) as (w & v & -> & Hw & _).
  cbn [show]. rewrite append_assoc.
  destruct (plain_name_word _ Hw) as [Hw' _].
  eexists _, _, _.
  exact (first_token_word ws w (" = " ++ v ++ text) Hws Hw' eq_refl).
Qed.

Lemma named_set_clause_reads fuel x ws text k p :
  named_set_clause x = true -> all Char.isspace ws = true -> closes text k ->
  k <> DOT ->
  starts p (ws ++ show x ++ text) ->
  exists p', starts p' text /\ set_clause fuel p = Ok (x, p').
Proof.
  intros Hx Hws Hcl Hk Hs.
  destruct (named_set_clause_parts x Hx) as (w & v & -> & Hw & Hv).
  now apply (set_clause_reads fuel p ws w v text k).
Qed.

Lemma update_reads fuel w x xs :
  plain_name w = true -> forallb named_set_clause (x :: xs) = true ->
  (length xs <= fuel)%nat ->
  exists p',
    parse fuel
      (new (Lexer.new ("UPDATE " ++ w ++ " SET "
                       ++ Str.join ", " (map show (x :: xs)))))
    = Ok (UpdateStmt (Identifier w) (x :: xs) None, p').
Proof.
  intros Hp Hsets Hfuel. destruct (plain_name_word w Hp) as [Hw _].
  set (items := Str.join ", " (map show (x :: xs))).
  replace items with (items ++ "") by apply append_empty_r.
  assert (Hx : named_set_clause x = true)
    by (cbn [forallb] in Hsets; now apply andb_true_iff in Hsets as [? _]).
  assert (H3 : tokenizes (" " ++ items ++ ""))
    by exact (list_tokenizes named_set_clause named_set_clause_tokenizes x xs
                " " "" EOF Hx eq_refl closes_eof).
  assert (H2 : tokenizes (" " ++ "SET" ++ " " ++ items ++ ""))
    by now apply tokenizes_word.
  assert (H1 : tokenizes (" " ++ w ++ " " ++ "SET" ++ " " ++ items ++ ""))
    by now apply tokenizes_word.
  assert (H0 : tokenizes ("" ++ "UPDATE" ++ " " ++ w ++ " " ++ "SET" ++ " "
                          ++ items ++ ""))
    by now apply tokenizes_word.
  pose proof (starts_new _ H0) as Hs0.
  destruct (keyword_reads _ "" "UPDATE" UPDATE
              (" " ++ w ++ " " ++ "SET" ++ " " ++ items ++ "")
              eq_refl eq_refl eq_refl eq_refl H1 Hs0)
    as (Hk0 & t0 & p1 & Hs1 & Hc0).
  destruct (table_name_reads p1 " " w (" " ++ "SET" ++ " " ++ items ++ "")
              eq_refl Hp eq_refl H2 Hs1) as (p2 & Hs2 & Hn).
  destruct (keyword_reads _ " " "SET" SET (" " ++ items ++ "")
              eq_refl eq_refl eq_refl eq_refl H3 Hs2)
    as (_ & t2 & p3 & Hs3 & Hc2).
  destruct (list_reads (set_clause fuel) named_set_clause
              named_set_clause_tokenizes (named_set_clause_reads fuel) x xs
              " " fuel p3 "" EOF Hfuel Hsets eq_refl closes_eof
              ltac:(discriminate) ltac:(discriminate) Hs3)
    as (p4 & p5 & Hfirst & Hloop & Hs5).
  exists p5. unfold parse, sql_statement.
  rewrite bind_current.
  change ("UPDATE " ++ w ++ " SET " ++ items ++ "")
    with ("" ++ "UPDATE" ++ " " ++ w ++ " " ++ "SET" ++ " " ++ items ++ "").
  rewrite Hk0. decide_kinds. unfold update_statement.
  now rewrite (bind_run _ _ _ _ _ Hc0), (bind_run _ _ _ _ _ Hn),
    (bind_run _ _ _ _ _ Hc2), (bind_run _ _ _ _ _ Hfirst),
    (bind_run _ _ _ _ _ Hloop),
    (bind_run _ _ _ _ _ (where_clause_none fuel _ Hs5)).
Qed.

(** The text of the values of an [INSERT], from [VALUES] on. *)
Lemma values_tokenize x xs :
  forallb named (x :: xs) = true ->
  tokenizes ("" ++ Str.join ", " (map show (x :: xs)) ++ ")")
  /\ tokenizes (" " ++ String "("%char
                  ("" ++ Str.join ", " (map show (x :: xs)) ++ ")"))
  /\ closes (" " ++ "VALUES" ++ " " ++ String "("%char
               ("" ++ Str.join ", " (map show (x :: xs)) ++ ")")) VALUES.
Proof.
  intros Hvals.
  assert (Hx : named x = true)
    by (cbn [forallb] in Hvals; now apply andb_true_iff in Hvals as [? _]).
  split; [|split; [|split; [reflexivity|]]].
  - exact (list_tokenizes named named_tokenizes x xs "" ")" RIGHT_PAREN Hx
             eq_refl (closes_right_paren "")).
  - eexists _, _, _. exact (first_token_left_paren " " _ eq_refl).
  - eexists _, _.
    exact (first_token_word " " "VALUES"
             (" " ++ String "("%char
                ("" ++ Str.join ", " (map show (x :: xs)) ++ ")"))
             eq_refl eq_refl eq_refl).
Qed.

Lemma values_read fuel table columns x xs p :
  forallb named (x :: xs) = true -> (length xs <= fuel)%nat ->
  starts p (" " ++ "VALUES" ++ " " ++ String "("%char
              ("" ++ Str.join ", " (map show (x :: xs)) ++ ")")) ->
  exists p',
    bind (consume VALUES)
      (fun _ =>
         bind (consume LEFT_PAREN)
           (fun _ =>
              bind (expression fuel)
                (fun first =>
                   bind (comma_loop fuel (expression fuel) [first])
                     (fun values =>
                        bind (consume RIGHT_PAREN)
                          (fun _ => ret (InsertStmt table columns values))))))
      p
    = Ok (InsertStmt table columns (x :: xs), p').
Proof.
  intros Hvals Hfuel Hs.
  destruct (values_tokenize x xs Hvals) as (H2 & H1 & _).
  set (items := Str.join ", " (map show (x :: xs))) in *.
  destruct (keyword_reads _ " " "VALUES" VALUES
              (" " ++ String "("%char ("" ++ items ++ ")"))
              eq_refl eq_refl eq_refl eq_refl H1 Hs)
    as (_ & t0 & p1 & Hs1 & Hc0).
  destruct (consume_reads p1 _ _ _ _ Hs1
              (first_token_left_paren " " ("" ++ items ++ ")") eq_refl) H2)
    as (t1 & p2 & Hs2 & Hc1).
  destruct (list_reads (expression fuel) named named_tokenizes
              (named_reads fuel) x xs "" fuel p2 ")" RIGHT_PAREN Hfuel Hvals
              eq_refl (closes_right_paren "") ltac:(discriminate)
              ltac:(discriminate) Hs2)
    as (p3 & p4 & Hfirst & Hloop & Hs4).
  destruct (consume_reads p4 _ _ _ _ Hs4
              (first_token_right_paren "" "" eq_refl)
              (closes_tokenizes _ _ closes_eof))
    as (t4 & p5 & Hs5 & Hc4).
  exists p5.
  now rewrite (bind_run _ _ _ _ _ Hc0), (bind_run _ _ _ _ _ Hc1),
    (bind_run _ _ _ _ _ Hfirst), (bind_run _ _ _ _ _ Hloop),
    (bind_run _ _ _ _ _ Hc4).
Qed.

(** [INSERT] without a column list. *)
Lemma insert_reads fuel w x xs :
  plain_name w = true -> forallb named (x :: xs) = true ->
  (length xs <= fuel)%nat ->
  exists p',
    parse fuel
      (new (Lexer.new ("INSERT INTO " ++ w ++ " VALUES ("
                       ++ Str.join ", " (map show (x :: xs)) ++ ")")))
    = Ok (InsertStmt (Identifier w) [] (x :: xs), p').
Proof.
  intros Hp Hvals Hfuel. destruct (plain_name_word w Hp) as [Hw _].
  destruct (values_tokenize x xs Hvals) as (_ & _ & Hcl).
  set (items := Str.join ", " (map show (x :: xs))) in *.
  set (tail := " " ++ "VALUES" ++ " " ++ String "("%char ("" ++ items ++ ")"))
    in *.
  assert (H2 : tokenizes (" " ++ w ++ tail))
    by (apply tokenizes_word; auto).
  assert (H1 : tokenizes (" " ++ "INTO" ++ " " ++ w ++ tail))
    by now apply tokenizes_word.
  assert (H0 : tokenizes ("" ++ "INSERT" ++ " " ++ "INTO" ++ " " ++ w ++ tail))
    by now apply tokenizes_word.
  pose proof (starts_new _ H0) as Hs0.
  destruct (keyword_reads _ "" "INSERT" INSERT
              (" " ++ "INTO" ++ " " ++ w ++ tail)
              eq_refl eq_refl eq_refl eq_refl H1 Hs0)
    as (Hk0 & t0 & p1 & Hs1 & Hc0).
  destruct (keyword_reads _ " " "INTO" INTO (" " ++ w ++ tail)
              eq_refl eq_refl eq_refl eq_refl H2 Hs1)
    as (_ & t1 & p2 & Hs2 & Hc1).
  destruct (table_name_reads p2 " " w tail eq_refl Hp eq_refl
              (closes_tokenizes _ _ Hcl) Hs2) as (p3 & Hs3 & Hn).
  destruct Hcl as (_ & lex & rest & Hft).
  destruct (starts_at _ _ _ _ _ Hs3 Hft) as [Hk3 _].
  destruct (values_read fuel (Identifier w) [] x xs p3 Hvals Hfuel Hs3)
    as (p' & Hrest).
  exists p'. unfold parse, sql_statement.
  rewrite bind_current.
  change ("INSERT INTO " ++ w ++ " VALUES (" ++ items ++ ")")
    with ("" ++ "INSERT" ++ " " ++ "INTO" ++ " " ++ w ++ tail).
  rewrite Hk0. decide_kinds. unfold insert_statement.
  rewrite (bind_run _ _ _ _ _ Hc0), (bind_run _ _ _ _ _ Hc1),
    (bind_run _ _ _ _ _ Hn), bind_current, Hk3.
  decide_kinds. exact Hrest.
Qed.

(** [INSERT] with a column list. *)
Lemma insert_columns_reads fuel w cols x xs :
  plain_name w = true -> named_columns cols = true ->
  forallb named (x :: xs) = true ->
  (length cols <= fuel)%nat -> (length xs <= fuel)%nat ->
  exists p',
    parse fuel
      (new (Lexer.new (("INSERT INTO " ++ w ++ " ("
                        ++ Str.join ", " (map show cols) ++ ")")
                       ++ " VALUES (" ++ Str.join ", " (map show (x :: xs))
                       ++ ")")))
    = Ok (InsertStmt (Identifier w) cols (x :: xs), p').
Proof.
  intros Hp Hcols Hvals Hfc Hfuel. destruct (plain_name_word w Hp) as [Hw _].
  destruct (values_tokenize x xs Hvals) as (_ & _ & Hcl).
  set (items := Str.join ", " (map show (x :: xs))) in *.
  set (columns := Str.join ", " (map show cols)).
  set (tail := " " ++ "VALUES" ++ " " ++ String "("%char ("" ++ items ++ ")"))
    in *.
  replace (("INSERT INTO " ++ w ++ " (" ++ columns ++ ")")
           ++ " VALUES (" ++ items ++ ")")
    with ("" ++ "INSERT" ++ " " ++ "INTO" ++ " " ++ w ++ " "
          ++ String "("%char ("" ++ columns ++ String ")"%char tail)).
  2: { now rewrite !append_assoc. }
  assert (H4 : tokenizes ("" ++ columns ++ String ")"%char tail))
    by exact (columns_tokenize cols "" _ RIGHT_PAREN Hcols eq_refl
                (closes_right_paren tail)).
  assert (H3 : tokenizes (" " ++ String "("%char
                            ("" ++ columns ++ String ")"%char tail)))
    by (eexists _, _, _; exact (first_token_left_paren " " _ eq_refl)).
  assert (H2 : tokenizes (" " ++ w ++ " " ++ String "("%char
                            ("" ++ columns ++ String ")"%char tail)))
    by now apply tokenizes_word.
  assert (H1 : tokenizes (" " ++ "INTO" ++ " " ++ w ++ " " ++ String "("%char
                            ("" ++ columns ++ String ")"%char tail)))
    by now apply tokenizes_word.
  assert (H0 : tokenizes ("" ++ "INSERT" ++ " " ++ "INTO" ++ " " ++ w ++ " "
                          ++ String "("%char
                               ("" ++ columns ++ String ")"%char tail)))
    by now apply tokenizes_word.
  pose proof (starts_new _ H0) as Hs0.
  destruct (keyword_reads _ "" "INSERT" INSERT
              (" " ++ "INTO" ++ " " ++ w ++ " " ++ String "("%char
                 ("" ++ columns ++ String ")"%char tail))
              eq_refl eq_refl eq_refl eq_refl H1 Hs0)
    as (Hk0 & t0 & p1 & Hs1 & Hc0).
  destruct (keyword_reads _ " " "INTO" INTO
              (" " ++ w ++ " " ++ String "("%char
                 ("" ++ columns ++ String ")"%char tail))
              eq_refl eq_refl eq_refl eq_refl H2 Hs1)
    as (_ & t1 & p2 & Hs2 & Hc1).
  destruct (table_name_reads p2 " " w
              (" " ++ String "("%char ("" ++ columns ++ String ")"%char tail))
              eq_refl Hp eq_refl H3 Hs2) as (p3 & Hs3 & Hn).
  pose proof (first_token_left_paren " "
                ("" ++ columns ++ String ")"%char tail) eq_refl) as Hft3.
  destruct (starts_at _ _ _ _ _ Hs3 Hft3) as [Hk3 _].
  destruct (consume_reads p3 _ _ _ _ Hs3 Hft3 H4) as (t3 & p4 & Hs4 & Hc3).
  destruct (column_list_reads fuel cols "" p4 (String ")"%char tail)
              RIGHT_PAREN Hcols eq_refl Hfc (closes_right_paren tail)
              ltac:(discriminate) ltac:(discriminate) Hs4)
    as (p5 & Hs5 & Hcl5).
  destruct (consume_reads p5 _ _ _ _ Hs5
              (first_token_right_paren "" tail eq_refl)
              (closes_tokenizes _ _ Hcl))
    as (t5 & p6 & Hs6 & Hc5).
  destruct (values_read fuel (Identifier w) cols x xs p6 Hvals Hfuel Hs6)
    as (p' & Hrest).
  exists p'. unfold parse, sql_statement.
  rewrite bind_current, Hk0. decide_kinds. unfold insert_statement.
  rewrite (bind_run _ _ _ _ _ Hc0), (bind_run _ _ _ _ _ Hc1),
    (bind_run _ _ _ _ _ Hn), bind_current, Hk3.
  decide_kinds.
  assert (Hlist :
            bind (consume LEFT_PAREN)
              (fun _ =>
                 bind (column_list fuel)
                   (fun columns =>
                      bind (consume RIGHT_PAREN) (fun _ => ret columns))) p3
            = Ok (cols, p6))
    by now rewrite (bind_run _ _ _ _ _ Hc3), (bind_run _ _ _ _ _ Hcl5),
         (bind_run _ _ _ _ _ Hc5).
  rewrite (bind_run _ _ _ _ _ Hlist). exact Hrest.
Qed.

End MoreStatements.

Section RenderingNames.

Import SQLGenerator.

Lemma render_names xs :
  forallb named xs = true -> res_map generate_expression xs = Ok (map show xs).
Proof.
  induction xs as [|x xs IH]; [reflexivity|]. cbn [forallb].
  intros H. apply andb_true_iff in H as [Hx Hxs].
  destruct x; try discriminate. cbn. now rewrite (IH Hxs).
Qed.

Lemma render_named_columns cols :
  named_columns cols = true ->
  generate_column_list cols = Ok (Str.join ", " (map show cols)).
Proof.
  intros H. apply orb_true_iff in H as [Hstar|Hn].
  - destruct cols as [|[w| | | | | | | | | | | |] [|]]; try discriminate.
    reflexivity.
  - apply andb_true_iff in Hn as [Hne Hnames].
    destruct cols as [|x xs]; [discriminate|].
    unfold generate_column_list. now rewrite (render_names _ Hnames).
Qed.

Lemma render_tables ts :
  forallb named_table ts = true ->
  generate_table_list ts = Ok (Str.join ", " (map show ts)).
Proof.
  intros H. unfold generate_table_list.
  assert (res_map generate_table_reference ts = Ok (map AST.Text (map show ts)))
    as ->.
  { induction ts as [|t ts IH]; [reflexivity|]. cbn [forallb] in H.
    apply andb_true_iff in H as [Ht Hts]. destruct t; try discriminate.
    cbn [res_map]. rewrite (IH Hts). reflexivity. }
  cbn [res_bind].
  assert (forall names, res_map AST.text (map AST.Text names) = Ok names) as ->.
  { induction names as [|n names IH]; [reflexivity|]. cbn. now rewrite IH. }
  reflexivity.
Qed.

Lemma render_set_clauses xs :
  forallb named_set_clause xs = true ->
  res_map generate_set_clause xs = Ok (map show xs).
Proof.
  induction xs as [|x xs IH]; [reflexivity|]. cbn [forallb].
  intros H. apply andb_true_iff in H as [Hx Hxs].
  destruct (named_set_clause_parts x Hx) as (w & v & -> & _).
  cbn. now rewrite (IH Hxs).
Qed.

Lemma render_column_definitions xs :
  forallb named_column xs = true ->
  res_map generate_column_definition xs = Ok (map show xs).
Proof.
  induction xs as [|x xs IH]; [reflexivity|]. cbn [forallb].
  intros H. apply andb_true_iff in H as [Hx Hxs].
  destruct (named_column_parts x Hx) as (w & k & -> & _).
  cbn. now rewrite (IH Hxs).
Qed.

Lemma length_join_all xs :
  (length xs <= S (String.length (Str.join ", " (map show xs))))%nat.
Proof.
  destruct xs as [|x xs]; [cbn; lia|].
  pose proof (length_join x xs). cbn [length]. lia.
Qed.

End RenderingNames.

(** X20. A statement made of names only is rendered to a text that is
    parsed back to the same statement: [SELECT] of [*] or of named columns
    from named tables, [INSERT] of names with or without a column list,
    [UPDATE] with [column = name] clauses, [DELETE], [CREATE] and [DROP],
    each without join and without [WHERE], where a name is a word that is
    no keyword. *)
Theorem names_only_statement_parses_back ast :
  names_only ast = true ->
  exists text,
    SQLGenerator.generate_sql ast = Ok text /\ parse_query text = Ok ast.
Proof.
  destruct ast as [| | | | | | |cols ts js w|t cols vals|t sets w|t w
                  |t cols|t]; try discriminate; cbn [names_only]; intros H.
  - destruct js; [|discriminate]. destruct w; [discriminate|].
    apply andb_true_iff in H as [H Hts].
    apply andb_true_iff in H as [Hcols Hne].
    destruct ts as [|t ts]; [discriminate|].
    exists ("SELECT " ++ Str.join ", " (map show cols) ++ " FROM "
            ++ Str.join ", " (map show (t :: ts))).
    split.
    + unfold SQLGenerator.generate_sql, SQLGenerator.generate_select.
      cbn [AST.type AST.columns AST.tables AST.joins res_bind].
      rewrite (render_named_columns _ Hcols). cbn [res_bind].
      now rewrite (render_tables _ Hts).
    + unfold parse_query.
      pose proof (length_join_all cols) as Hlc.
      pose proof (length_join t ts) as Hlt.
      edestruct (select_reads
                   (String.length
                      ("SELECT " ++ Str.join ", " (map show cols) ++ " FROM "
                       ++ Str.join ", " (map show (t :: ts))))
                   cols t ts Hcols Hts) as [p' ->]; [| |reflexivity];
        rewrite !length_append; cbn [String.length]; lia.
  - apply andb_true_iff in H as [H Hvals].
    apply andb_true_iff in H as [H Hne].
    apply andb_true_iff in H as [Ht Hcols].
    destruct t as [w| | | | | | | | | | | |]; try discriminate.
    cbn [named] in Ht. destruct vals as [|x xs]; [discriminate|].
    pose proof (length_join x xs) as Hlv.
    destruct cols as [|c cols].
    + exists ("INSERT INTO " ++ w ++ " VALUES ("
              ++ Str.join ", " (map show (x :: xs)) ++ ")").
      split.
      * unfold SQLGenerator.generate_sql, SQLGenerator.generate_insert.
        cbn [AST.type AST.table AST.columns AST.values res_bind AST.name
             AST.text SQLGenerator.generate_table_reference].
        rewrite (render_names _ Hvals). cbn [res_bind].
        now rewrite append_assoc.
      * unfold parse_query.
        edestruct (insert_reads
                     (String.length
                        ("INSERT INTO " ++ w ++ " VALUES ("
                         ++ Str.join ", " (map show (x :: xs)) ++ ")"))
                     w x xs Ht Hvals) as [p' ->]; [|reflexivity].
        rewrite !length_append; cbn [String.length]; lia.
    + cbn [nonempty negb orb] in Hcols.
      pose proof (length_join_all (c :: cols)) as Hlc.
      exists (("INSERT INTO " ++ w ++ " ("
               ++ Str.join ", " (map show (c :: cols)) ++ ")")
              ++ " VALUES (" ++ Str.join ", " (map show (x :: xs)) ++ ")").
      split.
      * unfold SQLGenerator.generate_sql, SQLGenerator.generate_insert.
        cbn [AST.type AST.table AST.columns AST.values res_bind AST.name
             AST.text SQLGenerator.generate_table_reference].
        rewrite (render_named_columns _ Hcols). cbn [res_bind].
        now rewrite (render_names _ Hvals).
      * unfold parse_query.
        edestruct (insert_columns_reads
                     (String.length
                        (("INSERT INTO " ++ w ++ " ("
                          ++ Str.join ", " (map show (c :: cols)) ++ ")")
                         ++ " VALUES (" ++ Str.join ", " (map show (x :: xs))
                         ++ ")"))
                     w (c :: cols) x xs Ht Hcols Hvals) as [p' ->];
          [| |reflexivity];
          rewrite !length_append; cbn [String.length]; lia.
  - destruct w; [discriminate|].
    apply andb_true_iff in H as [H Hsets].
    apply andb_true_iff in H as [Ht Hne].
    destruct t as [w| | | | | | | | | | | |]; try discriminate.
    cbn [named] in Ht. destruct sets as [|x xs]; [discriminate|].
    pose proof (length_join x xs) as Hls.
    exists ("UPDATE " ++ w ++ " SET " ++ Str.join ", " (map show (x :: xs))).
    split.
    + unfold SQLGenerator.generate_sql, SQLGenerator.generate_update.
      cbn [AST.type AST.table AST.set_clauses res_bind AST.name AST.text
           SQLGenerator.generate_table_reference].
      now rewrite (render_set_clauses _ Hsets).
    + unfold parse_query.
      edestruct (update_reads
                   (String.length
                      ("UPDATE " ++ w ++ " SET "
                       ++ Str.join ", " (map show (x :: xs))))
                   w x xs Ht Hsets) as [p' ->]; [|reflexivity].
      rewrite !length_append; cbn [String.length]; lia.
  - destruct w; [discriminate|].
    destruct t as [w| | | | | | | | | | | |]; try discriminate.
    cbn [named] in H. exists ("DELETE FROM " ++ w). split; [reflexivity|].
    unfold parse_query.
    now destruct (delete_reads (String.length ("DELETE FROM " ++ w)) w H)
      as [p' ->].
  - apply andb_true_iff in H as [H Hcols].
    apply andb_true_iff in H as [Ht Hne].
    destruct t as [w| | | | | | | | | | | |]; try discriminate.
    cbn [named] in Ht. destruct cols as [|x xs]; [discriminate|].
    pose proof (length_join x xs) as Hlc.
    exists ("CREATE TABLE " ++ w ++ " ("
            ++ Str.join ", " (map show (x :: xs)) ++ ")").
    split.
    + unfold SQLGenerator.generate_sql, SQLGenerator.generate_create.
      cbn [AST.type AST.table AST.columns res_bind AST.name AST.text
           SQLGenerator.generate_table_reference].
      now rewrite (render_column_definitions _ Hcols).
    + unfold parse_query.
      edestruct (create_reads
                   (String.length
                      ("CREATE TABLE " ++ w ++ " ("
                       ++ Str.join ", " (map show (x :: xs)) ++ ")"))
                   w x xs Ht Hcols) as [p' ->]; [|reflexivity].
      rewrite !length_append; cbn [String.length]; lia.
  - destruct t as [w| | | | | | | | | | | |]; try discriminate.
    cbn [named] in H. exists ("DROP TABLE " ++ w). split; [reflexivity|].
    unfold parse_query.
    now destruct (drop_reads (String.length ("DROP TABLE " ++ w)) w H)
      as [p' ->].
Qed.

Lemma names_only_statement_parses_back_witness :
  exists text,
    SQLGenerator.generate_sql
      (InsertStmt (Identifier "t") [Identifier "a"; Identifier "b"]
         [Identifier "x"; Identifier "y"])
    = Ok text
    /\ parse_query text
       = Ok (InsertStmt (Identifier "t") [Identifier "a"; Identifier "b"]
               [Identifier "x"; Identifier "y"]).
Proof.
  exact (names_only_statement_parses_back
           (InsertStmt (Identifier "t") [Identifier "a"; Identifier "b"]
              [Identifier "x"; Identifier "y"]) eq_refl).
Defined.
